(** * HariGraph: merging, coarsening and dynamics on a weighted directed graph

    A shallow embedding of [hari_plotter/hari_graph.py].

    Modelling conventions.
    - Python floats are modelled by exact rationals [Q]; numeric results are
      compared with [==] ([Qeq]).  Rounding is not modelled.
    - Node identifiers are Python ints, modelled by [Z].
    - A Python [dict] is an association list in insertion order with the
      semantics of the built-in: assignment to a present key keeps its
      position, assignment to an absent key appends, deletion keeps the
      order of the others.
    - [networkx.DiGraph] is the base class of [HariGraph].  Its state is the
      node dictionary (id -> attribute dict) and the edge dictionary
      ((source, target) -> weight).  The views [successors], [predecessors]
      and [edges] are derived from these in the order networkx iterates.
    - A method mutates the graph in place and may raise: it is a function
      from the graph to [Done g'] (normal return, final state [g']) or
      [Raised e g'] (exception [e], with the state [g'] the object is left
      in). *)

From Stdlib Require Import ZArith QArith Qabs Qminmax List Bool Lia Lqa
  Permutation.
Import ListNotations.

Set Implicit Arguments.

(** ** Exceptions and results *)

Inductive exn : Type :=
| KeyError
| ValueError
| AssertionError
| StopIteration
| ZeroDivisionError
| RuntimeError
| NetworkXError.

Inductive result (A : Type) : Type :=
| Ok (a : A)
| Err (e : exn).
Arguments Ok {A} a.
Arguments Err {A} e.

(** ** Python dictionaries *)

Class EqDec (K : Type) := eq_dec : forall a b : K, {a = b} + {a <> b}.

#[export] Instance Z_EqDec : EqDec Z := Z.eq_dec.

#[export] Instance pair_EqDec {A B : Type} `{EqDec A} `{EqDec B} : EqDec (A * B).
Proof.
  intros [a b] [a' b'].
  destruct (eq_dec a a') as [->|Ha]; [destruct (eq_dec b b') as [->|Hb] |].
  - left; reflexivity.
  - right; intros E; inversion E; contradiction.
  - right; intros E; inversion E; contradiction.
Defined.

Module PyDict.
Section Dict.
Context {K V : Type} `{EqDec K}.

Definition t := list (K * V).

(** [d.get(k)] *)
Fixpoint get (k : K) (d : t) : option V :=
  match d with
  | [] => None
  | (k', v) :: d' => if eq_dec k k' then Some v else get k d'
  end.

(** [k in d] *)
Definition mem (k : K) (d : t) : bool :=
  match get k d with Some _ => true | None => false end.

(** [d[k] = v] *)
Fixpoint set (k : K) (v : V) (d : t) : t :=
  match d with
  | [] => [(k, v)]
  | (k', v') :: d' =>
      if eq_dec k k' then (k', v) :: d' else (k', v') :: set k v d'
  end.

(** [del d[k]] (for a present key) *)
Definition del (k : K) (d : t) : t :=
  filter (fun kv => if eq_dec k (fst kv) then false else true) d.

(** [list(d)] *)
Definition keys (d : t) : list K := map fst d.
End Dict.
End PyDict.

(** ** Node attributes *)

(** The attribute dictionary of a node.  The code reads five keys, each of
    which may be absent. *)
Record NodeData : Type := mkNode {
  value : option Q;
  label : option (list Z);
  min_value : option Q;
  max_value : option Q;
  importance : option Q
}.

Definition no_attrs : NodeData := mkNode None None None None None.

Definition or_else {A : Type} (new old : option A) : option A :=
  match new with Some x => Some x | None => old end.

(** [old.update(new)] *)
Definition update_attrs (old new : NodeData) : NodeData :=
  mkNode (or_else (value new) (value old))
         (or_else (label new) (label old))
         (or_else (min_value new) (min_value old))
         (or_else (max_value new) (max_value old))
         (or_else (importance new) (importance old)).

(** [data.get('label', [n])] *)
Definition get_label (n : Z) (d : NodeData) : list Z :=
  match label d with Some l => l | None => [n] end.

(** [data.get('min_value', v)] and [data.get('max_value', v)] *)
Definition get_min (v : Q) (d : NodeData) : Q :=
  match min_value d with Some m => m | None => v end.
Definition get_max (v : Q) (d : NodeData) : Q :=
  match max_value d with Some m => m | None => v end.

(** ** The networkx digraph *)

Record DiGraph : Type := mkGraph {
  nodes : list (Z * NodeData);
  adj : list ((Z * Z) * Q)
}.

Inductive run : Type :=
| Done (g : DiGraph)
| Raised (e : exn) (g : DiGraph).

Definition bind (r : run) (k : DiGraph -> run) : run :=
  match r with
  | Done g => k g
  | Raised e g => Raised e g
  end.

Notation "x <- r ;; k" := (bind r (fun x => k))
  (at level 61, r at next level, right associativity).

(** The state the object is in when the call is over. *)
Definition final_state (r : run) : DiGraph :=
  match r with Done g => g | Raised _ g => g end.

Fixpoint fold_run {A : Type} (body : DiGraph -> A -> run) (l : list A)
  (g : DiGraph) : run :=
  match l with
  | [] => Done g
  | x :: l' => g' <- body g x ;; fold_run body l' g'
  end.

Module nx.

Definition empty : DiGraph := mkGraph [] [].

Definition has_node (g : DiGraph) (n : Z) : bool := PyDict.mem n (nodes g).

Definition has_edge (g : DiGraph) (u v : Z) : bool :=
  PyDict.mem (u, v) (adj g).

(** [self.nodes[n]] *)
Definition node (g : DiGraph) (n : Z) : option NodeData :=
  PyDict.get n (nodes g).

(** [self[u][v]['value']] *)
Definition edge_value (g : DiGraph) (u v : Z) : option Q :=
  PyDict.get (u, v) (adj g).

Definition number_of_nodes (g : DiGraph) : nat := length (nodes g).

(** [add_node(n, **attrs)]: a new node takes the attributes, a present
    one has its attribute dictionary updated with them. *)
Definition add_node (g : DiGraph) (n : Z) (attrs : NodeData) : DiGraph :=
  let old := match node g n with Some d => d | None => no_attrs end in
  mkGraph (PyDict.set n (update_attrs old attrs) (nodes g)) (adj g).

(** What [add_edge] does to an endpoint: a node that is not in the graph
    is created with no attributes. *)
Definition touch (n : Z) (ns : list (Z * NodeData)) : list (Z * NodeData) :=
  if PyDict.mem n ns then ns else ns ++ [(n, no_attrs)].

(** [add_edge(u, v, value=w)]: never raises; creates the endpoints that
    are missing and sets the weight of the edge, overwriting the weight
    of an edge that is already there. *)
Definition add_edge (g : DiGraph) (u v : Z) (w : Q) : DiGraph :=
  mkGraph (touch v (touch u (nodes g))) (PyDict.set (u, v) w (adj g)).

Definition remove_edge (g : DiGraph) (u v : Z) : run :=
  if has_edge g u v
  then Done (mkGraph (nodes g) (PyDict.del (u, v) (adj g)))
  else Raised NetworkXError g.

Definition incident (n : Z) (e : (Z * Z) * Q) : bool :=
  (fst (fst e) =? n)%Z || (snd (fst e) =? n)%Z.

(** [remove_node(n)]: the node goes with all its edges. *)
Definition remove_node (g : DiGraph) (n : Z) : run :=
  if has_node g n
  then Done (mkGraph (PyDict.del n (nodes g))
                     (filter (fun e => negb (incident n e)) (adj g)))
  else Raised NetworkXError g.

Definition out_edges (g : DiGraph) (n : Z) : list ((Z * Z) * Q) :=
  filter (fun e => (fst (fst e) =? n)%Z) (adj g).

Definition in_edges (g : DiGraph) (n : Z) : list ((Z * Z) * Q) :=
  filter (fun e => (snd (fst e) =? n)%Z) (adj g).

(** [list(self.successors(n))] *)
Definition successors (g : DiGraph) (n : Z) : result (list Z) :=
  if has_node g n
  then Ok (map (fun e => snd (fst e)) (out_edges g n))
  else Err NetworkXError.

(** [list(self.predecessors(n))] *)
Definition predecessors (g : DiGraph) (n : Z) : result (list Z) :=
  if has_node g n
  then Ok (map (fun e => fst (fst e)) (in_edges g n))
  else Err NetworkXError.

(** [list(self.edges)]: by source in node order, then in the order of the
    source's adjacency. *)
Definition edges (g : DiGraph) : list (Z * Z) :=
  flat_map (fun n => map fst (out_edges g n)) (PyDict.keys (nodes g)).

(** [max(self.nodes)] *)
Definition max_node (g : DiGraph) : option Z :=
  match PyDict.keys (nodes g) with
  | [] => None
  | k :: ks => Some (fold_left Z.max ks k)
  end.

End nx.

(** ** HariGraph methods *)

Definition Qnat (n : nat) : Q := inject_Z (Z.of_nat n).

Definition Qltb (a b : Q) : bool := negb (Qle_bool b a).

(** [a / b], which raises when [b] is zero. *)
Definition py_div (a b : Q) : result Q :=
  if Qeq_bool b 0 then Err ZeroDivisionError else Ok (a / b)%Q.

(** *** remove_self_loops *)

Definition remove_self_loops (g : DiGraph) : run :=
  fold_run (fun g n => if nx.has_edge g n n then nx.remove_edge g n n else Done g)
           (PyDict.keys (nodes g)) g.

(** *** dynamics_step *)

(** The inner loop: [vi += pij * vj * t] for every predecessor [j]. *)
Fixpoint influence_sum (g : DiGraph) (t : Q) (i : Z) (preds : list Z) (vi : Q)
  : result Q :=
  match preds with
  | [] => Ok vi
  | j :: rest =>
      match nx.edge_value g j i with
      | None => Err KeyError
      | Some pij =>
          match nx.node g j with
          | None => Err KeyError
          | Some dj =>
              match value dj with
              | None => Err KeyError
              | Some vj => influence_sum g t i rest (vi + pij * vj * t)%Q
              end
          end
      end
  end.

(** [max(0, min(vi, 1))] *)
Definition clip01 (vi : Q) : Q := Qmax 0 (Qmin vi 1).

(** The first loop: the new value of every node, computed on the graph as
    it is (nothing is written before the loop is over). *)
Fixpoint updated_values (g : DiGraph) (t : Q) (ns : list (Z * NodeData))
  : result (list (Z * Q)) :=
  match ns with
  | [] => Ok []
  | (i, di) :: rest =>
      match value di with
      | None => Err KeyError
      | Some vi =>
          match nx.predecessors g i with
          | Err e => Err e
          | Ok preds =>
              match influence_sum g t i preds vi with
              | Err e => Err e
              | Ok vi' =>
                  match updated_values g t rest with
                  | Err e => Err e
                  | Ok upd => Ok ((i, clip01 vi') :: upd)
                  end
              end
          end
      end
  end.

(** [self.nodes[i]['value'] = vi] *)
Definition set_value (g : DiGraph) (i : Z) (vi : Q) : run :=
  match nx.node g i with
  | None => Raised KeyError g
  | Some d =>
      Done (mkGraph (PyDict.set i (mkNode (Some vi) (label d) (min_value d)
                                          (max_value d) (importance d))
                                (nodes g))
                    (adj g))
  end.

Definition dynamics_step (g : DiGraph) (t : Q) : run :=
  match updated_values g t (nodes g) with
  | Err e => Raised e g
  | Ok upd => fold_run (fun g iv => set_value g (fst iv) (snd iv)) upd g
  end.

(** *** Similarity *)

Definition similarity_fn : Type :=
  Q -> Q -> nat -> nat -> option Q -> option Q -> result Q.

Definition default_similarity_function
  (vi vj : Q) (size_i size_j : nat) (edge_value reverse_edge_value : option Q)
  (value_coef extreme_coef influence_coef size_coef : Q) : result Q :=
  let value_proximity := (value_coef * (1 - Qabs (vi - vj)))%Q in
  let extreme_proximity :=
    (extreme_coef * Qmin (Qmin vi vj) (Qmin (1 - vi) (1 - vj)))%Q in
  let influence := 0%Q in
  let label_sum := Qnat (size_i + size_j) in
  match (match edge_value with
         | Some e =>
             match py_div (e * Qnat size_j) label_sum with
             | Ok x => Ok (influence + x)%Q
             | Err err => Err err
             end
         | None => Ok influence
         end) with
  | Err err => Err err
  | Ok influence =>
      match (match reverse_edge_value with
             | Some r =>
                 match py_div (r * Qnat size_i) label_sum with
                 | Ok x => Ok (influence + x)%Q
                 | Err err => Err err
                 end
             | None => Ok influence
             end) with
      | Err err => Err err
      | Ok influence =>
          let influence := (influence * influence_coef)%Q in
          let size_impact :=
            (size_coef * (1 / (1 + Qnat size_i) + 1 / (1 + Qnat size_j)))%Q in
          Ok (value_proximity + extreme_proximity + influence + size_impact)%Q
      end
  end.

(** The function with its default coefficients, as [compute_similarity]
    calls it (six positional arguments). *)
Definition default_similarity : similarity_fn :=
  fun vi vj size_i size_j e r =>
    default_similarity_function vi vj size_i size_j e r 1 (1 # 10) 1 10.

(** [self_similarity] is the attribute [self.similarity_function];
    [similarity_function] is the optional argument of the call. *)
Definition compute_similarity (self_similarity : similarity_fn) (g : DiGraph)
  (i j : Z) (similarity_function : option similarity_fn) : result Q :=
  if negb (nx.has_edge g i j) && negb (nx.has_edge g j i) then Ok (-2 # 1)
  else
    match nx.node g i with
    | None => Err KeyError
    | Some di =>
        match value di with
        | None => Err KeyError
        | Some vi =>
            match nx.node g j with
            | None => Err KeyError
            | Some dj =>
                match value dj with
                | None => Err KeyError
                | Some vj =>
                    let size_i := length (get_label i di) in
                    let size_j := length (get_label j dj) in
                    let edge_value := nx.edge_value g i j in
                    let reverse_edge_value := nx.edge_value g j i in
                    let func := match similarity_function with
                                | Some f => f
                                | None => self_similarity
                                end in
                    func vi vj size_i size_j edge_value reverse_edge_value
                end
            end
        end
    end.

(** *** merge_nodes *)

(** One half of the body of the reconnection loop: the edge [(u, v)] has its
    end [a] among the merged nodes; unless its other end [b] is merged too,
    its weight goes to the edge [(src, dst)] of the new node, added to the
    weight that edge already has. Then [(u, v)] is removed if it is there. *)
Definition rehome (i j : Z) (a b u v src dst : Z) (g : DiGraph) : run :=
  if (a =? i)%Z || (a =? j)%Z then
    g1 <- (if negb (b =? i)%Z && negb (b =? j)%Z then
             match nx.edge_value g u v with
             | None => Raised KeyError g
             | Some w =>
                 match nx.edge_value g src dst with
                 | Some old =>
                     Done (mkGraph (nodes g)
                                   (PyDict.set (src, dst) (old + w)%Q (adj g)))
                 | None => Done (nx.add_edge g src dst w)
                 end
             end
           else Done g) ;;
    if nx.has_edge g1 u v then nx.remove_edge g1 u v else Done g1
  else Done g.

Definition reconnect (i j new_node : Z) (g : DiGraph) (uv : Z * Z) : run :=
  let '(u, v) := uv in
  g1 <- rehome i j u v u v new_node v g ;;
  rehome i j v u u v u new_node g1.

Definition merge_nodes (g : DiGraph) (i j : Z) : run :=
  match nx.node g i with
  | None => Raised KeyError g
  | Some di =>
      let label_i := get_label i di in
      match nx.node g j with
      | None => Raised KeyError g
      | Some dj =>
          let label_j := get_label j dj in
          let new_label := label_i ++ label_j in
          match value di with
          | None => Raised KeyError g
          | Some vi =>
              match value dj with
              | None => Raised KeyError g
              | Some vj =>
                  let min_value := Qmin (get_min vi di) (get_min vj dj) in
                  let max_value := Qmax (get_max vi di) (get_max vj dj) in
                  let weight_i := length label_i in
                  let weight_j := length label_j in
                  match py_div (vi * Qnat weight_i + vj * Qnat weight_j)
                               (Qnat (weight_i + weight_j)) with
                  | Err e => Raised e g
                  | Ok new_value =>
                      match nx.max_node g with
                      | None => Raised ValueError g
                      | Some m =>
                          let new_node := (m + 1)%Z in
                          let g1 :=
                            nx.add_node g new_node
                              (mkNode (Some new_value) (Some new_label)
                                      (Some min_value) (Some max_value) None) in
                          g2 <- fold_run (reconnect i j new_node) (nx.edges g1) g1 ;;
                          g3 <- nx.remove_node g2 i ;;
                          nx.remove_node g3 j
                      end
                  end
              end
          end
      end
  end.

(** *** merge_clusters *)

(** The argument of [merge_clusters]: a list of clusters, each given by the
    order in which it is iterated; a dictionary, which the code reads as
    new id -> collection of old ids; or a value of any other type. *)
Inductive clusters_arg : Type :=
| ClustersList (clusters : list (list Z))
| ClustersDict (clusters : list (Z * list Z))
| ClustersOther.

(** The list branch.  [assert node_id in self.nodes and node_id not in
    id_mapping] guards every assignment. *)
Fixpoint assign_cluster (g : DiGraph) (new_id : Z) (cluster : list Z)
  (id_mapping : list (Z * Z)) : result (list (Z * Z)) :=
  match cluster with
  | [] => Ok id_mapping
  | node_id :: rest =>
      if nx.has_node g node_id && negb (PyDict.mem node_id id_mapping)
      then assign_cluster g new_id rest (PyDict.set node_id new_id id_mapping)
      else Err AssertionError
  end.

Fixpoint assign_clusters (g : DiGraph) (new_id : Z) (clusters : list (list Z))
  (id_mapping : list (Z * Z)) : result (list (Z * Z)) :=
  match clusters with
  | [] => Ok id_mapping
  | cluster :: rest =>
      match assign_cluster g new_id cluster id_mapping with
      | Err e => Err e
      | Ok id_mapping' => assign_clusters g (new_id + 1)%Z rest id_mapping'
      end
  end.

(** The dictionary branch: no check, a later assignment overwrites. *)
Definition dict_mapping (clusters : list (Z * list Z)) : list (Z * Z) :=
  fold_left
    (fun id_mapping (item : Z * list Z) =>
       fold_left (fun m old_id => PyDict.set old_id (fst item) m)
                 (snd item) id_mapping)
    clusters [].

(** Accumulators of the loop over the members of a cluster.  [None] stands
    for the infinite initial value of the two bounds. *)
Record cluster_acc : Type := mkAcc {
  acc_labels : list Z;
  acc_importance : Q;
  acc_total_value : Q;
  acc_total_weight : nat;
  acc_min : option Q;
  acc_max : option Q
}.

Definition acc0 : cluster_acc := mkAcc [] 0 0 0 None None.

Definition min_inf (acc : option Q) (x : Q) : Q :=
  match acc with None => x | Some m => Qmin m x end.
Definition max_inf (acc : option Q) (x : Q) : Q :=
  match acc with None => x | Some m => Qmax m x end.

Fixpoint gather (g : DiGraph) (cluster : list Z) (a : cluster_acc)
  : result cluster_acc :=
  match cluster with
  | [] => Ok a
  | node_id :: rest =>
      match nx.node g node_id with
      | None => Err KeyError
      | Some node =>
          let v := match value node with Some v => v | None => 0%Q end in
          let imp := match importance node with Some x => x | None => 0%Q end in
          let weight := length (get_label node_id node) in
          gather g rest
            (mkAcc (acc_labels a ++ get_label node_id node)
                   (acc_importance a + imp)%Q
                   (acc_total_value a + v * Qnat weight)%Q
                   (acc_total_weight a + weight)
                   (Some (min_inf (acc_min a) (get_min v node)))
                   (Some (max_inf (acc_max a) (get_max v node))))
      end
  end.

Definition cluster_node (a : cluster_acc) : NodeData :=
  let new_value :=
    if (0 <? acc_total_weight a)%nat
    then (acc_total_value a / Qnat (acc_total_weight a))%Q
    else 0%Q in
  mkNode (Some new_value) (Some (acc_labels a)) (acc_min a) (acc_max a)
         (Some (acc_importance a)).

(** Body of the loop that creates the new nodes. *)
Definition create_cluster (id_mapping : list (Z * Z)) (g : DiGraph)
  (cluster : list Z) : run :=
  match cluster with
  | [] => Raised StopIteration g
  | first :: _ =>
      match PyDict.get first id_mapping with
      | None => Raised KeyError g
      | Some new_id =>
          match gather g cluster acc0 with
          | Err e => Raised e g
          | Ok a => Done (nx.add_node g new_id (cluster_node a))
          end
      end
  end.

(** [id_mapping.get(n, n)] *)
Definition mapped (id_mapping : list (Z * Z)) (n : Z) : Z :=
  match PyDict.get n id_mapping with Some m => m | None => n end.

(** Body of the loop over the successors of [old_node_id].  The adjacency
    being iterated is that of [old_node_id]; it grows only when the edge is
    added at [old_node_id] itself, which Python reports at the next step of
    the iteration. *)
Definition move_successor (id_mapping : list (Z * Z)) (old_node_id new_id : Z)
  (g : DiGraph) (successor : Z) : run :=
  let mapped_successor := mapped id_mapping successor in
  if negb (mapped_successor =? new_id)%Z then
    match nx.edge_value g old_node_id successor with
    | None => Raised KeyError g
    | Some w =>
        let g' := nx.add_edge g new_id mapped_successor w in
        if (new_id =? old_node_id)%Z
           && negb (nx.has_edge g old_node_id mapped_successor)
        then Raised RuntimeError g'
        else Done g'
    end
  else Done g.

Definition move_predecessor (id_mapping : list (Z * Z)) (old_node_id new_id : Z)
  (g : DiGraph) (predecessor : Z) : run :=
  let mapped_predecessor := mapped id_mapping predecessor in
  if negb (mapped_predecessor =? new_id)%Z then
    match nx.edge_value g predecessor old_node_id with
    | None => Raised KeyError g
    | Some w =>
        let g' := nx.add_edge g mapped_predecessor new_id w in
        if (new_id =? old_node_id)%Z
           && negb (nx.has_edge g mapped_predecessor old_node_id)
        then Raised RuntimeError g'
        else Done g'
    end
  else Done g.

(** Body of the loop over [id_mapping.items()]. *)
Definition reassign (id_mapping : list (Z * Z)) (g : DiGraph)
  (item : Z * Z) : run :=
  let '(old_node_id, new_id) := item in
  match nx.successors g old_node_id with
  | Err e => Raised e g
  | Ok succs =>
      g1 <- fold_run (move_successor id_mapping old_node_id new_id) succs g ;;
      match nx.predecessors g1 old_node_id with
      | Err e => Raised e g1
      | Ok preds =>
          g2 <- fold_run (move_predecessor id_mapping old_node_id new_id)
                         preds g1 ;;
          nx.remove_node g2 old_node_id
      end
  end.

(** *** merge_by_intervals *)

Fixpoint insert_sorted (x : Q) (l : list Q) : list Q :=
  match l with
  | [] => [x]
  | y :: l' => if Qltb x y then x :: l else y :: insert_sorted x l'
  end.

(** [sorted(intervals)] *)
Definition sorted (l : list Q) : list Q :=
  fold_left (fun acc x => insert_sorted x acc) l [].

(** The nodes whose value lies in [[lower, upper)], in node order. *)
Definition bucket (g : DiGraph) (lower upper : Q) : list Z :=
  map fst
    (filter (fun nd =>
               let v := match value (snd nd) with Some v => v | None => 0%Q end in
               Qle_bool lower v && Qltb v upper)
            (nodes g)).

Fixpoint buckets (g : DiGraph) (bounds : list Q) : list (list Z) :=
  match bounds with
  | lower :: ((upper :: _) as rest) => bucket g lower upper :: buckets g rest
  | _ => []
  end.

Definition nonempty {A : Type} (l : list A) : bool :=
  match l with [] => false | _ => true end.

Section SetOrder.

(** [set_iter l] is the order in which CPython iterates [set(l)].  The
    language does not fix it, so it is a parameter of the model. *)
Variable set_iter : list Z -> list Z.

Definition dict_clusters (id_mapping : list (Z * Z)) : list (list Z) :=
  map (fun new_id =>
         set_iter (map fst (filter (fun om => (snd om =? new_id)%Z)
                                   id_mapping)))
      (set_iter (map snd id_mapping)).

(** The first part of [merge_clusters]: [id_mapping] and [clusters_list].
    Nothing is written to the graph here. *)
Definition cluster_plan (g : DiGraph) (clusters : clusters_arg)
  : result (list (Z * Z) * list (list Z)) :=
  match clusters with
  | ClustersDict d =>
      let id_mapping := dict_mapping d in
      Ok (id_mapping, dict_clusters id_mapping)
  | ClustersList cs =>
      match nx.max_node g with
      | None => Err ValueError
      | Some m =>
          match assign_clusters g (m + 1)%Z cs [] with
          | Err e => Err e
          | Ok id_mapping => Ok (id_mapping, cs)
          end
      end
  | ClustersOther => Err ValueError
  end.

Definition merge_clusters (g : DiGraph) (clusters : clusters_arg) : run :=
  match cluster_plan g clusters with
  | Err e => Raised e g
  | Ok (id_mapping, clusters_list) =>
      g1 <- fold_run (create_cluster id_mapping) clusters_list g ;;
      fold_run (reassign id_mapping) id_mapping g1
  end.

Definition merge_by_intervals (g : DiGraph) (intervals : list Q) : run :=
  if negb (forallb (fun v => Qle_bool 0 v && Qle_bool v 1) intervals)
  then Raised ValueError g
  else if negb (nonempty intervals) then Raised ValueError g
  else
    let intervals := 0%Q :: sorted intervals ++ [1%Q] in
    let clusters := map set_iter (filter nonempty (buckets g intervals)) in
    if nonempty clusters then merge_clusters g (ClustersList clusters)
    else Done g.

End SetOrder.

(** *** simplify_graph_one_iteration *)

(** [itertools.combinations(l, 2)] *)
Fixpoint combinations2 {A : Type} (l : list A) : list (A * A) :=
  match l with
  | [] => []
  | x :: l' => map (fun y => (x, y)) l' ++ combinations2 l'
  end.

(** [self.nodes[i]['label'] = [i]] for every node. *)
Definition reset_labels (g : DiGraph) : DiGraph :=
  mkGraph (map (fun nd => (fst nd,
                           mkNode (value (snd nd)) (Some [fst nd])
                                  (min_value (snd nd)) (max_value (snd nd))
                                  (importance (snd nd))))
               (nodes g))
          (adj g).

(** The first statement: labels are written when the first node has none. *)
Definition init_labels (g : DiGraph) : run :=
  match nodes g with
  | [] => Raised StopIteration g
  | (_, d) :: _ =>
      match label d with
      | None => Done (reset_labels g)
      | Some _ => Done g
      end
  end.

(** The scan: [best] is the pair [(max_similarity, pair)]. *)
Fixpoint best_pair (sim : Z -> Z -> result Q) (pairs : list (Z * Z))
  (best : Q * option (Z * Z)) : result (Q * option (Z * Z)) :=
  match pairs with
  | [] => Ok best
  | (i, j) :: rest =>
      match sim i j with
      | Err e => Err e
      | Ok similarity =>
          if Qltb (fst best) similarity
          then best_pair sim rest (similarity, Some (i, j))
          else best_pair sim rest best
      end
  end.

Definition simplify_graph_one_iteration (self_similarity : similarity_fn)
  (g : DiGraph) : run :=
  g0 <- init_labels g ;;
  if (nx.number_of_nodes g0 <=? 1)%nat then Done g0
  else
    match best_pair (fun i j => compute_similarity self_similarity g0 i j None)
                    (combinations2 (PyDict.keys (nodes g0)))
                    ((-1 # 1)%Q, None) with
    | Err e => Raised e g0
    | Ok (_, None) => Done g0
    | Ok (_, Some (i, j)) => merge_nodes g0 i j
    end.

(** *** The merge operations as one type *)

Inductive merge_op : Type :=
| MergeNodes (i j : Z)
| MergeClusters (clusters : clusters_arg)
| MergeByIntervals (intervals : list Q).

Definition apply_op (set_iter : list Z -> list Z) (g : DiGraph) (op : merge_op)
  : run :=
  match op with
  | MergeNodes i j => merge_nodes g i j
  | MergeClusters clusters => merge_clusters set_iter g clusters
  | MergeByIntervals intervals => merge_by_intervals set_iter g intervals
  end.

(** *** add_edge

    [HariGraph] does not override [add_edge]: a call runs the method of the
    base class, which has no failing path for integer ids. *)
Definition add_edge_call (g : DiGraph) (u v : Z) (w : Q) : run :=
  Done (nx.add_edge g u v w).

(** *** generate_labels and generate_min_max_values *)

(** Nothing is done on an empty graph; otherwise the first node decides:
    when it has no label every node gets the label [[i]]. *)
Definition generate_labels (g : DiGraph) : DiGraph :=
  match nodes g with
  | [] => g
  | (_, d) :: _ =>
      match label d with
      | None => reset_labels g
      | Some _ => g
      end
  end.

(** Body of the loop of [generate_min_max_values]: [data] is the attribute
    dictionary of [node] in the graph. *)
Definition own_bounds (g : DiGraph) (node : Z) : run :=
  match nx.node g node with
  | None => Raised KeyError g
  | Some data =>
      match label data with
      | Some _ => Done g
      | None =>
          match value data with
          | None => Raised KeyError g
          | Some v =>
              Done (mkGraph (PyDict.set node
                               (mkNode (value data) (label data) (Some v)
                                       (Some v) (importance data))
                               (nodes g))
                            (adj g))
          end
      end
  end.

Definition generate_min_max_values (g : DiGraph) : run :=
  fold_run own_bounds (PyDict.keys (nodes g)) g.

(** *** weighted_mean_value *)



(** *** write_json and read_json *)

(** The dictionary that [json.dump] writes and [json.load] gives back.  A
    node entry has the keys [id] and [value]; [read_json] reads the keys
    [min_value], [max_value] and [label] with [get], so they may be
    absent. *)
Record json_node : Type := mkJsonNode {
  json_id : Z;
  json_value : Q;
  json_min_value : option Q;
  json_max_value : option Q;
  json_label : option (list Z)
}.

Record json_edge : Type := mkJsonEdge {
  json_source : Z;
  json_target : Z;
  json_weight : Q
}.

Record graph_dict : Type := mkGraphDict {
  json_nodes : list json_node;
  json_edges : list json_edge
}.

(** The list comprehension over [self.nodes()]. *)
Fixpoint node_entries (g : DiGraph) (ns : list Z) : result (list json_node) :=
  match ns with
  | [] => Ok []
  | n :: rest =>
      match nx.node g n with
      | None => Err KeyError
      | Some d =>
          match value d with
          | None => Err KeyError
          | Some v =>
              match node_entries g rest with
              | Err e => Err e
              | Ok l =>
                  Ok (mkJsonNode n v (Some (get_min v d)) (Some (get_max v d))
                                 (Some (get_label n d)) :: l)
              end
          end
      end
  end.

(** The list comprehension over [self.edges()]. *)
Fixpoint edge_entries (g : DiGraph) (es : list (Z * Z))
  : result (list json_edge) :=
  match es with
  | [] => Ok []
  | (u, v) :: rest =>
      match nx.edge_value g u v with
      | None => Err KeyError
      | Some w =>
          match edge_entries g rest with
          | Err e => Err e
          | Ok l => Ok (mkJsonEdge u v w :: l)
          end
      end
  end.

Definition write_json (g : DiGraph) : result graph_dict :=
  match node_entries g (PyDict.keys (nodes g)) with
  | Err e => Err e
  | Ok ns =>
      match edge_entries g (nx.edges g) with
      | Err e => Err e
      | Ok es => Ok (mkGraphDict ns es)
      end
  end.

(** [read_json], from the loaded dictionary on: the graph starts empty,
    the nodes are added, then the edges. *)
Definition add_json_node (g : DiGraph) (node : json_node) : DiGraph :=
  nx.add_node g (json_id node)
    (mkNode (Some (json_value node))
            (Some (match json_label node with
                   | Some l => l
                   | None => [json_id node]
                   end))
            (Some (match json_min_value node with
                   | Some m => m
                   | None => json_value node
                   end))
            (Some (match json_max_value node with
                   | Some m => m
                   | None => json_value node
                   end))
            None).

Definition add_json_edge (g : DiGraph) (edge : json_edge) : DiGraph :=
  nx.add_edge g (json_source edge) (json_target edge) (json_weight edge).

Definition read_json (d : graph_dict) : DiGraph :=
  fold_left add_json_edge (json_edges d)
            (fold_left add_json_node (json_nodes d) nx.empty).

(** *** read_network and write_network *)

(** A file is the list of its lines and a line the list of the tokens that
    [line.split()] gives: the text of an integer, the text of a float, or
    a word that is no number (as in the header lines). *)
Inductive token : Type :=
| IntLit (z : Z)
| FloatLit (q : Q)
| Word.

(** The exceptions of the readers: those of the graph methods and
    [IndexError], raised by [parts[0]] and [parts[1]] on a short line. *)
Inductive io_exn : Type :=
| Exn (e : exn)
| IndexError.

Inductive outcome (A : Type) : Type :=
| Returned (a : A)
| Failed (e : io_exn).
Arguments Returned {A} a.
Arguments Failed {A} e.

(** [int(s)] and [float(s)] *)
Definition py_int (t : token) : outcome Z :=
  match t with
  | IntLit z => Returned z
  | _ => Failed (Exn ValueError)
  end.

Definition py_float (t : token) : outcome Q :=
  match t with
  | IntLit z => Returned (inject_Z z)
  | FloatLit q => Returned q
  | Word => Failed (Exn ValueError)
  end.

(** An index of a slice, brought into [0 .. len] by the rule of Python:
    a negative index counts from the end. *)
Definition slice_index (len i : Z) : nat :=
  Z.to_nat (if (i <? 0)%Z then Z.max 0 (i + len) else Z.min i len).

(** [l[start:stop]], and [l[start:]] when [stop] is [None]. *)
Definition py_slice {A : Type} (l : list A) (start : Z) (stop : option Z)
  : list A :=
  let len := Z.of_nat (length l) in
  let s := slice_index len start in
  let e := match stop with
           | Some j => slice_index len j
           | None => length l
           end in
  firstn (e - s) (skipn s l).

Fixpoint fold_outcome {A S : Type} (body : S -> A -> outcome S) (l : list A)
  (s : S) : outcome S :=
  match l with
  | [] => Returned s
  | x :: l' =>
      match body s x with
      | Failed e => Failed e
      | Returned s' => fold_outcome body l' s'
      end
  end.

(** [for neighbour, weight in zip(indices_neighbours, weights)], where the
    two arguments are lazy [map]s: a token is converted when [zip] asks for
    it, the neighbour first. *)
Fixpoint add_edges_zip (G : DiGraph) (idx_agent : Z)
  (indices_neighbours weights : list token) : outcome DiGraph :=
  match indices_neighbours with
  | [] => Returned G
  | nb :: nbs =>
      match py_int nb with
      | Failed e => Failed e
      | Returned neighbour =>
          match weights with
          | [] => Returned G
          | w :: ws =>
              match py_float w with
              | Failed e => Failed e
              | Returned weight =>
                  add_edges_zip (nx.add_edge G neighbour idx_agent weight)
                                idx_agent nbs ws
              end
          end
      end
  end.

(** Body of the loop over the lines of the network file. *)
Definition read_network_line (G : DiGraph) (parts : list token)
  : outcome DiGraph :=
  match nth_error parts 0 with
  | None => Failed IndexError
  | Some p0 =>
      match py_int p0 with
      | Failed e => Failed e
      | Returned idx_agent =>
          match nth_error parts 1 with
          | None => Failed IndexError
          | Some p1 =>
              match py_int p1 with
              | Failed e => Failed e
              | Returned n_neighbours =>
                  let indices_neighbours :=
                    py_slice parts 2 (Some (2 + n_neighbours)%Z) in
                  let weights := py_slice parts (2 + n_neighbours)%Z None in
                  let G1 := nx.add_node G idx_agent
                              (mkNode (Some 0%Q) None None None None) in
                  add_edges_zip G1 idx_agent indices_neighbours weights
              end
          end
      end
  end.

(** Body of the loop over the lines of the opinion file. *)
Definition read_opinion_line (G : DiGraph) (parts : list token)
  : outcome DiGraph :=
  match nth_error parts 0 with
  | None => Failed IndexError
  | Some p0 =>
      match py_int p0 with
      | Failed e => Failed e
      | Returned idx_agent =>
          match nth_error parts 1 with
          | None => Failed IndexError
          | Some p1 =>
              match py_float p1 with
              | Failed e => Failed e
              | Returned opinion =>
                  match set_value G idx_agent opinion with
                  | Done G' => Returned G'
                  | Raised e _ => Failed (Exn e)
                  end
              end
          end
      end
  end.

(** [read_network], from the lines of the two files on.  [next(f)] skips
    the header line and raises [StopIteration] on a file without lines. *)
Definition read_network (network_file opinion_file : list (list token))
  : outcome DiGraph :=
  match network_file with
  | [] => Failed (Exn StopIteration)
  | _ :: lines =>
      match fold_outcome read_network_line lines nx.empty with
      | Failed e => Failed e
      | Returned G1 =>
          match opinion_file with
          | [] => Failed (Exn StopIteration)
          | _ :: opinion_lines =>
              match fold_outcome read_opinion_line opinion_lines G1 with
              | Failed e => Failed e
              | Returned G2 =>
                  let G3 := generate_labels G2 in
                  match generate_min_max_values G3 with
                  | Raised e _ => Failed (Exn e)
                  | Done G4 =>
                      match remove_self_loops G4 with
                      | Raised e _ => Failed (Exn e)
                      | Done G5 => Returned G5
                      end
                  end
              end
          end
      end
  end.

(** [[self[neighbor][node]['value'] for neighbor in neighbors]] *)
Fixpoint edge_weights (g : DiGraph) (node : Z) (neighbors : list Z)
  : result (list Q) :=
  match neighbors with
  | [] => Ok []
  | neighbor :: rest =>
      match nx.edge_value g neighbor node with
      | None => Err KeyError
      | Some w =>
          match edge_weights g node rest with
          | Err e => Err e
          | Ok ws => Ok (w :: ws)
          end
      end
  end.

(** The line that [write_network] writes for a node, as [split] reads it
    back: the id, the number of neighbours, the neighbours, the weights. *)
Definition network_line (g : DiGraph) (node : Z) : result (list token) :=
  match nx.predecessors g node with
  | Err e => Err e
  | Ok neighbors =>
      match edge_weights g node neighbors with
      | Err e => Err e
      | Ok weights =>
          Ok (IntLit node :: IntLit (Z.of_nat (length neighbors))
              :: map IntLit neighbors ++ map FloatLit weights)
      end
  end.

Fixpoint network_lines (g : DiGraph) (ns : list Z)
  : result (list (list token)) :=
  match ns with
  | [] => Ok []
  | node :: rest =>
      match network_line g node with
      | Err e => Err e
      | Ok line =>
          match network_lines g rest with
          | Err e => Err e
          | Ok lines => Ok (line :: lines)
          end
      end
  end.

Fixpoint opinion_lines (ns : list (Z * NodeData))
  : result (list (list token)) :=
  match ns with
  | [] => Ok []
  | (node, data) :: rest =>
      match value data with
      | None => Err KeyError
      | Some v =>
          match opinion_lines rest with
          | Err e => Err e
          | Ok lines => Ok ([IntLit node; FloatLit v] :: lines)
          end
      end
  end.

(** [write_network]: the lines of the network file and of the opinion
    file, each after its header line.  (When the second loop raises, the
    network file is already written; the model gives the exception
    only.) *)
Definition write_network (g : DiGraph)
  : result (list (list token) * list (list token)) :=
  match network_lines g (PyDict.keys (nodes g)) with
  | Err e => Err e
  | Ok lines =>
      match opinion_lines (nodes g) with
      | Err e => Err e
      | Ok opinions =>
          Ok ([Word; Word; Word; Word; Word] :: lines,
              [Word; Word; Word] :: opinions)
      end
  end.

(** *** find_clusters *)

(** A loop over a list whose body may raise and which changes no graph. *)
Fixpoint fold_result {A S : Type} (body : S -> A -> result S) (l : list A)
  (s : S) : result S :=
  match l with
  | [] => Ok s
  | x :: l' =>
      match body s x with
      | Err e => Err e
      | Ok s' => fold_result body l' s'
      end
  end.

(** The variables of the search: the set [visited_nodes] (only membership
    is asked), the list [cluster] and the list [queue]. *)
Record search : Type := mkSearch {
  visited_nodes : list Z;
  cluster : list Z;
  queue : list Z
}.

Section FindClusters.

Variable set_iter : list Z -> list Z.
Variables max_opinion_difference min_influence : Q.

(** [set(self.successors(node)).union(self.predecessors(node))], in the
    order in which the loop iterates it. *)
Definition neighbors (g : DiGraph) (node : Z) : result (list Z) :=
  match nx.successors g node with
  | Err e => Err e
  | Ok succs =>
      match nx.predecessors g node with
      | Err e => Err e
      | Ok preds => Ok (set_iter (succs ++ preds))
      end
  end.

(** Body of the loop over the neighbours of [node]. *)
Definition visit_neighbor (g : DiGraph) (node : Z) (s : search) (neighbor : Z)
  : result search :=
  if existsb (Z.eqb neighbor) (visited_nodes s) then Ok s
  else
    match nx.node g node with
    | None => Err KeyError
    | Some dn =>
        match value dn with
        | None => Err KeyError
        | Some vi =>
            match nx.node g neighbor with
            | None => Err KeyError
            | Some dj =>
                match value dj with
                | None => Err KeyError
                | Some vj =>
                    let size_i := Qnat (length (get_label node dn)) in
                    let influence_ij :=
                      match nx.edge_value g node neighbor with
                      | Some w => w
                      | None => 0%Q
                      end in
                    let influence_ji :=
                      match nx.edge_value g neighbor node with
                      | Some w => w
                      | None => 0%Q
                      end in
                    if Qle_bool (Qabs (vi - vj)) max_opinion_difference
                       && (Qle_bool (min_influence * size_i) influence_ij
                           || Qle_bool (min_influence * size_i) influence_ji)
                    then Ok (mkSearch (visited_nodes s ++ [neighbor])
                                      (cluster s ++ [neighbor])
                                      (queue s ++ [neighbor]))
                    else Ok s
                end
            end
        end
    end.

(** The [while queue] loop.  It has no bound in the code; [fuel] bounds the
    number of nodes taken from the queue, and [None] is the answer when
    the bound is reached before the queue is empty. *)
Fixpoint search_from (fuel : nat) (g : DiGraph) (s : search)
  : option (result search) :=
  match queue s with
  | [] => Some (Ok s)
  | node :: rest =>
      match fuel with
      | O => None
      | S fuel' =>
          match neighbors g node with
          | Err e => Some (Err e)
          | Ok ns =>
              match fold_result (visit_neighbor g node) ns
                                (mkSearch (visited_nodes s) (cluster s) rest)
              with
              | Err e => Some (Err e)
              | Ok s' => search_from fuel' g s'
              end
          end
      end
  end.

(** The loop over the nodes. *)
Fixpoint find_from (fuel : nat) (g : DiGraph) (ns : list Z)
  (clusters : list (list Z)) (visited : list Z)
  : option (result (list (list Z))) :=
  match ns with
  | [] => Some (Ok clusters)
  | i :: rest =>
      if existsb (Z.eqb i) visited then find_from fuel g rest clusters visited
      else
        match search_from fuel g (mkSearch (visited ++ [i]) [i] [i]) with
        | None => None
        | Some (Err e) => Some (Err e)
        | Some (Ok s) =>
            find_from fuel g rest (clusters ++ [cluster s]) (visited_nodes s)
        end
  end.

(** Every search takes each node from the queue at most once, so the
    number of nodes bounds it. *)
Definition find_clusters (g : DiGraph) : option (result (list (list Z))) :=
  find_from (nx.number_of_nodes g) g (PyDict.keys (nodes g)) [] [].

End FindClusters.

(** ** Specification vocabulary *)

(** The invariant networkx keeps: no key occurs twice in either dictionary
    and the ends of every edge are nodes. *)
Record wf (g : DiGraph) : Prop := mkWf {
  wf_nodes : NoDup (PyDict.keys (nodes g));
  wf_adj : NoDup (PyDict.keys (adj g));
  wf_ends : forall u v w, In ((u, v), w) (adj g) ->
            In u (PyDict.keys (nodes g)) /\ In v (PyDict.keys (nodes g))
}.

Fixpoint nodupb {A : Type} `{EqDec A} (l : list A) : bool :=
  match l with
  | [] => true
  | x :: l' => (if in_dec eq_dec x l' then false else true) && nodupb l'
  end.

Definition inb {A : Type} `{EqDec A} (x : A) (l : list A) : bool :=
  if in_dec eq_dec x l then true else false.

(** The invariant as a check that computes. *)
Definition wfb (g : DiGraph) : bool :=
  nodupb (PyDict.keys (nodes g))
  && nodupb (PyDict.keys (adj g))
  && forallb (fun e => inb (fst (fst e)) (PyDict.keys (nodes g))
                       && inb (snd (fst e)) (PyDict.keys (nodes g)))
             (adj g).

(** No edge from a node to itself. *)
Definition no_self_loops (g : DiGraph) : Prop :=
  forall u, nx.has_edge g u u = false.

(** Two results agree: the same exception, or values equal as rationals. *)
Definition result_eq (a b : result Q) : Prop :=
  match a, b with
  | Ok x, Ok y => (x == y)%Q
  | Err e, Err e' => e = e'
  | _, _ => False
  end.

(** [self.nodes[n]['value']], when the node and the attribute are there. *)
Definition node_value (g : DiGraph) (n : Z) : option Q :=
  match nx.node g n with Some d => value d | None => None end.

(** The sum, over the edges into [i], of weight times the value of the
    source, read in [g]. *)
Definition incoming_influence (g : DiGraph) (i : Z) : Q :=
  fold_right
    (fun e acc =>
       (snd e * match node_value g (fst (fst e)) with Some v => v | None => 0 end
        + acc)%Q)
    0%Q (nx.in_edges g i).

(** The attributes of a node after its value is overwritten. *)
Definition with_value (d : NodeData) (v : Q) : NodeData :=
  mkNode (Some v) (label d) (min_value d) (max_value d) (importance d).

(** What the specification says of the node that replaces [i] and [j]: the
    average of the two values weighted by the label sizes, the two labels
    one after the other, the least and the greatest of the bounds. *)
Definition merged_node (i j : Z) (di dj : NodeData) (vi vj : Q) : NodeData :=
  let li := get_label i di in
  let lj := get_label j dj in
  mkNode (Some ((vi * Qnat (length li) + vj * Qnat (length lj))
                / Qnat (length li + length lj))%Q)
         (Some (li ++ lj))
         (Some (Qmin (get_min vi di) (get_min vj dj)))
         (Some (Qmax (get_max vi di) (get_max vj dj)))
         None.

(** Does one half of the body of the reconnection loop act on the edge
    (its end [a] is merged), and does it move the weight (the other end [b]
    is not)? *)
Definition rehome_active (i j a : Z) : bool := (a =? i)%Z || (a =? j)%Z.
Definition rehome_moves (i j a b : Z) : bool :=
  rehome_active i j a && (negb (b =? i)%Z && negb (b =? j)%Z).

(** Weights that may be absent: equality as rationals, and the sum in
    which an absent edge counts for nothing. *)
Definition opt_eq (a b : option Q) : Prop :=
  match a, b with
  | Some x, Some y => (x == y)%Q
  | None, None => True
  | _, _ => False
  end.

Definition total (a b : option Q) : option Q :=
  match a, b with
  | Some x, Some y => Some (x + y)%Q
  | Some x, None => Some x
  | None, _ => b
  end.

(** The weight that the new node and the two merged nodes send to [y], and
    the weight they receive from [x]. *)
Definition out_total (i j new : Z) (g : DiGraph) (y : Z) : option Q :=
  total (total (nx.edge_value g new y) (nx.edge_value g i y))
        (nx.edge_value g j y).
Definition in_total (i j new : Z) (g : DiGraph) (x : Z) : option Q :=
  total (total (nx.edge_value g x new) (nx.edge_value g x i))
        (nx.edge_value g x j).

(** The invariant of the reconnection loop of [merge_nodes]: [g0] is the
    graph when the loop starts, [g] the graph now, [rest] the edges of the
    snapshot still to be visited. *)
Record reconnect_inv (i j new : Z) (g0 g : DiGraph) (rest : list (Z * Z))
  : Prop := mkReconnectInv {
  ri_nodes : nodes g = nodes g0;
  ri_wf : wf g;
  ri_nodup : NoDup rest;
  ri_rest : forall u v, In (u, v) rest ->
              u <> new /\ v <> new /\ nx.has_edge g u v = true;
  ri_pending : forall x y, nx.has_edge g x y = true ->
                 rehome_active i j x || rehome_active i j y = true ->
                 In (x, y) rest;
  ri_old : forall x y, x <> new -> y <> new -> nx.has_edge g x y = true ->
             nx.has_edge g0 x y = true;
  ri_kept : forall x y, x <> new -> y <> new ->
              rehome_active i j x = false -> rehome_active i j y = false ->
              nx.edge_value g x y = nx.edge_value g0 x y;
  ri_loop : nx.edge_value g new new = None;
  ri_out : i <> j -> forall y, y <> new -> rehome_active i j y = false ->
             opt_eq (out_total i j new g y) (out_total i j new g0 y);
  ri_in : i <> j -> forall x, x <> new -> rehome_active i j x = false ->
            opt_eq (in_total i j new g x) (in_total i j new g0 x)
}.

(** The nodes that a merge of [i] and [j] leaves in place. *)
Definition survives (i j : Z) (nd : Z * NodeData) : bool :=
  negb (fst nd =? i)%Z && negb (fst nd =? j)%Z.

(** Every self-loop of [g'] was a self-loop of [g] already. *)
Definition loops_from (g g' : DiGraph) : Prop :=
  forall u, nx.has_edge g' u u = true -> nx.has_edge g u u = true.

(** [data.get('label', [n])] for the node [n] of [g]. *)
Definition node_label (g : DiGraph) (n : Z) : list Z :=
  match nx.node g n with Some d => get_label n d | None => [] end.

(** The mapping that the list branch of [merge_clusters] builds when every
    assertion holds: the members of the cluster at position [k] go to
    [s + k]. *)
Fixpoint tagged (s : Z) (clusters : list (list Z)) : list (Z * Z) :=
  match clusters with
  | [] => []
  | c :: rest => map (fun x => (x, s)) c ++ tagged (s + 1) rest
  end.

Fixpoint fresh_ids (s : Z) (n : nat) : list Z :=
  match n with
  | O => []
  | S n' => s :: fresh_ids (s + 1) n'
  end.

(** A plan ([id_mapping], [clusters_list]) that merges nodes of [g] into
    nodes that are new: the old ids are nodes of [g], each in exactly one
    cluster; the members of a cluster go to one id, [news] lists these ids
    cluster by cluster, they differ from one another and none is a node
    of [g]. *)
Record plan_ok (g : DiGraph) (id_mapping : list (Z * Z))
  (clusters_list : list (list Z)) (news : list Z) : Prop := mkPlanOk {
  po_keys_nodup : NoDup (PyDict.keys id_mapping);
  po_keys_in : forall o, In o (PyDict.keys id_mapping) ->
                 nx.has_node g o = true;
  po_news : Forall2 (fun c n => forall x, In x c ->
                                  PyDict.get x id_mapping = Some n)
                    clusters_list news;
  po_news_nodup : NoDup news;
  po_news_fresh : forall n, In n news -> nx.has_node g n = false;
  po_perm : Permutation (concat clusters_list) (PyDict.keys id_mapping)
}.

(** The calls of which the label and bound properties are proved: a
    dictionary has to name new ids that are not in the graph and old ids
    that are. *)
Definition dict_fresh (g : DiGraph) (d : list (Z * list Z)) : Prop :=
  forall new_id old_ids, In (new_id, old_ids) d ->
    nx.has_node g new_id = false
    /\ forall o, In o old_ids -> nx.has_node g o = true.

Inductive merge_call_ok (g : DiGraph) : merge_op -> Prop :=
| ok_merge_nodes i j : merge_call_ok g (MergeNodes i j)
| ok_merge_list cs : merge_call_ok g (MergeClusters (ClustersList cs))
| ok_merge_dict d :
    dict_fresh g d -> merge_call_ok g (MergeClusters (ClustersDict d))
| ok_merge_intervals l : merge_call_ok g (MergeByIntervals l).

(** A sequence of merge calls, each of which returns. *)
Inductive merge_seq (set_iter : list Z -> list Z) : DiGraph -> DiGraph -> Prop :=
| seq_nil g : merge_seq set_iter g g
| seq_step g op g' g'' :
    merge_call_ok g op ->
    apply_op set_iter g op = Done g' ->
    merge_seq set_iter g' g'' ->
    merge_seq set_iter g g''.



(** The labels of all nodes, one after the other. *)
Definition all_labels (g : DiGraph) : list Z :=
  flat_map (fun nd => get_label (fst nd) (snd nd)) (nodes g).



Definition labels_nonempty (g : DiGraph) : Prop :=
  forall n d, In (n, d) (nodes g) -> get_label n d <> [].



(** The first pair of [pairs] that reaches the greatest score. *)
Definition first_best (sim : Z -> Z -> result Q) (pairs : list (Z * Z))
  (p : Z * Z) (s : Q) : Prop :=
  exists before after,
    pairs = before ++ p :: after
    /\ sim (fst p) (snd p) = Ok s
    /\ (forall q, In q before ->
          exists s', sim (fst q) (snd q) = Ok s' /\ (s' < s)%Q)
    /\ (forall q, In q after ->
          exists s', sim (fst q) (snd q) = Ok s' /\ (s' <= s)%Q).

(** A set order that keeps the first occurrence of every element; on the
    small sets of the examples below it is the order of CPython. *)
Fixpoint first_seen (l : list Z) : list Z :=
  match l with
  | [] => []
  | x :: l' => x :: filter (fun y => negb (y =? x)%Z) (first_seen l')
  end.

(** What a set order has to satisfy. *)
Definition set_order (set_iter : list Z -> list Z) : Prop :=
  forall l, NoDup (set_iter l) /\ forall x, In x (set_iter l) <-> In x l.

(** ** Graphs of the examples *)

(** An original node, as [generate_labels] and [generate_min_max_values]
    leave it: the label is the id, both bounds are the value. *)
Definition node_at (n : Z) (v : Q) : NodeData :=
  mkNode (Some v) (Some [n]) (Some v) (Some v) None.

(** Nodes 0 (value 0.2) and 1 (value 0.8), edge 0 -> 1 of weight 0.5. *)
Definition two_nodes : DiGraph :=
  mkGraph [(0%Z, node_at 0 (2 # 10)); (1%Z, node_at 1 (8 # 10))]
          [((0%Z, 1%Z), 5 # 10)].

(** The same two nodes with no edge. *)
Definition isolated_pair : DiGraph :=
  mkGraph [(0%Z, node_at 0 (2 # 10)); (1%Z, node_at 1 (8 # 10))] [].

(** Node 0 (value 0.5) with one edge of weight 0.3 from node 1
    (value 1). *)
Definition influence_pair : DiGraph :=
  mkGraph [(0%Z, node_at 0 (1 # 2)); (1%Z, node_at 1 1)]
          [((1%Z, 0%Z), 3 # 10)].

(** Nodes 0 and 1 both linked to and from node 2: 0 -> 2 (weight 1),
    1 -> 2 (weight 2), 2 -> 0 (weight 3), 2 -> 1 (weight 4). *)
Definition fan : DiGraph :=
  mkGraph [(0%Z, node_at 0 (2 # 10)); (1%Z, node_at 1 (8 # 10));
           (2%Z, node_at 2 (1 # 2))]
          [((0%Z, 2%Z), 1); ((1%Z, 2%Z), 2); ((2%Z, 0%Z), 3); ((2%Z, 1%Z), 4)].

(** Nodes 0, 1 and 2, edge 0 -> 1 and a self-loop at node 2. *)
Definition loop_aside : DiGraph :=
  mkGraph [(0%Z, node_at 0 (2 # 10)); (1%Z, node_at 1 (8 # 10));
           (2%Z, node_at 2 (1 # 2))]
          [((0%Z, 1%Z), 1); ((2%Z, 2%Z), 1)].


(** Has the call returned? *)
Definition returned (r : run) : bool :=
  match r with Done _ => true | Raised _ _ => false end.

(** ** Vocabulary of the further properties *)

(** An edge from a node to itself. *)
Definition self_loop (e : (Z * Z) * Q) : bool :=
  (fst (fst e) =? snd (fst e))%Z.

(** A node as [generate_labels] leaves it when it writes the labels. *)
Definition relabelled (nd : Z * NodeData) : Z * NodeData :=
  (fst nd, mkNode (value (snd nd)) (Some [fst nd]) (min_value (snd nd))
                  (max_value (snd nd)) (importance (snd nd))).

(** A node as [generate_min_max_values] leaves it: without a label both
    bounds become the value, with a label nothing changes. *)
Definition bounded_by_value (nd : Z * NodeData) : Z * NodeData :=
  match label (snd nd), value (snd nd) with
  | None, Some v =>
      (fst nd, mkNode (Some v) None (Some v) (Some v) (importance (snd nd)))
  | _, _ => nd
  end.

(** A node as it is after [write_json] and [read_json]: the defaults of
    the label and of the bounds are written out, the importance is gone. *)
Definition saved_node (nd : Z * NodeData) : Z * NodeData :=
  match value (snd nd) with
  | Some v =>
      (fst nd, mkNode (Some v) (Some (get_label (fst nd) (snd nd)))
                      (Some (get_min v (snd nd))) (Some (get_max v (snd nd)))
                      None)
  | None => nd
  end.

(** The entries that [write_json] writes for a node that carries a value
    and for an edge. *)
Definition json_of_node (nd : Z * NodeData) : json_node :=
  let v := match value (snd nd) with Some v => v | None => 0%Q end in
  mkJsonNode (fst nd) v (Some (get_min v (snd nd))) (Some (get_max v (snd nd)))
             (Some (get_label (fst nd) (snd nd))).

Definition json_of_edge (e : (Z * Z) * Q) : json_edge :=
  mkJsonEdge (fst (fst e)) (snd (fst e)) (snd e).

(** The edges with their weights in the order of [self.edges()]. *)
Definition edge_items (g : DiGraph) : list ((Z * Z) * Q) :=
  flat_map (nx.out_edges g) (PyDict.keys (nodes g)).




(** [data.get('value', 0)], and the nodes that [merge_by_intervals] puts
    into a cluster: those whose value lies in [[0, 1)]. *)
Definition value_or_zero (d : NodeData) : Q :=
  match value d with Some v => v | None => 0%Q end.

Definition in_unit_interval (nd : Z * NodeData) : bool :=
  Qle_bool 0 (value_or_zero (snd nd)) && Qltb (value_or_zero (snd nd)) 1.

(** A list of rationals in ascending order. *)
Fixpoint ascending (l : list Q) : Prop :=
  match l with
  | [] => True
  | x :: l' => (forall y, In y l' -> (x <= y)%Q) /\ ascending l'
  end.

(** The search [s'] is the search [s] after the nodes [new] were visited:
    they were added to the set, to the cluster and to the queue. *)
Definition grows (s : search) (new : list Z) (s' : search) : Prop :=
  visited_nodes s' = visited_nodes s ++ new
  /\ cluster s' = cluster s ++ new
  /\ queue s' = queue s ++ new.

(** A node that has at most a value: no label, no bounds, no importance. *)
Definition plain (d : NodeData) : Prop :=
  label d = None /\ min_value d = None /\ max_value d = None
  /\ importance d = None.

Definition all_plain (g : DiGraph) : Prop :=
  forall n d, In (n, d) (nodes g) -> plain d.

(** The edges into [n] as [write_network] lists them, source and weight,
    and what [read_network] does with the line of [n]: the node is added
    with the value 0, then one edge per neighbour. *)
Definition in_items (g : DiGraph) (n : Z) : list (Z * Q) :=
  map (fun e => (fst (fst e), snd e)) (nx.in_edges g n).

Definition read_row (g : DiGraph) (G : DiGraph) (n : Z) : DiGraph :=
  fold_left (fun G pw => nx.add_edge G (fst pw) n (snd pw)) (in_items g n)
            (nx.add_node G n (mkNode (Some 0%Q) None None None None)).

(** The files of a graph with nodes 0 and 1, edges 0 -> 1 and 1 -> 1. *)
Definition pair_network_file : list (list token) :=
  [[Word; Word; Word; Word; Word];
   [IntLit 0; IntLit 0];
   [IntLit 1; IntLit 2; IntLit 0; IntLit 1; FloatLit (5 # 10); FloatLit 1]].

Definition pair_opinion_file : list (list token) :=
  [[Word; Word; Word];
   [IntLit 0; FloatLit (2 # 10)];
   [IntLit 1; FloatLit (8 # 10)]].

(** The test of [find_clusters] for taking [neighbor] into the cluster of
    [node]: the two are joined by an edge, their values differ by at most
    [max_opinion_difference] and the influence one way or the other is at
    least [min_influence] times the size of [node]. *)
Definition admits (max_opinion_difference min_influence : Q) (g : DiGraph)
  (node neighbor : Z) : Prop :=
  exists dn vi dj vj,
    nx.node g node = Some dn /\ value dn = Some vi
    /\ nx.node g neighbor = Some dj /\ value dj = Some vj
    /\ nx.has_edge g node neighbor || nx.has_edge g neighbor node = true
    /\ (Qabs (vi - vj) <= max_opinion_difference)%Q
    /\ ((min_influence * Qnat (length (get_label node dn))
         <= match nx.edge_value g node neighbor with
            | Some w => w
            | None => 0
            end)%Q
        \/ (min_influence * Qnat (length (get_label node dn))
            <= match nx.edge_value g neighbor node with
               | Some w => w
               | None => 0
               end)%Q).

(** Every element of [new] is related to an element of [old] or to an
    element of [new] before it. *)
Definition chained (R : Z -> Z -> Prop) (old new : list Z) : Prop :=
  forall pre x post, new = pre ++ x :: post ->
    exists y, In y (old ++ pre) /\ R y x.

(** Every node carries a value between 0 and 1, and no weight is
    negative. *)
Definition opinions_in_unit (g : DiGraph) : Prop :=
  forall n d, In (n, d) (nodes g) ->
    exists v, value d = Some v /\ (0 <= v)%Q /\ (v <= 1)%Q.

Definition weights_nonneg (g : DiGraph) : Prop :=
  forall e, In e (adj g) -> (0 <= snd e)%Q.

(** Every node carries a value. *)
Definition all_valued (g : DiGraph) : Prop :=
  forall n d, In (n, d) (nodes g) -> value d <> None.

(** Node 0 with a value and node 1 with no attribute at all, as
    [add_edge] creates it; edge 0 -> 1. *)
Definition valueless_second : DiGraph :=
  mkGraph [(0%Z, mkNode (Some (2 # 10)) None None None None); (1%Z, no_attrs)]
          [((0%Z, 1%Z), 5 # 10)].

(** Two nodes with a value and nothing else, edge 0 -> 1 of weight 0.5 and
    a self-loop at node 1. *)
Definition bare_pair : DiGraph :=
  mkGraph [(0%Z, mkNode (Some (2 # 10)) None None None None);
           (1%Z, mkNode (Some (8 # 10)) None None None None)]
          [((0%Z, 1%Z), 5 # 10); ((1%Z, 1%Z), 1)].

Unset Implicit Arguments.

(** ** Python dictionaries: lemmas *)

Module PyDictFacts.
Section Facts.
Context {K V : Type} `{EqDec K}.
Implicit Types (d : list (K * V)) (k : K) (v : V).

Lemma get_set_eq k v d : PyDict.get k (PyDict.set k v d) = Some v.
Proof.
  induction d as [|[k' v'] d IH]; simpl.
  - destruct (eq_dec k k); congruence.
  - destruct (eq_dec k k') as [->|Hne]; simpl.
    + destruct (eq_dec k' k'); congruence.
    + destruct (eq_dec k k'); congruence.
Qed.

Lemma get_set_ne k k' v d :
  k <> k' -> PyDict.get k' (PyDict.set k v d) = PyDict.get k' d.
Proof.
  intros Hne. induction d as [|[k0 v0] d IH]; simpl.
  - destruct (eq_dec k' k); congruence.
  - destruct (eq_dec k k0) as [->|Hk]; simpl.
    + destruct (eq_dec k' k0); congruence.
    + destruct (eq_dec k' k0); congruence.
Qed.

Lemma get_None_iff k d : PyDict.get k d = None <-> ~ In k (PyDict.keys d).
Proof.
  induction d as [|[k' v'] d IH]; simpl.
  - tauto.
  - destruct (eq_dec k k') as [->|Hne].
    + split; [discriminate | tauto].
    + rewrite IH. split; [intros Hn [E|Hin]; congruence | tauto].
Qed.

Lemma get_Some_In k v d : PyDict.get k d = Some v -> In (k, v) d.
Proof.
  induction d as [|[k' v'] d IH]; simpl; [discriminate|].
  destruct (eq_dec k k') as [->|Hne].
  - intros [= ->]; auto.
  - auto.
Qed.

Lemma get_Some_key k v d : PyDict.get k d = Some v -> In k (PyDict.keys d).
Proof.
  intros Hg. apply get_Some_In in Hg.
  apply (in_map fst) in Hg. exact Hg.
Qed.

Lemma In_get k v d :
  NoDup (PyDict.keys d) -> In (k, v) d -> PyDict.get k d = Some v.
Proof.
  induction d as [|[k' v'] d IH]; simpl; [tauto|].
  intros Hnd [E|Hin].
  - inversion E; subst. destruct (eq_dec k k); congruence.
  - inversion Hnd; subst. destruct (eq_dec k k') as [->|Hne].
    + exfalso. apply H2. apply (in_map fst) in Hin. exact Hin.
    + auto.
Qed.

Lemma mem_true_iff k d : PyDict.mem k d = true <-> In k (PyDict.keys d).
Proof.
  unfold PyDict.mem. destruct (PyDict.get k d) eqn:Hg.
  - split; [intros _; eapply get_Some_key; eauto | reflexivity].
  - apply get_None_iff in Hg. split; [discriminate | tauto].
Qed.

Lemma mem_false_iff k d : PyDict.mem k d = false <-> ~ In k (PyDict.keys d).
Proof.
  rewrite <- mem_true_iff. destruct (PyDict.mem k d); split; congruence.
Qed.

Lemma mem_get k d :
  PyDict.mem k d = true -> exists v, PyDict.get k d = Some v.
Proof.
  unfold PyDict.mem. destruct (PyDict.get k d); [eauto | discriminate].
Qed.

Lemma set_present k v d :
  In k (PyDict.keys d) -> PyDict.keys (PyDict.set k v d) = PyDict.keys d.
Proof.
  induction d as [|[k' v'] d IH]; simpl; [tauto|].
  intros Hin. destruct (eq_dec k k') as [->|Hne]; simpl; [reflexivity|].
  f_equal. apply IH. destruct Hin; congruence.
Qed.

Lemma set_absent k v d :
  ~ In k (PyDict.keys d) -> PyDict.set k v d = d ++ [(k, v)].
Proof.
  induction d as [|[k' v'] d IH]; simpl; [reflexivity|].
  intros Hn. destruct (eq_dec k k') as [->|Hne]; [tauto|].
  f_equal. apply IH. tauto.
Qed.

Lemma In_keys_set k k' v d :
  In k' (PyDict.keys (PyDict.set k v d)) <-> k' = k \/ In k' (PyDict.keys d).
Proof.
  destruct (in_dec eq_dec k (PyDict.keys d)) as [Hin|Hn].
  - rewrite set_present by assumption. split; [tauto|].
    intros [->|]; assumption.
  - rewrite set_absent by assumption. unfold PyDict.keys.
    rewrite map_app, in_app_iff. simpl. intuition congruence.
Qed.

Lemma NoDup_keys_set k v d :
  NoDup (PyDict.keys d) -> NoDup (PyDict.keys (PyDict.set k v d)).
Proof.
  intros Hnd. destruct (in_dec eq_dec k (PyDict.keys d)) as [Hin|Hn].
  - rewrite set_present; assumption.
  - rewrite set_absent by assumption. unfold PyDict.keys in *.
    rewrite map_app. simpl. apply NoDup_app.
    + assumption.
    + repeat constructor; simpl; tauto.
    + intros x Hx [<-|[]]. contradiction.
Qed.

Lemma In_set k k' v v' d :
  In (k', v') (PyDict.set k v d) -> (k' = k /\ v' = v) \/ In (k', v') d.
Proof.
  induction d as [|[k0 v0] d IH]; simpl.
  - intros [E|[]]; inversion E; auto.
  - destruct (eq_dec k k0) as [->|Hne]; simpl.
    + intros [E|Hin]; [inversion E; auto | auto].
    + intros [E|Hin]; [auto | destruct (IH Hin); auto].
Qed.

Lemma In_del k d (kv : K * V) :
  In kv (PyDict.del k d) <-> fst kv <> k /\ In kv d.
Proof.
  unfold PyDict.del. rewrite filter_In.
  destruct (eq_dec k (fst kv)); intuition congruence.
Qed.

Lemma In_keys_filter (f : K * V -> bool) k d :
  In k (PyDict.keys (filter f d)) -> In k (PyDict.keys d).
Proof.
  unfold PyDict.keys. rewrite !in_map_iff.
  intros [x [Hx Hin]]. apply filter_In in Hin. exists x; tauto.
Qed.

Lemma NoDup_keys_filter (f : K * V -> bool) d :
  NoDup (PyDict.keys d) -> NoDup (PyDict.keys (filter f d)).
Proof.
  induction d as [|[k v] d IH]; simpl; [auto|].
  intros Hnd. inversion Hnd; subst.
  destruct (f (k, v)); simpl; [|auto].
  constructor; [|auto]. intros Hin. apply H2.
  eapply In_keys_filter; eauto.
Qed.

Lemma In_keys_del k k' d :
  In k' (PyDict.keys (PyDict.del k d)) <-> k' <> k /\ In k' (PyDict.keys d).
Proof.
  unfold PyDict.keys. rewrite !in_map_iff. split.
  - intros [x [Hx Hin]]. apply In_del in Hin. subst.
    split; [tauto | exists x; tauto].
  - intros [Hne [x [Hx Hin]]]. exists x. split; [assumption|].
    apply In_del. subst. tauto.
Qed.

Lemma get_filter_keep (f : K * V -> bool) k d :
  (forall v, f (k, v) = true) ->
  PyDict.get k (filter f d) = PyDict.get k d.
Proof.
  intros Hf. induction d as [|[k' v'] d IH]; simpl; [reflexivity|].
  destruct (f (k', v')) eqn:Hfk; simpl.
  - destruct (eq_dec k k'); auto.
  - destruct (eq_dec k k') as [->|]; [rewrite Hf in Hfk; discriminate | auto].
Qed.

Lemma get_filter_drop (f : K * V -> bool) k d :
  (forall v, f (k, v) = false) -> PyDict.get k (filter f d) = None.
Proof.
  intros Hf. apply get_None_iff. unfold PyDict.keys.
  rewrite in_map_iff. intros [[k' v'] [Hk Hin]]. simpl in Hk. subst.
  apply filter_In in Hin. rewrite Hf in Hin. destruct Hin; discriminate.
Qed.

Lemma get_del_eq k d : PyDict.get k (PyDict.del k d) = None.
Proof.
  apply get_filter_drop. intros v. simpl.
  destruct (eq_dec k k); congruence.
Qed.

Lemma get_del_ne k k' d :
  k <> k' -> PyDict.get k' (PyDict.del k d) = PyDict.get k' d.
Proof.
  intros Hne. apply get_filter_keep. intros v. simpl.
  destruct (eq_dec k k'); congruence.
Qed.

End Facts.
End PyDictFacts.
Import PyDictFacts.

(** ** Loops *)

Section Loops.
Context {A : Type}.
Variable body : DiGraph -> A -> run.

(** A property of the state that every step keeps, whether it returns or
    raises, holds when the loop is over. *)
Lemma fold_run_final (P : DiGraph -> Prop) (l : list A) :
  (forall g x, In x l -> P g -> P (final_state (body g x))) ->
  forall g, P g -> P (final_state (fold_run body l g)).
Proof.
  induction l as [|x l IH]; simpl; intros Hstep g Hg; [exact Hg|].
  pose proof (Hstep g x (or_introl eq_refl) Hg) as Hx.
  destruct (body g x) as [g'|e g']; simpl in *; [|exact Hx].
  apply IH; auto.
Qed.

(** Total correctness: an invariant on the state and the items still to
    come, which every step re-establishes by returning. *)
Lemma fold_run_total (P : DiGraph -> list A -> Prop) :
  (forall g x l, P g (x :: l) -> exists g', body g x = Done g' /\ P g' l) ->
  forall l g, P g l -> exists g', fold_run body l g = Done g' /\ P g' [].
Proof.
  intros Hstep l. induction l as [|x l IH]; simpl; intros g Hg.
  - eauto.
  - destruct (Hstep g x l Hg) as [g' [Hb Hg']]. rewrite Hb. simpl.
    apply IH. exact Hg'.
Qed.

Lemma fold_run_done (P : DiGraph -> Prop) (l : list A) :
  (forall g x g', In x l -> P g -> body g x = Done g' -> P g') ->
  forall g g', P g -> fold_run body l g = Done g' -> P g'.
Proof.
  induction l as [|x l IH]; simpl; intros Hstep g g' Hg Hrun.
  - inversion Hrun; subst; exact Hg.
  - destruct (body g x) as [g1|e g1] eqn:Hb; simpl in Hrun; [|discriminate].
    apply (IH (fun g0 y g0' Hy => Hstep g0 y g0' (or_intror Hy)) g1 g');
      [|exact Hrun].
    apply (Hstep g x g1); auto.
Qed.
End Loops.

(** ** The digraph: lemmas *)

Lemma nodupb_sound {A : Type} `{EqDec A} (l : list A) :
  nodupb l = true -> NoDup l.
Proof.
  induction l as [|x l IH]; simpl; intros Hb; [constructor|].
  apply andb_true_iff in Hb. destruct Hb as [Hx Hl].
  destruct (in_dec eq_dec x l); [discriminate|].
  constructor; auto.
Qed.

Lemma inb_sound {A : Type} `{EqDec A} (x : A) (l : list A) :
  inb x l = true -> In x l.
Proof. unfold inb. destruct (in_dec eq_dec x l); [auto | discriminate]. Qed.

Lemma wfb_sound g : wfb g = true -> wf g.
Proof.
  unfold wfb. intros Hb.
  apply andb_true_iff in Hb. destruct Hb as [Hb He].
  apply andb_true_iff in Hb. destruct Hb as [Hn Ha].
  constructor.
  - apply nodupb_sound; assumption.
  - apply nodupb_sound; assumption.
  - intros u v w Hin. rewrite forallb_forall in He.
    specialize (He _ Hin). simpl in He.
    apply andb_true_iff in He. destruct He as [Hu Hv].
    split; apply inb_sound; assumption.
Qed.

Lemma has_node_In g n : nx.has_node g n = true <-> In n (PyDict.keys (nodes g)).
Proof. apply mem_true_iff. Qed.

Lemma has_node_false g n :
  nx.has_node g n = false <-> ~ In n (PyDict.keys (nodes g)).
Proof. apply mem_false_iff. Qed.

Lemma has_node_node g n :
  nx.has_node g n = true <-> exists d, nx.node g n = Some d.
Proof.
  unfold nx.has_node, nx.node, PyDict.mem.
  destruct (PyDict.get n (nodes g)); split; eauto; try discriminate.
  intros [d Hd]; discriminate.
Qed.

Lemma has_edge_value g u v :
  nx.has_edge g u v = true <-> exists w, nx.edge_value g u v = Some w.
Proof.
  unfold nx.has_edge, nx.edge_value, PyDict.mem.
  destruct (PyDict.get (u, v) (adj g)); split; eauto; try discriminate.
  intros [d Hd]; discriminate.
Qed.

Lemma node_In g n d : nx.node g n = Some d -> In (n, d) (nodes g).
Proof. apply get_Some_In. Qed.

Lemma In_node g n d : wf g -> In (n, d) (nodes g) -> nx.node g n = Some d.
Proof. intros Hwf. apply In_get. apply Hwf. Qed.

Lemma In_touch n m ns :
  In n (PyDict.keys (nx.touch m ns)) <-> n = m \/ In n (PyDict.keys ns).
Proof.
  unfold nx.touch. destruct (PyDict.mem m ns) eqn:Hm.
  - apply mem_true_iff in Hm. split; [tauto | intros [->|]; auto].
  - unfold PyDict.keys. rewrite map_app, in_app_iff. simpl. intuition.
Qed.

Lemma touch_present m ns :
  In m (PyDict.keys ns) -> nx.touch m ns = ns.
Proof.
  intros Hin. unfold nx.touch.
  apply mem_true_iff in Hin. rewrite Hin. reflexivity.
Qed.

Lemma NoDup_touch m ns :
  NoDup (PyDict.keys ns) -> NoDup (PyDict.keys (nx.touch m ns)).
Proof.
  intros Hnd. unfold nx.touch. destruct (PyDict.mem m ns) eqn:Hm; [assumption|].
  apply mem_false_iff in Hm. unfold PyDict.keys in *.
  rewrite map_app. simpl. apply NoDup_app.
  - assumption.
  - repeat constructor; simpl; tauto.
  - intros x Hx [<-|[]]. contradiction.
Qed.

Lemma In_touch_old m ns (nd : Z * NodeData) :
  In nd ns -> In nd (nx.touch m ns).
Proof.
  unfold nx.touch. destruct (PyDict.mem m ns); [auto|].
  intros Hin. apply in_or_app. auto.
Qed.

Lemma In_touch_inv m ns (nd : Z * NodeData) :
  In nd (nx.touch m ns) -> In nd ns \/ nd = (m, no_attrs).
Proof.
  unfold nx.touch. destruct (PyDict.mem m ns); [auto|].
  rewrite in_app_iff. simpl. intuition.
Qed.

(** Every primitive keeps the invariant. *)

Lemma wf_add_node g n attrs : wf g -> wf (nx.add_node g n attrs).
Proof.
  intros [Hn Ha He]. constructor; simpl.
  - apply NoDup_keys_set; assumption.
  - assumption.
  - intros u v w Hin. destruct (He u v w Hin).
    split; apply In_keys_set; auto.
Qed.

Lemma wf_add_edge g u v w : wf g -> wf (nx.add_edge g u v w).
Proof.
  intros [Hn Ha He]. constructor; simpl.
  - apply NoDup_touch, NoDup_touch; assumption.
  - apply NoDup_keys_set; assumption.
  - intros a b x Hin.
    apply In_set in Hin. destruct Hin as [[E ->]|Hin].
    + inversion E; subst. rewrite !In_touch. tauto.
    + destruct (He a b x Hin). rewrite !In_touch. tauto.
Qed.

Lemma wf_set_edge g u v w :
  wf g -> In u (PyDict.keys (nodes g)) -> In v (PyDict.keys (nodes g)) ->
  wf (mkGraph (nodes g) (PyDict.set (u, v) w (adj g))).
Proof.
  intros [Hn Ha He] Hu Hv. constructor; simpl.
  - assumption.
  - apply NoDup_keys_set; assumption.
  - intros a b x Hin. apply In_set in Hin. destruct Hin as [[E ->]|Hin].
    + inversion E; subst. tauto.
    + eauto.
Qed.

Lemma wf_remove_edge g u v : wf g -> wf (final_state (nx.remove_edge g u v)).
Proof.
  intros Hwf. unfold nx.remove_edge. destruct (nx.has_edge g u v); simpl; [|assumption].
  destruct Hwf as [Hn Ha He]. constructor; simpl.
  - assumption.
  - apply NoDup_keys_filter; assumption.
  - intros a b x Hin. apply In_del in Hin. destruct Hin. eauto.
Qed.

Lemma wf_remove_node g n : wf g -> wf (final_state (nx.remove_node g n)).
Proof.
  intros Hwf. unfold nx.remove_node. destruct (nx.has_node g n); simpl; [|assumption].
  destruct Hwf as [Hn Ha He]. constructor; simpl.
  - apply NoDup_keys_filter; assumption.
  - apply NoDup_keys_filter; assumption.
  - intros a b x Hin. apply filter_In in Hin. destruct Hin as [Hin Hinc].
    unfold nx.incident in Hinc. simpl in Hinc.
    apply negb_true_iff, orb_false_iff in Hinc. destruct Hinc as [Ha' Hb'].
    apply Z.eqb_neq in Ha', Hb'.
    destruct (He a b x Hin). split; apply In_keys_del; auto.
Qed.

Lemma get_app_last {K V : Type} `{EqDec K} (k m : K) (x : V) (d : list (K * V)) :
  PyDict.get k (d ++ [(m, x)]) =
  match PyDict.get k d with
  | Some v => Some v
  | None => if eq_dec k m then Some x else None
  end.
Proof.
  induction d as [|[k' v'] d IH]; simpl.
  - reflexivity.
  - destruct (eq_dec k k'); auto.
Qed.

Lemma get_touch n m ns :
  PyDict.get n (nx.touch m ns) =
  match PyDict.get n ns with
  | Some d => Some d
  | None => if Z.eq_dec n m then Some no_attrs else None
  end.
Proof.
  unfold nx.touch, PyDict.mem. destruct (PyDict.get m ns) eqn:Hm.
  - destruct (PyDict.get n ns) eqn:Hn; [reflexivity|].
    destruct (Z.eq_dec n m); [congruence | reflexivity].
  - rewrite get_app_last. reflexivity.
Qed.

Lemma node_add_edge_old g u v w n d :
  nx.node g n = Some d -> nx.node (nx.add_edge g u v w) n = Some d.
Proof.
  unfold nx.node, nx.add_edge. simpl. intros Hn.
  rewrite !get_touch, Hn. reflexivity.
Qed.

Lemma has_node_add_edge g u v w n :
  nx.has_node (nx.add_edge g u v w) n = true <->
  nx.has_node g n = true \/ n = u \/ n = v.
Proof.
  rewrite !has_node_In. unfold nx.add_edge. simpl.
  rewrite !In_touch. tauto.
Qed.

Lemma nodes_add_edge_present g u v w :
  nx.has_node g u = true -> nx.has_node g v = true ->
  nodes (nx.add_edge g u v w) = nodes g.
Proof.
  rewrite !has_node_In. intros Hu Hv. unfold nx.add_edge. simpl.
  rewrite (touch_present _ _ Hu). apply touch_present. assumption.
Qed.

Lemma edge_value_add_edge_eq g u v w :
  nx.edge_value (nx.add_edge g u v w) u v = Some w.
Proof. unfold nx.edge_value, nx.add_edge. simpl. apply get_set_eq. Qed.

Lemma edge_value_add_edge_ne g u v w a b :
  (a, b) <> (u, v) ->
  nx.edge_value (nx.add_edge g u v w) a b = nx.edge_value g a b.
Proof.
  intros Hne. unfold nx.edge_value, nx.add_edge. simpl.
  apply get_set_ne. congruence.
Qed.

(** ** add_edge *)

(** C9, as the code has it: [add_edge] never fails.  An endpoint that is
    not in the graph is created, with no attributes; the nodes that were
    there keep their attributes; the edge carries the given weight. *)
Theorem add_edge_creates_missing_endpoints (g : DiGraph) (u v : Z) (w : Q) :
  exists g',
    add_edge_call g u v w = Done g'
    /\ (forall n, nx.has_node g' n = true <->
                  nx.has_node g n = true \/ n = u \/ n = v)
    /\ (forall n d, nx.node g n = Some d -> nx.node g' n = Some d)
    /\ (forall n, nx.has_node g n = false -> nx.has_node g' n = true ->
                  nx.node g' n = Some no_attrs)
    /\ nx.edge_value g' u v = Some w.
Proof.
  exists (nx.add_edge g u v w). split; [reflexivity|].
  split; [intros n; apply has_node_add_edge|].
  split; [intros n d; apply node_add_edge_old|].
  split; [|apply edge_value_add_edge_eq].
  intros n Hno Hyes. apply has_node_add_edge in Hyes.
  destruct Hyes as [Hyes|Huv]; [congruence|].
  unfold nx.has_node, PyDict.mem in Hno.
  unfold nx.node, nx.add_edge. simpl. rewrite !get_touch.
  destruct (PyDict.get n (nodes g)); [discriminate|].
  destruct (Z.eq_dec n u); [reflexivity|].
  destruct (Z.eq_dec n v); [reflexivity|]. destruct Huv; contradiction.
Qed.

(** C9, refuted as stated: on a graph with the single node 0, adding the
    edge 0 -> 5 does not raise and leaves the graph with the nodes 0
    and 5. *)
Lemma add_edge_absent_endpoint_counterexample :
  let g := mkGraph [(0%Z, mkNode (Some (1 # 2)) None None None None)] [] in
  nx.has_node g 5 = false
  /\ (forall e g', add_edge_call g 0 5 1 <> Raised e g')
  /\ PyDict.keys (nodes (final_state (add_edge_call g 0 5 1))) = [0%Z; 5%Z]
  /\ PyDict.keys (nodes g) = [0%Z].
Proof.
  cbv zeta. split; [reflexivity|]. split; [|split; reflexivity].
  intros e g'. unfold add_edge_call. discriminate.
Qed.

(** ** Similarity *)

Lemma Qnat_add_comm a b : Qnat (a + b) = Qnat (b + a).
Proof. unfold Qnat. rewrite Nat.add_comm. reflexivity. Qed.

Lemma default_similarity_symmetric vi vj si sj e r :
  result_eq (default_similarity vi vj si sj e r)
            (default_similarity vj vi sj si r e).
Proof.
  unfold default_similarity, default_similarity_function, py_div.
  rewrite (Qnat_add_comm sj si).
  assert (Habs : Qabs (vj - vi) == Qabs (vi - vj))
    by (rewrite Qabs_Qminus; reflexivity).
  assert (Hmin : Qmin (Qmin vj vi) (Qmin (1 - vj) (1 - vi))
                 == Qmin (Qmin vi vj) (Qmin (1 - vi) (1 - vj)))
    by (rewrite (Q.min_comm vj vi), (Q.min_comm (1 - vj) (1 - vi)); reflexivity).
  destruct e as [e|], r as [r|];
    destruct (Qeq_bool (Qnat (si + sj)) 0); cbn [result_eq]; try reflexivity;
    rewrite Habs, Hmin; ring.
Qed.

(** C10: the similarity of a pair does not depend on the order in which its
    two nodes are given, with the default function as the attribute of the
    graph or as the argument of the call: the same sentinel, the same
    exception, or the same score. *)
Theorem compute_similarity_symmetric (g : DiGraph) (i j : Z) :
  result_eq (compute_similarity default_similarity g i j None)
            (compute_similarity default_similarity g j i None)
  /\ forall self_similarity,
       result_eq
         (compute_similarity self_similarity g i j (Some default_similarity))
         (compute_similarity self_similarity g j i (Some default_similarity)).
Proof.
  assert (Hs : forall self sf,
             match sf with Some f => f | None => self end = default_similarity ->
             result_eq (compute_similarity self g i j sf)
                       (compute_similarity self g j i sf)).
  { intros self sf Hf. unfold compute_similarity. rewrite Hf.
    destruct (nx.has_edge g i j), (nx.has_edge g j i); cbn [negb andb];
      try (cbn [result_eq]; reflexivity);
      destruct (nx.node g i) as [[vi li mi Mi pi]|],
               (nx.node g j) as [[vj lj mj Mj pj]|];
      cbn [value]; try destruct vi; try destruct vj;
      try (cbn [result_eq]; reflexivity);
      apply default_similarity_symmetric. }
  split; [apply Hs; reflexivity | intros self; apply Hs; reflexivity].
Qed.

(** ** dynamics_step *)

Lemma Forall2_keys {A B : Type} (P : Z * A -> B -> Prop)
  (ns : list (Z * A)) (upd : list (Z * B)) :
  Forall2 (fun nd iv => fst iv = fst nd /\ P nd (snd iv)) ns upd ->
  PyDict.keys upd = PyDict.keys ns.
Proof.
  unfold PyDict.keys. induction 1 as [|nd iv ns upd [Hf _] _ IH]; simpl;
    [reflexivity | congruence].
Qed.

Lemma Forall2_get {A B : Type} (P : Z * A -> B -> Prop)
  (ns : list (Z * A)) (upd : list (Z * B)) :
  Forall2 (fun nd iv => fst iv = fst nd /\ P nd (snd iv)) ns upd ->
  NoDup (PyDict.keys ns) ->
  forall nd, In nd ns ->
    exists b, PyDict.get (fst nd) upd = Some b /\ P nd b.
Proof.
  induction 1 as [|nd0 [k b0] ns upd [Hf HP] Hrest IH]; intros Hnd nd Hin;
    [destruct Hin|].
  simpl in Hf, HP. subst k. simpl in Hnd. inversion Hnd; subst.
  simpl. destruct Hin as [->|Hin].
  - destruct (eq_dec (fst nd) (fst nd)); [eauto | congruence].
  - destruct (eq_dec (fst nd) (fst nd0)) as [E|Hne].
    + exfalso. apply H1. rewrite <- E. apply (in_map fst). exact Hin.
    + apply IH; assumption.
Qed.

Section Dynamics.
Variable g : DiGraph.
Variable t : Q.
Hypothesis g_wf : wf g.
Hypothesis g_values : forall n d, In (n, d) (nodes g) -> value d <> None.

Lemma source_has_value u v w :
  In ((u, v), w) (adj g) -> exists du vu, nx.node g u = Some du /\ value du = Some vu.
Proof.
  intros Hin. destruct (wf_ends g_wf _ _ _ Hin) as [Hu _].
  apply has_node_In, has_node_node in Hu. destruct Hu as [du Hdu].
  pose proof (g_values _ _ (node_In _ _ _ Hdu)) as Hv.
  destruct (value du) as [vu|] eqn:E; [eauto | congruence].
Qed.

(** The inner loop adds to [vi] the terms of the sum, one by one. *)
Lemma influence_sum_spec i (es : list ((Z * Z) * Q)) :
  (forall e, In e es -> In e (adj g) /\ snd (fst e) = i) ->
  forall vi, exists r,
    influence_sum g t i (map (fun e => fst (fst e)) es) vi = Ok r
    /\ (r == vi + t * fold_right
               (fun e acc =>
                  snd e * match node_value g (fst (fst e)) with
                          | Some v => v | None => 0 end + acc)
               0 es)%Q.
Proof.
  induction es as [|[[j i'] w] es IH]; intros Hes vi;
    cbn [influence_sum map fold_right fst snd].
  - exists vi. split; [reflexivity | ]. ring.
  - destruct (Hes _ (or_introl eq_refl)) as [Hin Hi]. simpl in Hi. subst i'.
    unfold nx.edge_value. rewrite (In_get _ _ _ (wf_adj g_wf) Hin).
    destruct (source_has_value _ _ _ Hin) as [dj [vj [Hdj Hvj]]].
    assert (Hnv : node_value g j = Some vj)
      by (unfold node_value; rewrite Hdj; exact Hvj).
    rewrite Hdj, Hvj, Hnv.
    destruct (IH (fun e He => Hes e (or_intror He)) (vi + w * vj * t)%Q)
      as [r [Hr Hrv]].
    exists r. split; [exact Hr|]. rewrite Hrv. ring.
Qed.

Lemma updated_values_spec (ns : list (Z * NodeData)) :
  incl ns (nodes g) ->
  exists upd,
    updated_values g t ns = Ok upd
    /\ Forall2 (fun nd iv =>
                  fst iv = fst nd
                  /\ exists v, value (snd nd) = Some v
                     /\ (snd iv == clip01 (v + t * incoming_influence g (fst nd)))%Q)
               ns upd.
Proof.
  induction ns as [|[i di] ns IH]; intros Hincl; simpl.
  - exists []. split; [reflexivity | constructor].
  - assert (Hi : In (i, di) (nodes g)) by (apply Hincl; left; reflexivity).
    pose proof (g_values _ _ Hi) as Hv.
    destruct (value di) as [vi|] eqn:Evi; [|congruence].
    unfold nx.predecessors.
    assert (Hn : nx.has_node g i = true).
    { apply has_node_In. apply (in_map fst) in Hi. exact Hi. }
    rewrite Hn.
    destruct (influence_sum_spec i (nx.in_edges g i)) with (vi := vi)
      as [r [Hr Hrv]].
    { intros e He. unfold nx.in_edges in He. apply filter_In in He.
      destruct He as [He Hd]. apply Z.eqb_eq in Hd. auto. }
    rewrite Hr.
    destruct IH as [upd [Hupd Hall]].
    { intros x Hx. apply Hincl. right. exact Hx. }
    rewrite Hupd. exists ((i, clip01 r) :: upd). split; [reflexivity|].
    constructor; [|exact Hall]. simpl. split; [reflexivity|].
    exists vi. split; [exact Evi|]. unfold clip01, incoming_influence.
    rewrite Hrv. reflexivity.
Qed.

(** The second loop writes every new value and nothing else. *)
Lemma write_values_spec (upd : list (Z * Q)) :
  NoDup (PyDict.keys upd) ->
  (forall i, In i (PyDict.keys upd) -> nx.has_node g i = true) ->
  exists g',
    fold_run (fun g iv => set_value g (fst iv) (snd iv)) upd g = Done g'
    /\ adj g' = adj g
    /\ PyDict.keys (nodes g') = PyDict.keys (nodes g)
    /\ forall i d, nx.node g i = Some d ->
         nx.node g' i = Some (match PyDict.get i upd with
                              | Some v => with_value d v
                              | None => d
                              end).
Proof.
  intros Hnd Hin.
  destruct (fold_run_total
              (fun g iv => set_value g (fst iv) (snd iv))
              (fun g' rest =>
                 exists done, upd = done ++ rest
                 /\ adj g' = adj g
                 /\ PyDict.keys (nodes g') = PyDict.keys (nodes g)
                 /\ forall i d, nx.node g i = Some d ->
                      nx.node g' i = Some (match PyDict.get i done with
                                           | Some v => with_value d v
                                           | None => d
                                           end))) with (l := upd) (g := g)
    as [g' [Hrun [done [Hd [Ha [Hk Hv]]]]]].
  - intros g1 [i v] rest [done [Hd [Ha [Hk Hv]]]]. simpl.
    assert (Hi : nx.has_node g i = true).
    { apply Hin. rewrite Hd. unfold PyDict.keys. rewrite map_app.
      apply in_or_app. right. left. reflexivity. }
    apply has_node_node in Hi. destruct Hi as [d Hdi].
    assert (Hfresh : PyDict.get i done = None).
    { apply get_None_iff. intros Hc. rewrite Hd in Hnd.
      unfold PyDict.keys in Hnd. rewrite map_app in Hnd.
      apply NoDup_remove_2 in Hnd. apply Hnd. simpl.
      apply in_or_app. left. exact Hc. }
    unfold set_value. rewrite (Hv i d Hdi), Hfresh.
    eexists. split; [reflexivity|]. exists (done ++ [(i, v)]).
    split; [rewrite <- app_assoc; exact Hd|]. simpl.
    split; [exact Ha|]. split.
    + rewrite set_present; [exact Hk|]. rewrite Hk.
      apply has_node_In, has_node_node. eauto.
    + intros k dk Hdk. unfold nx.node. simpl. rewrite get_app_last.
      destruct (Z.eq_dec i k) as [->|Hne].
      * rewrite get_set_eq, Hfresh.
        destruct (eq_dec k k); [|congruence].
        assert (dk = d) by congruence. subst. reflexivity.
      * rewrite get_set_ne by assumption. fold (nx.node g1 k).
        rewrite (Hv k dk Hdk).
        destruct (PyDict.get k done); [reflexivity|].
        destruct (eq_dec k i); [congruence | reflexivity].
  - exists []. simpl. repeat split; auto.
  - exists g'. rewrite app_nil_r in Hd. subst done. auto.
Qed.

End Dynamics.

(** ** merge_nodes *)

Lemma fold_max_ge (ks : list Z) (k : Z) :
  (k <= fold_left Z.max ks k)%Z
  /\ forall n, In n ks -> (n <= fold_left Z.max ks k)%Z.
Proof.
  revert k. induction ks as [|x ks IH]; intros k; simpl.
  - split; [lia | tauto].
  - destruct (IH (Z.max k x)) as [H1 H2]. split; [lia|].
    intros n [->|Hn]; [lia | auto].
Qed.

Lemma max_node_spec g m :
  nx.max_node g = Some m ->
  forall n, nx.has_node g n = true -> (n <= m)%Z.
Proof.
  unfold nx.max_node. intros Hm n Hn. apply has_node_In in Hn.
  destruct (PyDict.keys (nodes g)) as [|k ks]; [discriminate|].
  inversion Hm; subst. destruct (fold_max_ge ks k) as [H1 H2].
  destruct Hn as [->|Hn]; auto.
Qed.

Lemma max_node_some g n :
  nx.has_node g n = true -> exists m, nx.max_node g = Some m.
Proof.
  unfold nx.max_node. intros Hn. apply has_node_In in Hn.
  destruct (PyDict.keys (nodes g)); [destruct Hn | eauto].
Qed.

Lemma max_node_fresh g m : nx.max_node g = Some m -> nx.has_node g (m + 1) = false.
Proof.
  intros Hm. destruct (nx.has_node g (m + 1)) eqn:E; [|reflexivity].
  pose proof (max_node_spec g m Hm _ E). lia.
Qed.

Lemma NoDup_flat_map {A B : Type} (f : A -> list B) (l : list A) :
  NoDup l ->
  (forall a, In a l -> NoDup (f a)) ->
  (forall a a' b, In a l -> In a' l -> In b (f a) -> In b (f a') -> a = a') ->
  NoDup (flat_map f l).
Proof.
  induction l as [|a l IH]; simpl; intros Hnd Hf Hdis; [constructor|].
  inversion Hnd; subst. apply NoDup_app.
  - apply Hf. auto.
  - apply IH; auto. intros; eapply Hdis; eauto.
  - intros b Hb Hb'. apply in_flat_map in Hb'. destruct Hb' as [a' [Ha' Hb']].
    assert (a = a') by (eapply Hdis; eauto). subst. contradiction.
Qed.

Lemma NoDup_map_fst_filter {K V : Type} (f : K * V -> bool) (d : list (K * V)) :
  NoDup (map fst d) -> NoDup (map fst (filter f d)).
Proof.
  induction d as [|[k v] d IH]; simpl; intros Hnd; [constructor|].
  inversion Hnd; subst. destruct (f (k, v)); simpl; [|auto].
  constructor; [|auto]. rewrite in_map_iff. intros [x [Hx Hin]].
  apply filter_In in Hin. apply H1. rewrite in_map_iff. exists x. tauto.
Qed.

Lemma In_edges g u v :
  wf g -> (In (u, v) (nx.edges g) <-> nx.has_edge g u v = true).
Proof.
  intros Hwf. unfold nx.edges, nx.has_edge. rewrite mem_true_iff, in_flat_map.
  unfold nx.out_edges, PyDict.keys. split.
  - intros [n [Hn Hin]]. apply in_map_iff in Hin. destruct Hin as [e [He Hin]].
    apply filter_In in Hin. apply in_map_iff. exists e. tauto.
  - intros Hin. apply in_map_iff in Hin. destruct Hin as [[[a b] w] [He Hin]].
    simpl in He. inversion He; subst. exists u. split.
    + apply (wf_ends Hwf _ _ _ Hin).
    + apply in_map_iff. exists ((u, v), w). split; [reflexivity|].
      apply filter_In. split; [assumption|]. simpl. apply Z.eqb_refl.
Qed.

Lemma NoDup_edges g : wf g -> NoDup (nx.edges g).
Proof.
  intros Hwf. unfold nx.edges. apply NoDup_flat_map.
  - apply Hwf.
  - intros n _. unfold nx.out_edges. apply NoDup_map_fst_filter. apply Hwf.
  - intros a a' [x y] _ _ Ha Ha'. unfold nx.out_edges in *.
    apply in_map_iff in Ha, Ha'.
    destruct Ha as [e [He Hin]], Ha' as [e' [He' Hin']].
    apply filter_In in Hin, Hin'. destruct Hin as [_ Hs], Hin' as [_ Hs'].
    apply Z.eqb_eq in Hs, Hs'. rewrite He in Hs. rewrite He' in Hs'.
    simpl in *. congruence.
Qed.

Lemma has_edge_ends g u v :
  wf g -> nx.has_edge g u v = true ->
  nx.has_node g u = true /\ nx.has_node g v = true.
Proof.
  intros Hwf He. apply has_edge_value in He. destruct He as [w Hw].
  apply get_Some_In in Hw. rewrite !has_node_In.
  apply (wf_ends Hwf _ _ _ Hw).
Qed.

Lemma has_edge_set g a b w u v :
  nx.has_edge (mkGraph (nodes g) (PyDict.set (a, b) w (adj g))) u v =
  if eq_dec (a, b) (u, v) then true else nx.has_edge g u v.
Proof.
  unfold nx.has_edge, PyDict.mem. simpl.
  destruct (eq_dec (a, b) (u, v)) as [E|Hne].
  - rewrite <- E, get_set_eq. reflexivity.
  - rewrite get_set_ne by assumption. reflexivity.
Qed.

Lemma has_edge_add_edge g a b w u v :
  nx.has_edge (nx.add_edge g a b w) u v =
  if eq_dec (a, b) (u, v) then true else nx.has_edge g u v.
Proof.
  unfold nx.has_edge, PyDict.mem, nx.add_edge. simpl.
  destruct (eq_dec (a, b) (u, v)) as [E|Hne].
  - rewrite <- E, get_set_eq. reflexivity.
  - rewrite get_set_ne by assumption. reflexivity.
Qed.

Lemma has_edge_remove_edge g a b g' u v :
  nx.remove_edge g a b = Done g' ->
  nodes g' = nodes g
  /\ nx.has_edge g' u v = if eq_dec (a, b) (u, v) then false else nx.has_edge g u v.
Proof.
  unfold nx.remove_edge. destruct (nx.has_edge g a b); [|discriminate].
  intros E. inversion E; subst. simpl. split; [reflexivity|].
  unfold nx.has_edge, PyDict.mem. simpl.
  destruct (eq_dec (a, b) (u, v)) as [Heq|Hne].
  - rewrite <- Heq, get_del_eq. reflexivity.
  - rewrite get_del_ne by assumption. reflexivity.
Qed.

Lemma has_edge_remove_node g n u v :
  nx.has_edge (final_state (nx.remove_node g n)) u v = true ->
  nx.has_edge g u v = true.
Proof.
  unfold nx.remove_node. destruct (nx.has_node g n); simpl; [|auto].
  unfold nx.has_edge. rewrite !mem_true_iff. simpl. apply In_keys_filter.
Qed.

(** The weight [w] goes to the edge [(src, dst)]: added to the weight that
    is there, or as a new edge. *)
Lemma absorb_spec g src dst w :
  wf g -> nx.has_node g src = true -> nx.has_node g dst = true ->
  exists g1,
    match nx.edge_value g src dst with
    | Some old => Done (mkGraph (nodes g) (PyDict.set (src, dst) (old + w)%Q (adj g)))
    | None => Done (nx.add_edge g src dst w)
    end = Done g1
    /\ nodes g1 = nodes g
    /\ wf g1
    /\ (forall x y, (x, y) <> (src, dst) ->
          nx.edge_value g1 x y = nx.edge_value g x y)
    /\ nx.edge_value g1 src dst =
       Some (match nx.edge_value g src dst with
             | Some old => (old + w)%Q
             | None => w
             end).
Proof.
  intros Hwf Hs Hd. destruct (nx.edge_value g src dst) as [old|] eqn:E.
  - eexists. split; [reflexivity|]. split; [reflexivity|].
    split; [apply wf_set_edge; try assumption; apply has_node_In; assumption|].
    unfold nx.edge_value. simpl. split.
    + intros x y Hne. apply get_set_ne. congruence.
    + apply get_set_eq.
  - eexists. split; [reflexivity|].
    split; [apply nodes_add_edge_present; assumption|].
    split; [apply wf_add_edge; assumption|]. split.
    + intros x y Hne. apply edge_value_add_edge_ne. assumption.
    + apply edge_value_add_edge_eq.
Qed.

Lemma drop_edge_spec g u v :
  wf g ->
  exists g',
    (if nx.has_edge g u v then nx.remove_edge g u v else Done g) = Done g'
    /\ nodes g' = nodes g
    /\ wf g'
    /\ (forall x y, (x, y) <> (u, v) ->
          nx.edge_value g' x y = nx.edge_value g x y)
    /\ nx.edge_value g' u v = None.
Proof.
  intros Hwf. destruct (nx.has_edge g u v) eqn:E.
  - pose proof (wf_remove_edge g u v Hwf) as Hwf'.
    unfold nx.remove_edge in *. rewrite E in *. simpl in Hwf'.
    eexists. split; [reflexivity|]. split; [reflexivity|].
    split; [exact Hwf'|]. unfold nx.edge_value. simpl. split.
    + intros x y Hne. apply get_del_ne. congruence.
    + apply get_del_eq.
  - exists g. split; [reflexivity|]. split; [reflexivity|].
    split; [assumption|]. split; [reflexivity|].
    unfold nx.has_edge, PyDict.mem in E. unfold nx.edge_value.
    destruct (PyDict.get (u, v) (adj g)); [discriminate | reflexivity].
Qed.

Lemma rehome_spec i j a b u v src dst g :
  wf g ->
  nx.has_node g src = true -> nx.has_node g dst = true ->
  (u, v) <> (src, dst) ->
  (rehome_moves i j a b = true -> nx.has_edge g u v = true) ->
  exists g',
    rehome i j a b u v src dst g = Done g'
    /\ nodes g' = nodes g
    /\ wf g'
    /\ (forall x y, (x, y) <> (src, dst) -> (x, y) <> (u, v) ->
          nx.edge_value g' x y = nx.edge_value g x y)
    /\ nx.edge_value g' u v =
       (if rehome_active i j a then None else nx.edge_value g u v)
    /\ nx.edge_value g' src dst =
       (if rehome_moves i j a b
        then match nx.edge_value g u v with
             | Some w => Some (match nx.edge_value g src dst with
                               | Some old => (old + w)%Q
                               | None => w
                               end)
             | None => None
             end
        else nx.edge_value g src dst).
Proof.
  intros Hwf Hs Hd Hne Hpre. unfold rehome, rehome_moves, rehome_active in *.
  destruct ((a =? i)%Z || (a =? j)%Z).
  2:{ exists g. simpl. split; [reflexivity|]. split; [reflexivity|].
      split; [assumption|]. split; [reflexivity|]. split; reflexivity. }
  destruct (negb (b =? i)%Z && negb (b =? j)%Z); simpl in *.
  - apply has_edge_value in Hpre; [|reflexivity]. destruct Hpre as [w Hw].
    rewrite Hw.
    destruct (absorb_spec g src dst w Hwf Hs Hd) as [g1 [Hrun [Hn [Hwf1 [Ho Hv]]]]].
    rewrite Hrun. simpl.
    destruct (drop_edge_spec g1 u v Hwf1) as [g' [Hrun' [Hn' [Hwf' [Ho' Hv']]]]].
    rewrite Hrun'. exists g'. split; [reflexivity|].
    split; [congruence|]. split; [assumption|]. split; [|split].
    + intros x y H1 H2. rewrite Ho' by assumption. apply Ho. assumption.
    + assumption.
    + rewrite Ho' by congruence. exact Hv.
  - destruct (drop_edge_spec g u v Hwf) as [g' [Hrun' [Hn' [Hwf' [Ho' Hv']]]]].
    rewrite Hrun'. exists g'. split; [reflexivity|].
    split; [congruence|]. split; [assumption|]. split; [|split].
    + intros x y H1 H2. apply Ho'. assumption.
    + assumption.
    + apply Ho'. congruence.
Qed.

Lemma has_edge_of_value g u v w :
  nx.edge_value g u v = Some w -> nx.has_edge g u v = true.
Proof. intros E. apply has_edge_value. eauto. Qed.

Lemma has_edge_same_value g g' u v :
  nx.edge_value g' u v = nx.edge_value g u v ->
  nx.has_edge g' u v = nx.has_edge g u v.
Proof.
  unfold nx.has_edge, nx.edge_value, PyDict.mem. intros ->. reflexivity.
Qed.

Lemma has_node_same_nodes g g' n :
  nodes g' = nodes g -> nx.has_node g' n = nx.has_node g n.
Proof. unfold nx.has_node. intros ->. reflexivity. Qed.

(** One turn of the reconnection loop, on an edge that is in the graph and
    does not touch the new node. *)
Lemma reconnect_spec i j new g u v :
  wf g -> nx.has_node g new = true -> nx.has_edge g u v = true ->
  u <> new -> v <> new ->
  exists g',
    reconnect i j new g (u, v) = Done g'
    /\ nodes g' = nodes g
    /\ wf g'
    /\ (forall x y, (x, y) <> (u, v) -> (x, y) <> (new, v) -> (x, y) <> (u, new) ->
          nx.edge_value g' x y = nx.edge_value g x y)
    /\ nx.edge_value g' u v =
       (if rehome_active i j u || rehome_active i j v then None
        else nx.edge_value g u v)
    /\ nx.edge_value g' new v =
       (if rehome_moves i j u v
        then match nx.edge_value g u v with
             | Some w => Some (match nx.edge_value g new v with
                               | Some old => (old + w)%Q
                               | None => w
                               end)
             | None => None
             end
        else nx.edge_value g new v)
    /\ nx.edge_value g' u new =
       (if rehome_moves i j v u
        then match nx.edge_value g u v with
             | Some w => Some (match nx.edge_value g u new with
                               | Some old => (old + w)%Q
                               | None => w
                               end)
             | None => None
             end
        else nx.edge_value g u new).
Proof.
  intros Hwf Hnew Huv Hu Hv.
  destruct (has_edge_ends g u v Hwf Huv) as [Hnu Hnv].
  unfold reconnect.
  destruct (rehome_spec i j u v u v new v g Hwf Hnew Hnv)
    as [g1 [Hrun1 [Hn1 [Hwf1 [Ho1 [Huv1 Hnv1]]]]]];
    [congruence | auto |].
  rewrite Hrun1. simpl.
  destruct (rehome_spec i j v u u v u new g1 Hwf1)
    as [g2 [Hrun2 [Hn2 [Hwf2 [Ho2 [Huv2 Hun2]]]]]].
  - rewrite (has_node_same_nodes g g1 u Hn1). assumption.
  - rewrite (has_node_same_nodes g g1 new Hn1). assumption.
  - congruence.
  - intros Hm. unfold rehome_moves in Hm.
    apply andb_true_iff in Hm. destruct Hm as [_ Hm].
    apply andb_true_iff in Hm. destruct Hm as [Hm1 Hm2].
    apply negb_true_iff in Hm1, Hm2.
    apply has_edge_value in Huv. destruct Huv as [w Hw].
    apply has_edge_value. exists w.
    rewrite Huv1. unfold rehome_active. rewrite Hm1, Hm2. simpl. exact Hw.
  - rewrite Hrun2. exists g2. split; [reflexivity|].
    split; [congruence|]. split; [assumption|].
    assert (Hun1 : nx.edge_value g1 u new = nx.edge_value g u new)
      by (apply Ho1; congruence).
    assert (Hnv2 : nx.edge_value g2 new v = nx.edge_value g1 new v)
      by (apply Ho2; congruence).
    split; [|split; [|split]].
    + intros x y H1 H2 H3. rewrite Ho2 by assumption. apply Ho1; assumption.
    + rewrite Huv2, Huv1. destruct (rehome_active i j u), (rehome_active i j v);
        reflexivity.
    + rewrite Hnv2. exact Hnv1.
    + rewrite Hun2, Hun1, Huv1. unfold rehome_moves.
      destruct (rehome_active i j v) eqn:Eav; simpl; [|reflexivity].
      destruct (negb (u =? i)%Z && negb (u =? j)%Z) eqn:Em; [|reflexivity].
      apply andb_true_iff in Em. destruct Em as [Em1 Em2].
      apply negb_true_iff in Em1, Em2. unfold rehome_active.
      rewrite Em1, Em2. reflexivity.
Qed.

Lemma opt_eq_refl a : opt_eq a a.
Proof. destruct a; simpl; [reflexivity | exact I]. Qed.

Lemma opt_eq_trans a b c : opt_eq a b -> opt_eq b c -> opt_eq a c.
Proof.
  destruct a, b, c; simpl; try tauto. intros H1 H2. rewrite H1. exact H2.
Qed.

Lemma opt_eq_of_eq a b : a = b -> opt_eq a b.
Proof. intros ->. apply opt_eq_refl. Qed.

Lemma rehome_active_cases i j a :
  rehome_active i j a = true -> a = i \/ a = j.
Proof.
  unfold rehome_active. intros H. apply orb_true_iff in H.
  destruct H as [H|H]; apply Z.eqb_eq in H; auto.
Qed.

Lemma rehome_inactive i j a :
  rehome_active i j a = false -> a <> i /\ a <> j.
Proof.
  unfold rehome_active. intros H. apply orb_false_iff in H.
  destruct H as [H1 H2]. apply Z.eqb_neq in H1, H2. auto.
Qed.

Lemma rehome_moves_true i j a b :
  rehome_active i j a = true -> rehome_active i j b = false ->
  rehome_moves i j a b = true.
Proof.
  intros Ha Hb. unfold rehome_moves. rewrite Ha.
  unfold rehome_active in Hb. apply orb_false_iff in Hb.
  destruct Hb as [-> ->]. reflexivity.
Qed.

Lemma rehome_moves_false_l i j a b :
  rehome_active i j a = false -> rehome_moves i j a b = false.
Proof. intros Ha. unfold rehome_moves. rewrite Ha. reflexivity. Qed.

Lemma rehome_moves_false_r i j a b :
  rehome_active i j b = true -> rehome_moves i j a b = false.
Proof.
  intros Hb. unfold rehome_moves. unfold rehome_active in Hb.
  destruct (b =? i)%Z, (b =? j)%Z; simpl in *; try discriminate;
    apply andb_false_r.
Qed.

(** Moving a weight from an edge of a merged node to the edge of the new
    node leaves the total as it is. *)
Lemma total_move_first (n a b : option Q) (w : Q) :
  a = Some w ->
  opt_eq (total (total (Some (match n with Some old => (old + w)%Q | None => w end))
                       None) b)
         (total (total n a) b).
Proof.
  intros ->. destruct n, b; simpl; try reflexivity; ring.
Qed.

Lemma total_move_second (n a b : option Q) (w : Q) :
  b = Some w ->
  opt_eq (total (total (Some (match n with Some old => (old + w)%Q | None => w end))
                       a) None)
         (total (total n a) b).
Proof.
  intros ->. destruct n, a; simpl; try reflexivity; ring.
Qed.

(** Every turn of the reconnection loop re-establishes the invariant. *)
Lemma reconnect_step i j new g0 g u v rest :
  new <> i -> new <> j -> nx.has_node g0 new = true ->
  reconnect_inv i j new g0 g ((u, v) :: rest) ->
  exists g',
    reconnect i j new g (u, v) = Done g' /\ reconnect_inv i j new g0 g' rest.
Proof.
  intros Hni Hnj Hnew [Hn Hwf Hnd Hrest Hpend Hold Hkept Hloop Hout Hin].
  destruct (Hrest u v (or_introl eq_refl)) as [Hu [Hv Huv]].
  inversion Hnd as [|? ? Hnotin Hnd']; subst.
  assert (Hnew' : nx.has_node g new = true)
    by (rewrite (has_node_same_nodes g0 g new Hn); exact Hnew).
  destruct (reconnect_spec i j new g u v Hwf Hnew' Huv Hu Hv)
    as [g' [Hrun [Hn' [Hwf' [E1 [E2 [E3 E4]]]]]]].
  pose proof Huv as Huvw. apply has_edge_value in Huvw. destruct Huvw as [w Hw].
  assert (Hnewact : rehome_active i j new = false).
  { unfold rehome_active. apply orb_false_iff. split; apply Z.eqb_neq; assumption. }
  exists g'. split; [exact Hrun|]. constructor.
  - congruence.
  - exact Hwf'.
  - exact Hnd'.
  - intros a b Hab. destruct (Hrest a b (or_intror Hab)) as [Ha [Hb Hab']].
    split; [exact Ha|]. split; [exact Hb|].
    rewrite (has_edge_same_value g g' a b); [exact Hab'|].
    apply E1; congruence.
  - intros x y Hxy Hact.
    destruct (eq_dec (x, y) (u, v)) as [E|Hne1].
    { inversion E; subst. exfalso. apply has_edge_value in Hxy.
      destruct Hxy as [w' Hw']. rewrite E2, Hact in Hw'. discriminate. }
    destruct (eq_dec (x, y) (new, v)) as [E|Hne2].
    { inversion E; subst. exfalso. rewrite Hnewact in Hact. simpl in Hact.
      rewrite (has_edge_same_value g g' new v) in Hxy
        by (rewrite E3, (rehome_moves_false_r _ _ _ _ Hact); reflexivity).
      assert (Hp : In (new, v) ((u, v) :: rest))
        by (apply Hpend; [exact Hxy | rewrite Hnewact; exact Hact]).
      destruct Hp as [Hp|Hp]; [congruence|].
      destruct (Hrest new v (or_intror Hp)) as [Hc _]. congruence. }
    destruct (eq_dec (x, y) (u, new)) as [E|Hne3].
    { inversion E; subst. exfalso. rewrite Hnewact, orb_false_r in Hact.
      rewrite (has_edge_same_value g g' u new) in Hxy
        by (rewrite E4, (rehome_moves_false_r _ _ _ _ Hact); reflexivity).
      assert (Hp : In (u, new) ((u, v) :: rest))
        by (apply Hpend; [exact Hxy | rewrite Hnewact, orb_false_r; exact Hact]).
      destruct Hp as [Hp|Hp]; [congruence|].
      destruct (Hrest u new (or_intror Hp)) as [_ [Hc _]]. congruence. }
    rewrite (has_edge_same_value g g' x y) in Hxy by (apply E1; assumption).
    destruct (Hpend x y Hxy Hact) as [Hp|Hp]; [congruence | exact Hp].
  - intros x y Hx Hy Hxy. destruct (eq_dec (x, y) (u, v)) as [E|Hne].
    + inversion E; subst. apply Hold; assumption.
    + apply Hold; try assumption.
      rewrite <- (has_edge_same_value g g' x y); [exact Hxy|].
      apply E1; congruence.
  - intros x y Hx Hy Hax Hay. destruct (eq_dec (x, y) (u, v)) as [E|Hne].
    + inversion E; subst. rewrite E2, Hax, Hay. simpl. apply Hkept; assumption.
    + rewrite E1 by congruence. apply Hkept; assumption.
  - rewrite E1 by congruence. exact Hloop.
  - intros Hij y Hy Hay. eapply opt_eq_trans; [|apply Hout; assumption].
    unfold out_total. destruct (rehome_inactive _ _ _ Hay) as [Hyi Hyj].
    destruct (Z.eq_dec y v) as [->|Hyv].
    + destruct (rehome_active i j u) eqn:Eu.
      * rewrite E3, (rehome_moves_true _ _ _ _ Eu Hay), Hw.
        destruct (rehome_active_cases _ _ _ Eu) as [Hui|Huj]; subst u.
        -- rewrite E2. cbn [orb].
           rewrite (E1 j v) by congruence.
           apply total_move_first. exact Hw.
        -- rewrite E2. cbn [orb].
           rewrite (E1 i v) by congruence.
           apply total_move_second. exact Hw.
      * rewrite E3, (rehome_moves_false_l _ _ _ _ Eu).
        destruct (rehome_inactive _ _ _ Eu) as [Hui Huj].
        rewrite (E1 i v), (E1 j v) by congruence. apply opt_eq_refl.
    + rewrite (E1 new y), (E1 i y), (E1 j y) by congruence. apply opt_eq_refl.
  - intros Hij x Hx Hax. eapply opt_eq_trans; [|apply Hin; assumption].
    unfold in_total. destruct (rehome_inactive _ _ _ Hax) as [Hxi Hxj].
    destruct (Z.eq_dec x u) as [->|Hxu].
    + destruct (rehome_active i j v) eqn:Ev.
      * rewrite E4, (rehome_moves_true _ _ _ _ Ev Hax), Hw.
        destruct (rehome_active_cases _ _ _ Ev) as [Hvi|Hvj]; subst v.
        -- rewrite E2, orb_true_r.
           rewrite (E1 u j) by congruence.
           apply total_move_first. exact Hw.
        -- rewrite E2, orb_true_r.
           rewrite (E1 u i) by congruence.
           apply total_move_second. exact Hw.
      * rewrite E4, (rehome_moves_false_l _ _ _ _ Ev).
        destruct (rehome_inactive _ _ _ Ev) as [Hvi Hvj].
        rewrite (E1 u i), (E1 u j) by congruence. apply opt_eq_refl.
    + rewrite (E1 x new), (E1 x i), (E1 x j) by congruence. apply opt_eq_refl.
Qed.

Lemma reconnect_loop i j new g0 :
  new <> i -> new <> j -> nx.has_node g0 new = true -> wf g0 ->
  (forall x, nx.has_edge g0 new x = false /\ nx.has_edge g0 x new = false) ->
  exists g2,
    fold_run (reconnect i j new) (nx.edges g0) g0 = Done g2
    /\ reconnect_inv i j new g0 g2 [].
Proof.
  intros Hni Hnj Hnew Hwf Hiso.
  apply (fold_run_total (reconnect i j new) (reconnect_inv i j new g0)).
  - intros g [u v] rest Hinv. apply reconnect_step; assumption.
  - constructor.
    + reflexivity.
    + assumption.
    + apply NoDup_edges. assumption.
    + intros u v Huv. apply In_edges in Huv; [|assumption].
      split; [|split; [|assumption]].
      * intros ->. destruct (Hiso v) as [H1 _]. congruence.
      * intros ->. destruct (Hiso u) as [_ H2]. congruence.
    + intros x y Hxy _. apply In_edges; assumption.
    + auto.
    + auto.
    + destruct (Hiso new) as [H1 _]. unfold nx.has_edge, PyDict.mem in H1.
      unfold nx.edge_value. destruct (PyDict.get (new, new) (adj g0));
        [discriminate | reflexivity].
    + intros. apply opt_eq_refl.
    + intros. apply opt_eq_refl.
Qed.

Lemma Qnat_nonzero n : n <> 0%nat -> Qeq_bool (Qnat n) 0 = false.
Proof.
  intros Hn. destruct (Qeq_bool (Qnat n) 0) eqn:E; [|reflexivity].
  apply Qeq_bool_eq in E. unfold Qnat, Qeq in E. simpl in E. lia.
Qed.


Lemma Qnat_nonneg n : (0 <= Qnat n)%Q.
Proof. unfold Qnat, Qle. simpl. lia. Qed.


Lemma add_node_fresh g n attrs :
  nx.has_node g n = false ->
  nodes (nx.add_node g n attrs)
  = nodes g ++ [(n, update_attrs no_attrs attrs)].
Proof.
  intros Hn. unfold nx.add_node. simpl.
  unfold nx.has_node, PyDict.mem in Hn. unfold nx.node.
  destruct (PyDict.get n (nodes g)) eqn:E; [discriminate|].
  apply set_absent. apply get_None_iff. exact E.
Qed.

Lemma fresh_node_isolated g n :
  wf g -> nx.has_node g n = false ->
  forall x, nx.has_edge g n x = false /\ nx.has_edge g x n = false.
Proof.
  intros Hwf Hn x. split.
  - destruct (nx.has_edge g n x) eqn:E; [|reflexivity].
    destruct (has_edge_ends g n x Hwf E). congruence.
  - destruct (nx.has_edge g x n) eqn:E; [|reflexivity].
    destruct (has_edge_ends g x n Hwf E). congruence.
Qed.

(** The ways in which [merge_nodes] raises before it writes anything. *)
Lemma merge_nodes_early g i j :
  (exists e, merge_nodes g i j = Raised e g)
  \/ exists di dj vi vj,
       nx.node g i = Some di /\ nx.node g j = Some dj
       /\ value di = Some vi /\ value dj = Some vj
       /\ (length (get_label i di) + length (get_label j dj) <> 0)%nat.
Proof.
  unfold merge_nodes.
  destruct (nx.node g i) as [di|]; [|left; eauto].
  destruct (nx.node g j) as [dj|]; [|left; eauto].
  destruct (value di) as [vi|] eqn:Evi; [|left; eauto].
  destruct (value dj) as [vj|] eqn:Evj; [|left; eauto].
  destruct (Nat.eq_dec (length (get_label i di) + length (get_label j dj)) 0)
    as [E|Hne].
  - left. rewrite E. unfold py_div.
    change (Qeq_bool (Qnat 0) 0) with true. cbv iota. eauto.
  - right. exists di, dj, vi, vj. auto.
Qed.

(** When it gets past these, [merge_nodes] appends the new node, runs the
    reconnection loop to its end and goes on to remove the two nodes. *)
Lemma merge_nodes_run g i j di dj vi vj :
  wf g ->
  nx.node g i = Some di -> nx.node g j = Some dj ->
  value di = Some vi -> value dj = Some vj ->
  (length (get_label i di) + length (get_label j dj) <> 0)%nat ->
  exists m g1 g2,
    nx.max_node g = Some m
    /\ nodes g1 = nodes g ++ [((m + 1)%Z, merged_node i j di dj vi vj)]
    /\ adj g1 = adj g
    /\ reconnect_inv i j (m + 1) g1 g2 []
    /\ merge_nodes g i j = (g3 <- nx.remove_node g2 i ;; nx.remove_node g3 j).
Proof.
  intros Hwf Hi Hj Hvi Hvj Hlen.
  assert (Hni : nx.has_node g i = true) by (apply has_node_node; eauto).
  assert (Hnj : nx.has_node g j = true) by (apply has_node_node; eauto).
  destruct (max_node_some g i Hni) as [m Hm].
  pose proof (max_node_fresh g m Hm) as Hfresh.
  pose proof (max_node_spec g m Hm) as Hmax.
  set (g1 := nx.add_node g (m + 1) (merged_node i j di dj vi vj)).
  assert (Hn1 : nodes g1 = nodes g ++ [((m + 1)%Z, merged_node i j di dj vi vj)])
    by (apply add_node_fresh; assumption).
  destruct (reconnect_loop i j (m + 1) g1) as [g2 [Hrun Hinv]].
  - intros E. specialize (Hmax i Hni). lia.
  - intros E. specialize (Hmax j Hnj). lia.
  - apply has_node_In. rewrite Hn1. unfold PyDict.keys. rewrite map_app.
    apply in_or_app. right. left. reflexivity.
  - apply wf_add_node. assumption.
  - intros x. apply (fresh_node_isolated g (m + 1) Hwf Hfresh).
  - exists m, g1, g2. split; [assumption|]. split; [assumption|].
    split; [reflexivity|]. split; [assumption|].
    unfold merge_nodes. rewrite Hi, Hj, Hvi, Hvj. unfold py_div.
    rewrite (Qnat_nonzero _ Hlen), Hm.
    fold (merged_node i j di dj vi vj). fold g1. rewrite Hrun. reflexivity.
Qed.



Lemma remove_node_done g n :
  nx.has_node g n = true ->
  nx.remove_node g n
  = Done (mkGraph (PyDict.del n (nodes g))
                  (filter (fun e => negb (nx.incident n e)) (adj g))).
Proof. intros Hn. unfold nx.remove_node. rewrite Hn. reflexivity. Qed.

Lemma del_as_filter (n : Z) (l : list (Z * NodeData)) :
  PyDict.del n l = filter (fun nd => negb (fst nd =? n)%Z) l.
Proof.
  unfold PyDict.del. apply filter_ext. intros [k d]. simpl.
  destruct (eq_dec n k) as [->|Hne].
  - rewrite Z.eqb_refl. reflexivity.
  - apply not_eq_sym, Z.eqb_neq in Hne. rewrite Hne. reflexivity.
Qed.

Lemma filter_filter {A : Type} (p q : A -> bool) (l : list A) :
  filter q (filter p l) = filter (fun x => p x && q x) l.
Proof.
  induction l as [|x l IH]; simpl; [reflexivity|].
  destruct (p x); simpl; [destruct (q x); congruence | assumption].
Qed.

Lemma del_del (i j : Z) (l : list (Z * NodeData)) :
  PyDict.del j (PyDict.del i l) = filter (survives i j) l.
Proof. rewrite !del_as_filter, filter_filter. reflexivity. Qed.

Lemma has_node_app g g0 extra n :
  nodes g = nodes g0 ++ extra -> nx.has_node g0 n = true ->
  nx.has_node g n = true.
Proof.
  rewrite !has_node_In. intros -> Hn. unfold PyDict.keys.
  rewrite map_app. apply in_or_app. auto.
Qed.

Lemma has_node_del g n k :
  nx.has_node (mkGraph (PyDict.del k (nodes g)) (adj g)) n = true <->
  n <> k /\ nx.has_node g n = true.
Proof. rewrite !has_node_In. simpl. apply In_keys_del. Qed.

(** The two removals that end [merge_nodes], for two different nodes of
    the graph. *)
Lemma remove_both g2 i j :
  i <> j -> nx.has_node g2 i = true -> nx.has_node g2 j = true ->
  (g3 <- nx.remove_node g2 i ;; nx.remove_node g3 j)
  = Done (mkGraph (filter (survives i j) (nodes g2))
                  (filter (fun e => negb (nx.incident j e))
                          (filter (fun e => negb (nx.incident i e)) (adj g2)))).
Proof.
  intros Hij Hi Hj. rewrite (remove_node_done g2 i Hi). simpl.
  rewrite remove_node_done.
  - simpl. rewrite del_del. reflexivity.
  - apply has_node_In. simpl. apply In_keys_del. split; [congruence|].
    apply has_node_In. assumption.
Qed.

Lemma survives_new i j n d :
  n <> i -> n <> j -> survives i j (n, d) = true.
Proof.
  intros Hi Hj. unfold survives. simpl.
  apply Z.eqb_neq in Hi, Hj. rewrite Hi, Hj. reflexivity.
Qed.

(** [merge_nodes] on two different nodes that carry a value, with labels
    not both empty, returns; the other nodes stay, one node is appended. *)
Lemma merge_nodes_returns g i j di dj vi vj :
  wf g -> i <> j ->
  nx.node g i = Some di -> nx.node g j = Some dj ->
  value di = Some vi -> value dj = Some vj ->
  (length (get_label i di) + length (get_label j dj) <> 0)%nat ->
  exists g' m,
    merge_nodes g i j = Done g'
    /\ nx.max_node g = Some m
    /\ nodes g' = filter (survives i j) (nodes g)
                  ++ [((m + 1)%Z, merged_node i j di dj vi vj)].
Proof.
  intros Hwf Hij Hi Hj Hvi Hvj Hlen.
  destruct (merge_nodes_run g i j di dj vi vj Hwf Hi Hj Hvi Hvj Hlen)
    as [m [g1 [g2 [Hm [Hn1 [Ha1 [Hinv Hrun]]]]]]].
  assert (Hni : nx.has_node g i = true) by (apply has_node_node; eauto).
  assert (Hnj : nx.has_node g j = true) by (apply has_node_node; eauto).
  pose proof (max_node_spec g m Hm) as Hmax.
  pose proof (ri_nodes Hinv) as Hn2.
  rewrite remove_both in Hrun; try assumption.
  - eexists. exists m. split; [exact Hrun|]. split; [assumption|].
    simpl. rewrite Hn2, Hn1, filter_app. simpl.
    rewrite survives_new; [reflexivity | |].
    + specialize (Hmax i Hni). lia.
    + specialize (Hmax j Hnj). lia.
  - rewrite (has_node_same_nodes g1 g2 i Hn2).
    apply (has_node_app g1 g _ i Hn1 Hni).
  - rewrite (has_node_same_nodes g1 g2 j Hn2).
    apply (has_node_app g1 g _ j Hn1 Hnj).
Qed.


Lemma edge_value_not_incident (l : list ((Z * Z) * Q)) n x y :
  x <> n -> y <> n ->
  PyDict.get (x, y) (filter (fun e => negb (nx.incident n e)) l)
  = PyDict.get (x, y) l.
Proof.
  intros Hx Hy. apply get_filter_keep. intros w. unfold nx.incident. simpl.
  apply Z.eqb_neq in Hx, Hy. rewrite Hx, Hy. reflexivity.
Qed.

Lemma edge_value_none g x y :
  nx.has_edge g x y = false -> nx.edge_value g x y = None.
Proof.
  unfold nx.has_edge, nx.edge_value, PyDict.mem.
  destruct (PyDict.get (x, y) (adj g)); [discriminate | reflexivity].
Qed.

Lemma total_none_r a : total (total a None) None = a.
Proof. destruct a; reflexivity. Qed.

(** X8: the half of C1 that holds: after [merge_nodes] the edge from the new
    node to a node [x] carries the weights of the edges from [i] and from
    [j] to [x] added up, and so does the edge from [x] to the new node for
    the edges into [i] and [j]; there is such an edge exactly when one of
    the two was there. *)
Theorem merge_nodes_sums_weights g i j di dj vi vj :
  wf g -> i <> j ->
  nx.node g i = Some di -> nx.node g j = Some dj ->
  value di = Some vi -> value dj = Some vj ->
  (length (get_label i di) + length (get_label j dj) <> 0)%nat ->
  exists g' m,
    merge_nodes g i j = Done g'
    /\ nx.max_node g = Some m
    /\ forall x, x <> i -> x <> j ->
         opt_eq (nx.edge_value g' (m + 1) x)
                (total (nx.edge_value g i x) (nx.edge_value g j x))
         /\ opt_eq (nx.edge_value g' x (m + 1))
                   (total (nx.edge_value g x i) (nx.edge_value g x j)).
Proof.
  intros Hwf Hij Hi Hj Hvi Hvj Hlen.
  destruct (merge_nodes_run g i j di dj vi vj Hwf Hi Hj Hvi Hvj Hlen)
    as [m [g1 [g2 [Hm [Hn1 [Ha1 [Hinv Hrun]]]]]]].
  assert (Hni : nx.has_node g i = true) by (apply has_node_node; eauto).
  assert (Hnj : nx.has_node g j = true) by (apply has_node_node; eauto).
  pose proof (max_node_spec g m Hm) as Hmax.
  pose proof (max_node_fresh g m Hm) as Hfresh.
  pose proof (ri_nodes Hinv) as Hn2.
  assert (Hmi : (m + 1)%Z <> i) by (specialize (Hmax i Hni); lia).
  assert (Hmj : (m + 1)%Z <> j) by (specialize (Hmax j Hnj); lia).
  rewrite remove_both in Hrun; try assumption;
    [| rewrite (has_node_same_nodes g1 g2 i Hn2);
       apply (has_node_app g1 g _ i Hn1 Hni)
     | rewrite (has_node_same_nodes g1 g2 j Hn2);
       apply (has_node_app g1 g _ j Hn1 Hnj)].
  eexists. exists m. split; [exact Hrun|]. split; [assumption|].
  assert (Hev1 : forall a b, nx.edge_value g1 a b = nx.edge_value g a b)
    by (intros; unfold nx.edge_value; rewrite Ha1; reflexivity).
  assert (Hgone : forall a b,
             rehome_active i j a || rehome_active i j b = true ->
             nx.edge_value g2 a b = None).
  { intros a b Hact. apply edge_value_none.
    destruct (nx.has_edge g2 a b) eqn:E; [|reflexivity].
    destruct (ri_pending Hinv a b E Hact). }
  assert (Hacti : rehome_active i j i = true)
    by (unfold rehome_active; rewrite Z.eqb_refl; reflexivity).
  assert (Hactj : rehome_active i j j = true)
    by (unfold rehome_active; rewrite Z.eqb_refl; apply orb_true_r).
  destruct (fresh_node_isolated g (m + 1) Hwf Hfresh i) as [Hoi Hio].
  destruct (fresh_node_isolated g (m + 1) Hwf Hfresh j) as [Hoj Hjo].
  intros x Hxi Hxj.
  assert (Hactx : rehome_active i j x = false).
  { unfold rehome_active. apply Z.eqb_neq in Hxi, Hxj. rewrite Hxi, Hxj.
    reflexivity. }
  unfold nx.edge_value at 1 4. simpl.
  rewrite !edge_value_not_incident by assumption.
  fold (nx.edge_value g2 (m + 1) x). fold (nx.edge_value g2 x (m + 1)).
  destruct (Z.eq_dec x (m + 1)) as [->|Hxm].
  - rewrite (ri_loop Hinv).
    rewrite (edge_value_none _ _ _ Hio), (edge_value_none _ _ _ Hjo).
    rewrite (edge_value_none _ _ _ Hoi), (edge_value_none _ _ _ Hoj).
    simpl. auto.
  - pose proof (ri_out Hinv Hij Hxm Hactx) as Hout.
    pose proof (ri_in Hinv Hij Hxm Hactx) as Hin.
    unfold out_total in Hout. unfold in_total in Hin.
    rewrite (Hgone i x), (Hgone j x), total_none_r, !Hev1 in Hout
      by (rewrite ?Hacti, ?Hactj; reflexivity).
    rewrite (Hgone x i), (Hgone x j), total_none_r, !Hev1 in Hin
      by (rewrite ?Hacti, ?Hactj, ?orb_true_r; reflexivity).
    destruct (fresh_node_isolated g (m + 1) Hwf Hfresh x) as [Hox Hxo].
    rewrite (edge_value_none _ _ _ Hox) in Hout.
    rewrite (edge_value_none _ _ _ Hxo) in Hin.
    simpl in Hout, Hin. split; assumption.
Qed.

(** ** Properties kept by every step of a merge *)

Lemma final_state_bind (P : DiGraph -> Prop) (r : run) (k : DiGraph -> run) :
  P (final_state r) ->
  (forall g, r = Done g -> P (final_state (k g))) ->
  P (final_state (bind r k)).
Proof.
  intros Hr Hk. destruct r as [g|e g]; simpl in *; [apply Hk; reflexivity | exact Hr].
Qed.

Section Preserved.
(** A property of the graph that adding a node, adding an edge between
    two different nodes and removing a node keep. *)
Variable P : DiGraph -> Prop.
Hypothesis P_add_node : forall g n attrs, P g -> P (nx.add_node g n attrs).
Hypothesis P_add_edge : forall g u v w, u <> v -> P g -> P (nx.add_edge g u v w).
Hypothesis P_remove_node : forall g n, P g -> P (final_state (nx.remove_node g n)).

Lemma create_cluster_keeps id_mapping g cluster :
  P g -> P (final_state (create_cluster id_mapping g cluster)).
Proof.
  intros Hg. unfold create_cluster. destruct cluster as [|first rest]; [exact Hg|].
  destruct (PyDict.get first id_mapping); [|exact Hg].
  destruct (gather g (first :: rest) acc0); simpl; [|exact Hg].
  apply P_add_node. exact Hg.
Qed.

Lemma move_successor_keeps id_mapping old new g s :
  P g -> P (final_state (move_successor id_mapping old new g s)).
Proof.
  intros Hg. unfold move_successor.
  destruct (mapped id_mapping s =? new)%Z eqn:E; simpl; [exact Hg|].
  apply Z.eqb_neq in E.
  destruct (nx.edge_value g old s); [|exact Hg].
  assert (P (nx.add_edge g new (mapped id_mapping s) q))
    by (apply P_add_edge; [congruence | exact Hg]).
  destruct ((new =? old)%Z && negb (nx.has_edge g old (mapped id_mapping s)));
    simpl; assumption.
Qed.

Lemma move_predecessor_keeps id_mapping old new g p :
  P g -> P (final_state (move_predecessor id_mapping old new g p)).
Proof.
  intros Hg. unfold move_predecessor.
  destruct (mapped id_mapping p =? new)%Z eqn:E; simpl; [exact Hg|].
  apply Z.eqb_neq in E.
  destruct (nx.edge_value g p old); [|exact Hg].
  assert (P (nx.add_edge g (mapped id_mapping p) new q))
    by (apply P_add_edge; [congruence | exact Hg]).
  destruct ((new =? old)%Z && negb (nx.has_edge g (mapped id_mapping p) old));
    simpl; assumption.
Qed.

Lemma reassign_keeps id_mapping g item :
  P g -> P (final_state (reassign id_mapping g item)).
Proof.
  intros Hg. unfold reassign. destruct item as [old new].
  destruct (nx.successors g old) as [succs|e]; [|exact Hg].
  apply final_state_bind.
  - apply fold_run_final; [|exact Hg].
    intros g' s _. apply move_successor_keeps.
  - intros g1 Hg1.
    assert (P g1).
    { change g1 with (final_state (Done g1)). rewrite <- Hg1.
      apply fold_run_final; [|exact Hg].
      intros g' s _. apply move_successor_keeps. }
    destruct (nx.predecessors g1 old) as [preds|e]; [|assumption].
    apply final_state_bind.
    + apply fold_run_final; [|assumption].
      intros g' s _. apply move_predecessor_keeps.
    + intros g2 Hg2. apply P_remove_node.
      change g2 with (final_state (Done g2)). rewrite <- Hg2.
      apply fold_run_final; [|assumption].
      intros g' s _. apply move_predecessor_keeps.
Qed.

Lemma merge_clusters_keeps set_iter g clusters :
  P g -> P (final_state (merge_clusters set_iter g clusters)).
Proof.
  intros Hg. unfold merge_clusters.
  destruct (cluster_plan set_iter g clusters) as [[id_mapping clusters_list]|e];
    [|exact Hg].
  apply final_state_bind.
  - apply fold_run_final; [|exact Hg].
    intros g' c _. apply create_cluster_keeps.
  - intros g1 Hg1. apply fold_run_final.
    + intros g' item _. apply reassign_keeps.
    + change g1 with (final_state (Done g1)). rewrite <- Hg1.
      apply fold_run_final; [|exact Hg].
      intros g' c _. apply create_cluster_keeps.
Qed.

Lemma merge_by_intervals_keeps set_iter g intervals :
  P g -> P (final_state (merge_by_intervals set_iter g intervals)).
Proof.
  intros Hg. unfold merge_by_intervals.
  destruct (negb (forallb _ intervals)); [exact Hg|].
  destruct (negb (nonempty intervals)); [exact Hg|].
  destruct (nonempty (map set_iter _)); [|exact Hg].
  apply merge_clusters_keeps. exact Hg.
Qed.
End Preserved.

Lemma wf_merge_clusters set_iter g clusters :
  wf g -> wf (final_state (merge_clusters set_iter g clusters)).
Proof.
  apply merge_clusters_keeps.
  - intros; apply wf_add_node; assumption.
  - intros; apply wf_add_edge; assumption.
  - intros; apply wf_remove_node; assumption.
Qed.

Lemma wf_after_removals g2 i j :
  wf g2 -> wf (final_state (g3 <- nx.remove_node g2 i ;; nx.remove_node g3 j)).
Proof.
  intros Hwf. apply final_state_bind.
  - apply wf_remove_node. assumption.
  - intros g3 Hg3. apply wf_remove_node.
    change g3 with (final_state (Done g3)). rewrite <- Hg3.
    apply wf_remove_node. assumption.
Qed.

Lemma wf_merge_nodes g i j : wf g -> wf (final_state (merge_nodes g i j)).
Proof.
  intros Hwf. destruct (merge_nodes_early g i j) as [[e He]|Hrun].
  - rewrite He. exact Hwf.
  - destruct Hrun as [di [dj [vi [vj [Hi [Hj [Hvi [Hvj Hlen]]]]]]]].
    destruct (merge_nodes_run g i j di dj vi vj Hwf Hi Hj Hvi Hvj Hlen)
      as [m [g1 [g2 [Hm [Hn1 [Ha1 [Hinv Hrun]]]]]]].
    rewrite Hrun. apply wf_after_removals. apply (ri_wf Hinv).
Qed.

Lemma wf_apply_op set_iter g op :
  wf g -> wf (final_state (apply_op set_iter g op)).
Proof.
  intros Hwf. destruct op as [i j|clusters|intervals]; simpl.
  - apply wf_merge_nodes. assumption.
  - apply wf_merge_clusters. assumption.
  - apply merge_by_intervals_keeps; try assumption.
    + intros; apply wf_add_node; assumption.
    + intros; apply wf_add_edge; assumption.
    + intros; apply wf_remove_node; assumption.
Qed.

(** ** Self-loops *)

Section SelfLoops.
Variable g : DiGraph.

Lemma loops_add_node g' n attrs :
  loops_from g g' -> loops_from g (nx.add_node g' n attrs).
Proof. intros H u. apply H. Qed.

Lemma loops_add_edge g' a b w :
  a <> b -> loops_from g g' -> loops_from g (nx.add_edge g' a b w).
Proof.
  intros Hab H u. rewrite has_edge_add_edge.
  destruct (eq_dec (a, b) (u, u)) as [E|_]; [congruence | apply H].
Qed.

Lemma loops_remove_node g' n :
  loops_from g g' -> loops_from g (final_state (nx.remove_node g' n)).
Proof. intros H u Hu. apply H. eapply has_edge_remove_node. exact Hu. Qed.

Lemma loops_merge_nodes i j :
  wf g -> loops_from g (final_state (merge_nodes g i j)).
Proof.
  intros Hwf. destruct (merge_nodes_early g i j) as [[e He]|Hrun].
  - rewrite He. intros u Hu. exact Hu.
  - destruct Hrun as [di [dj [vi [vj [Hi [Hj [Hvi [Hvj Hlen]]]]]]]].
    destruct (merge_nodes_run g i j di dj vi vj Hwf Hi Hj Hvi Hvj Hlen)
      as [m [g1 [g2 [Hm [Hn1 [Ha1 [Hinv Hrun]]]]]]].
    rewrite Hrun.
    assert (H2 : loops_from g g2).
    { intros u Hu. destruct (Z.eq_dec u (m + 1)) as [->|Hne].
      - apply has_edge_value in Hu. destruct Hu as [w Hw].
        rewrite (ri_loop Hinv) in Hw. discriminate.
      - pose proof (ri_old Hinv Hne Hne Hu) as H1.
        unfold nx.has_edge in *. rewrite Ha1 in H1. exact H1. }
    apply final_state_bind.
    + apply loops_remove_node. exact H2.
    + intros g3 Hg3. apply loops_remove_node.
      change g3 with (final_state (Done g3)). rewrite <- Hg3.
      apply loops_remove_node. exact H2.
Qed.
End SelfLoops.

(** C5, as the code has it: no merge operation creates a self-loop.  When
    the call is over, whether it returned or raised, every self-loop of the
    graph is one that was there before the call; a graph without self-loops
    has none afterwards. *)
Theorem merge_creates_no_self_loop set_iter g op :
  wf g ->
  loops_from g (final_state (apply_op set_iter g op))
  /\ (no_self_loops g -> no_self_loops (final_state (apply_op set_iter g op))).
Proof.
  intros Hwf.
  assert (H : loops_from g (final_state (apply_op set_iter g op))).
  { destruct op as [i j|clusters|intervals]; simpl.
    - apply loops_merge_nodes. assumption.
    - apply merge_clusters_keeps.
      + intros; apply loops_add_node; assumption.
      + intros; apply loops_add_edge; assumption.
      + intros; apply loops_remove_node; assumption.
      + intros u Hu; exact Hu.
    - apply merge_by_intervals_keeps.
      + intros; apply loops_add_node; assumption.
      + intros; apply loops_add_edge; assumption.
      + intros; apply loops_remove_node; assumption.
      + intros u Hu; exact Hu. }
  split; [exact H|].
  intros Hno u. destruct (nx.has_edge _ u u) eqn:E; [|reflexivity].
  apply H in E. rewrite Hno in E. discriminate.
Qed.

(** ** simplify_graph_one_iteration *)

Lemma Qltb_true a b : Qltb a b = true <-> (a < b)%Q.
Proof.
  unfold Qltb. rewrite negb_true_iff. split.
  - intros H. apply Qnot_le_lt. intros Hle.
    apply Qle_bool_iff in Hle. congruence.
  - intros H. destruct (Qle_bool b a) eqn:E; [|reflexivity].
    apply Qle_bool_iff in E. exfalso. apply (Qlt_not_le _ _ H E).
Qed.

Lemma Qltb_false a b : Qltb a b = false <-> (b <= a)%Q.
Proof.
  unfold Qltb. rewrite negb_false_iff. apply Qle_bool_iff.
Qed.

(** The scan keeps the best pair so far and replaces it only by a pair
    that scores strictly more. *)
Lemma best_pair_spec (sim : Z -> Z -> result Q) (pairs : list (Z * Z)) :
  (forall q, In q pairs -> exists s, sim (fst q) (snd q) = Ok s) ->
  forall b0 p0,
  exists b p,
    best_pair sim pairs (b0, p0) = Ok (b, p)
    /\ ((p = p0 /\ b = b0
         /\ forall q s, In q pairs -> sim (fst q) (snd q) = Ok s -> (s <= b0)%Q)
        \/ (exists q, p = Some q /\ first_best sim pairs q b /\ (b0 < b)%Q)).
Proof.
  induction pairs as [|[i j] rest IH]; intros Hok b0 p0.
  - exists b0, p0. split; [reflexivity|]. left.
    split; [reflexivity|]. split; [reflexivity|]. intros q s [].
  - destruct (Hok (i, j) (or_introl eq_refl)) as [s Hs]. simpl in Hs.
    assert (Hok' : forall q, In q rest -> exists s, sim (fst q) (snd q) = Ok s)
      by (intros q Hq; apply Hok; right; exact Hq).
    simpl. rewrite Hs. destruct (Qltb b0 s) eqn:Elt.
    + apply Qltb_true in Elt.
      destruct (IH Hok' s (Some (i, j))) as [b [p [Hrun Hcase]]].
      exists b, p. split; [exact Hrun|]. right.
      destruct Hcase as [[-> [-> Hall]]|[q [-> [Hfb Hlt]]]].
      * exists (i, j). split; [reflexivity|]. split; [|exact Elt].
        exists [], rest. split; [reflexivity|]. split; [exact Hs|].
        split; [intros q []|].
        intros q Hq. destruct (Hok' q Hq) as [s' Hs'].
        exists s'. split; [exact Hs' | eapply Hall; eauto].
      * exists q. split; [reflexivity|].
        split; [|eapply Qlt_trans; eauto].
        destruct Hfb as [before [after [Hsplit [Hq [Hbefore Hafter]]]]].
        exists ((i, j) :: before), after.
        split; [rewrite Hsplit; reflexivity|]. split; [exact Hq|].
        split; [|exact Hafter].
        intros q' [<-|Hq']; [exists s; auto | auto].
    + apply Qltb_false in Elt.
      destruct (IH Hok' b0 p0) as [b [p [Hrun Hcase]]].
      exists b, p. split; [exact Hrun|].
      destruct Hcase as [[-> [-> Hall]]|[q [-> [Hfb Hlt]]]].
      * left. split; [reflexivity|]. split; [reflexivity|].
        intros q s' [<-|Hq] Hs'; [simpl in Hs'; congruence | eapply Hall; eauto].
      * right. exists q. split; [reflexivity|]. split; [|exact Hlt].
        destruct Hfb as [before [after [Hsplit [Hq [Hbefore Hafter]]]]].
        exists ((i, j) :: before), after.
        split; [rewrite Hsplit; reflexivity|]. split; [exact Hq|].
        split; [|exact Hafter].
        intros q' [<-|Hq']; [|auto].
        exists s. split; [exact Hs|]. eapply Qle_lt_trans; eauto.
Qed.

(** C2, as the code has it.  Once the labels are initialised (graph [g0]):
    with at most one node nothing is merged; with two nodes or more the
    scores of all pairs are computed in the order of [combinations] and the
    first pair that reaches the greatest score is merged, provided that
    score is above -1; when no score is above -1 nothing is merged, which
    is what happens when no two nodes are adjacent (every pair scores the
    sentinel -2). *)
Theorem simplify_merges_first_best_above_threshold
  (self_similarity : similarity_fn) (g g0 : DiGraph) :
  init_labels g = Done g0 ->
  (forall q, In q (combinations2 (PyDict.keys (nodes g0))) ->
     exists s, compute_similarity self_similarity g0 (fst q) (snd q) None = Ok s) ->
  let pairs := combinations2 (PyDict.keys (nodes g0)) in
  let score := fun i j => compute_similarity self_similarity g0 i j None in
  ((nx.number_of_nodes g0 <= 1)%nat ->
     simplify_graph_one_iteration self_similarity g = Done g0)
  /\ ((2 <= nx.number_of_nodes g0)%nat ->
        (exists p s,
            first_best score pairs p s /\ (-1 < s)%Q
            /\ simplify_graph_one_iteration self_similarity g
               = merge_nodes g0 (fst p) (snd p))
        \/ ((forall q s, In q pairs -> score (fst q) (snd q) = Ok s ->
               (s <= -1)%Q)
            /\ simplify_graph_one_iteration self_similarity g = Done g0))
  /\ ((2 <= nx.number_of_nodes g0)%nat ->
        (forall i j, nx.has_edge g0 i j = false) ->
        simplify_graph_one_iteration self_similarity g = Done g0).
Proof.
  intros Hinit Hok pairs score.
  assert (Hmain : (2 <= nx.number_of_nodes g0)%nat ->
        (exists p s,
            first_best score pairs p s /\ (-1 < s)%Q
            /\ simplify_graph_one_iteration self_similarity g
               = merge_nodes g0 (fst p) (snd p))
        \/ ((forall q s, In q pairs -> score (fst q) (snd q) = Ok s ->
               (s <= -1)%Q)
            /\ simplify_graph_one_iteration self_similarity g = Done g0)).
  { intros Hn. unfold simplify_graph_one_iteration. rewrite Hinit. simpl.
    destruct (nx.number_of_nodes g0 <=? 1)%nat eqn:E;
      [apply Nat.leb_le in E; lia|].
    destruct (best_pair_spec score pairs Hok (-1 # 1)%Q None)
      as [b [p [Hrun Hcase]]].
    fold score. fold pairs. rewrite Hrun.
    destruct Hcase as [[-> [-> Hall]]|[[i j] [-> [Hfb Hlt]]]].
    - right. split; [exact Hall | reflexivity].
    - left. exists (i, j), b. auto. }
  split; [|split; [exact Hmain|]].
  - intros Hn. unfold simplify_graph_one_iteration. rewrite Hinit. simpl.
    apply Nat.leb_le in Hn. rewrite Hn. reflexivity.
  - intros Hn Hnone. destruct (Hmain Hn) as [[p [s [Hfb [Hlt _]]]]|[_ Hrun]];
      [|exact Hrun].
    exfalso. destruct Hfb as [before [after [_ [Hs _]]]].
    unfold score, compute_similarity in Hs. rewrite !Hnone in Hs.
    simpl in Hs. inversion Hs; subst. apply (Qlt_not_le _ _ Hlt).
    unfold Qle. simpl. lia.
Qed.

(** ** merge_clusters: the plan *)

Lemma keys_app {K V : Type} (a b : list (K * V)) :
  PyDict.keys (a ++ b) = PyDict.keys a ++ PyDict.keys b.
Proof. apply map_app. Qed.

Lemma keys_map_tag (c : list Z) (n : Z) :
  PyDict.keys (map (fun x => (x, n)) c) = c.
Proof.
  unfold PyDict.keys. rewrite map_map. simpl. apply map_id.
Qed.

Lemma keys_tagged s cs : PyDict.keys (tagged s cs) = concat cs.
Proof.
  revert s. induction cs as [|c cs IH]; intros s; simpl; [reflexivity|].
  rewrite keys_app, keys_map_tag, IH. reflexivity.
Qed.

Lemma assign_cluster_spec g n c :
  forall m0 m,
    assign_cluster g n c m0 = Ok m ->
    m = m0 ++ map (fun x => (x, n)) c
    /\ (forall x, In x c -> nx.has_node g x = true /\ ~ In x (PyDict.keys m0))
    /\ NoDup c.
Proof.
  induction c as [|x c IH]; intros m0 m Hrun; simpl in Hrun.
  - inversion Hrun; subst. rewrite app_nil_r.
    split; [reflexivity|]. split; [intros x []|constructor].
  - destruct (nx.has_node g x) eqn:Hx; simpl in Hrun; [|discriminate].
    destruct (PyDict.mem x m0) eqn:Hm; simpl in Hrun; [discriminate|].
    apply mem_false_iff in Hm.
    rewrite (set_absent _ _ _ Hm) in Hrun.
    destruct (IH _ _ Hrun) as [Hm' [Hall Hnd]].
    split; [rewrite Hm', <- app_assoc; reflexivity|].
    assert (Hfresh : forall y, In y c -> y <> x /\ ~ In y (PyDict.keys m0)).
    { intros y Hy. destruct (Hall y Hy) as [_ Hn].
      rewrite keys_app, in_app_iff in Hn. simpl in Hn. split; intuition. }
    split.
    + intros y [<-|Hy]; [auto|].
      destruct (Hall y Hy). destruct (Hfresh y Hy). auto.
    + constructor; [|exact Hnd]. intros Hin. destruct (Hfresh x Hin). congruence.
Qed.

Lemma assign_clusters_spec g cs :
  forall s m0 m,
    assign_clusters g s cs m0 = Ok m ->
    m = m0 ++ tagged s cs
    /\ (forall x, In x (concat cs) ->
          nx.has_node g x = true /\ ~ In x (PyDict.keys m0))
    /\ NoDup (concat cs).
Proof.
  induction cs as [|c cs IH]; intros s m0 m Hrun; simpl in Hrun.
  - inversion Hrun; subst. simpl. rewrite app_nil_r.
    split; [reflexivity|]. split; [intros x []|constructor].
  - destruct (assign_cluster g s c m0) as [m1|e] eqn:Hc; [|discriminate].
    destruct (assign_cluster_spec _ _ _ _ _ Hc) as [Hm1 [Hall1 Hnd1]].
    destruct (IH _ _ _ Hrun) as [Hm [Hall Hnd]].
    split; [rewrite Hm, Hm1; simpl; rewrite <- app_assoc; reflexivity|].
    assert (Hrest : forall y, In y (concat cs) ->
                              ~ In y c /\ ~ In y (PyDict.keys m0)).
    { intros y Hy. destruct (Hall y Hy) as [_ Hn].
      rewrite Hm1, keys_app, keys_map_tag, in_app_iff in Hn. tauto. }
    split.
    + intros y Hy. simpl in Hy. apply in_app_iff in Hy.
      destruct Hy as [Hy|Hy]; [apply Hall1; exact Hy|].
      split; [apply Hall; exact Hy | apply Hrest; exact Hy].
    + simpl. apply NoDup_app; try assumption.
      intros y Hy Hy'. destruct (Hrest y Hy'). contradiction.
Qed.

(** The only exception of the list branch comes from its assertion. *)
Lemma assign_clusters_err g cs :
  forall s m0 e, assign_clusters g s cs m0 = Err e -> e = AssertionError.
Proof.
  assert (Hc : forall n c m0 e, assign_cluster g n c m0 = Err e -> e = AssertionError).
  { intros n c. induction c as [|x c IH]; intros m0 e Hrun; simpl in Hrun;
      [discriminate|].
    destruct (nx.has_node g x && negb (PyDict.mem x m0)); [eauto | congruence]. }
  induction cs as [|c cs IH]; intros s m0 e Hrun; simpl in Hrun; [discriminate|].
  destruct (assign_cluster g s c m0) eqn:E; [eauto|].
  inversion Hrun; subst. eauto.
Qed.

Lemma In_fresh_ids n : forall s x, In x (fresh_ids s n) -> (s <= x)%Z.
Proof.
  induction n as [|n IH]; intros s x; simpl; [tauto|].
  intros [<-|Hx]; [lia|]. apply IH in Hx. lia.
Qed.

Lemma NoDup_fresh_ids n : forall s, NoDup (fresh_ids s n).
Proof.
  induction n as [|n IH]; intros s; simpl; constructor; [|apply IH].
  intros Hin. apply In_fresh_ids in Hin. lia.
Qed.

Lemma tagged_news cs :
  forall s,
    Forall2 (fun c n => forall x, In x c -> In (x, n) (tagged s cs))
            cs (fresh_ids s (length cs)).
Proof.
  induction cs as [|c cs IH]; intros s; simpl; constructor.
  - intros x Hx. apply in_or_app. left. apply in_map_iff. eauto.
  - eapply Forall2_impl; [|apply IH]. simpl.
    intros c' n H x Hx. apply in_or_app. right. auto.
Qed.

(** A list argument that passes the assertions gives a plan as above. *)
Lemma plan_ok_list set_iter g cs id_mapping clusters_list :
  cluster_plan set_iter g (ClustersList cs) = Ok (id_mapping, clusters_list) ->
  exists m,
    nx.max_node g = Some m
    /\ clusters_list = cs
    /\ id_mapping = tagged (m + 1) cs
    /\ plan_ok g id_mapping cs (fresh_ids (m + 1) (length cs)).
Proof.
  unfold cluster_plan. destruct (nx.max_node g) as [m|] eqn:Hm; [|discriminate].
  destruct (assign_clusters g (m + 1) cs []) as [im|e] eqn:Hrun; [|discriminate].
  intros E. injection E as <- <-.
  destruct (assign_clusters_spec _ _ _ _ _ Hrun) as [Him [Hall Hnd]].
  simpl in Him. subst im.
  exists m. split; [reflexivity|]. split; [reflexivity|]. split; [reflexivity|].
  assert (Hk : NoDup (PyDict.keys (tagged (m + 1) cs)))
    by (rewrite keys_tagged; exact Hnd).
  constructor.
  - exact Hk.
  - intros o Ho. rewrite keys_tagged in Ho. apply Hall. exact Ho.
  - eapply Forall2_impl; [|apply tagged_news]. simpl.
    intros c n H x Hx. apply In_get; [exact Hk | auto].
  - apply NoDup_fresh_ids.
  - intros n Hn. apply In_fresh_ids in Hn.
    destruct (nx.has_node g n) eqn:E; [|reflexivity].
    pose proof (max_node_spec g m Hm n E). lia.
  - rewrite keys_tagged. apply Permutation_refl.
Qed.

(** X19: the part of C4 that holds: a list argument that names an id that is
    not a node of the graph, or names an id twice, makes the call raise
    before anything is written; the graph is as it was.  (On an empty graph
    the exception is that of [max], else that of the assertion.) *)
Lemma merge_clusters_list_validates set_iter g cs :
  ~ ((forall x, In x (concat cs) -> nx.has_node g x = true)
     /\ NoDup (concat cs)) ->
  merge_clusters set_iter g (ClustersList cs)
  = Raised (match nx.max_node g with
            | None => ValueError
            | Some _ => AssertionError
            end) g.
Proof.
  intros Hbad. unfold merge_clusters, cluster_plan.
  destruct (nx.max_node g) as [m|]; [|reflexivity].
  destruct (assign_clusters g (m + 1) cs []) as [im|e] eqn:Hrun.
  - exfalso. apply Hbad.
    destruct (assign_clusters_spec _ _ _ _ _ Hrun) as [_ [Hall Hnd]].
    split; [intros x Hx; apply Hall; exact Hx | exact Hnd].
  - rewrite (assign_clusters_err _ _ _ _ _ Hrun). reflexivity.
Qed.

Lemma fold_set_inv (P : list (Z * Z) -> Prop) (n : Z) (olds : list Z) :
  (forall m o, In o olds -> P m -> P (PyDict.set o n m)) ->
  forall m, P m -> P (fold_left (fun m old => PyDict.set old n m) olds m).
Proof.
  induction olds as [|o olds IH]; intros Hstep m Hm; simpl; [exact Hm|].
  apply IH.
  - intros m' o' Ho'. apply Hstep. right. exact Ho'.
  - apply Hstep; [left; reflexivity | exact Hm].
Qed.

Lemma dict_mapping_inv (P : list (Z * Z) -> Prop) (d : list (Z * list Z)) :
  (forall m n olds o, In (n, olds) d -> In o olds -> P m -> P (PyDict.set o n m)) ->
  P [] -> P (dict_mapping d).
Proof.
  unfold dict_mapping. generalize (@nil (Z * Z)).
  induction d as [|[n olds] d IH]; intros m0 Hstep Hm; simpl; [exact Hm|].
  apply IH.
  - intros m n' olds' o Hin. apply Hstep. right. exact Hin.
  - apply fold_set_inv; [|exact Hm].
    intros m o Ho. apply (Hstep m n olds o); [left; reflexivity | exact Ho].
Qed.

Lemma dict_mapping_nodup d : NoDup (PyDict.keys (dict_mapping d)).
Proof.
  apply (dict_mapping_inv (fun m => NoDup (PyDict.keys m))).
  - intros. apply NoDup_keys_set. assumption.
  - constructor.
Qed.

Lemma dict_mapping_source d :
  forall o n, In (o, n) (dict_mapping d) ->
    exists olds, In (n, olds) d /\ In o olds.
Proof.
  apply (dict_mapping_inv
           (fun m => forall o n, In (o, n) m ->
                       exists olds, In (n, olds) d /\ In o olds)).
  - intros m n olds o Hin Ho Hm o' n' Hin'.
    apply In_set in Hin'. destruct Hin' as [[-> ->]|Hin']; eauto.
  - intros o n [].
Qed.

Lemma Forall2_map_l {A B : Type} (R : B -> A -> Prop) (f : A -> B) (l : list A) :
  (forall a, In a l -> R (f a) a) -> Forall2 R (map f l) l.
Proof.
  induction l as [|a l IH]; intros H; simpl; constructor.
  - apply H. left. reflexivity.
  - apply IH. intros a' Ha'. apply H. right. exact Ha'.
Qed.

Lemma In_group (m : list (Z * Z)) (n x : Z) :
  In x (map fst (filter (fun om => (snd om =? n)%Z) m)) <-> In (x, n) m.
Proof.
  rewrite in_map_iff. split.
  - intros [[o n'] [Hx Hin]]. simpl in Hx. subst o.
    apply filter_In in Hin. destruct Hin as [Hin Hn]. simpl in Hn.
    apply Z.eqb_eq in Hn. subst. exact Hin.
  - intros Hin. exists (x, n). split; [reflexivity|].
    apply filter_In. split; [exact Hin | simpl; apply Z.eqb_refl].
Qed.

(** A dictionary argument with new ids that are not in the graph and old
    ids that are gives a plan as above, whatever the order of the sets. *)
Lemma plan_ok_dict set_iter g d :
  set_order set_iter -> dict_fresh g d ->
  plan_ok g (dict_mapping d) (dict_clusters set_iter (dict_mapping d))
          (set_iter (map snd (dict_mapping d))).
Proof.
  intros Hset Hfresh.
  pose proof (dict_mapping_nodup d) as Hnd.
  pose proof (dict_mapping_source d) as Hsrc.
  set (m := dict_mapping d) in *.
  assert (Hget : forall x n, In (x, n) m <-> PyDict.get x m = Some n).
  { intros x n. split; [apply In_get; exact Hnd | apply get_Some_In]. }
  assert (Hcl : forall n x,
             In x (set_iter (map fst (filter (fun om => (snd om =? n)%Z) m)))
             <-> In (x, n) m).
  { intros n x. destruct (Hset (map fst (filter (fun om => (snd om =? n)%Z) m)))
      as [_ Hiff]. rewrite Hiff. apply In_group. }
  assert (Hnews : forall n, In n (set_iter (map snd m)) <-> exists o, In (o, n) m).
  { intros n. destruct (Hset (map snd m)) as [_ Hiff]. rewrite Hiff.
    rewrite in_map_iff. split.
    - intros [[o n'] [E Hin]]. simpl in E. subst. eauto.
    - intros [o Hin]. exists (o, n). auto. }
  constructor.
  - exact Hnd.
  - intros o Ho. unfold PyDict.keys in Ho. apply in_map_iff in Ho.
    destruct Ho as [[o' n] [E Hin]]. simpl in E. subst o'.
    destruct (Hsrc o n Hin) as [olds [Hd Ho]].
    destruct (Hfresh n olds Hd) as [_ Hall]. auto.
  - unfold dict_clusters. apply Forall2_map_l.
    intros n _ x Hx. apply Hget, Hcl. exact Hx.
  - apply Hset.
  - intros n Hn. apply Hnews in Hn. destruct Hn as [o Hin].
    destruct (Hsrc o n Hin) as [olds [Hd Ho]].
    destruct (Hfresh n olds Hd) as [Hf _]. exact Hf.
  - apply NoDup_Permutation.
    + unfold dict_clusters. rewrite <- flat_map_concat_map.
      apply NoDup_flat_map.
      * apply Hset.
      * intros n _. apply Hset.
      * intros n n' x _ _ Hx Hx'. apply Hcl, Hget in Hx. apply Hcl, Hget in Hx'.
        congruence.
    + exact Hnd.
    + intros x. unfold dict_clusters. rewrite <- flat_map_concat_map, in_flat_map.
      split.
      * intros [n [_ Hx]]. apply Hcl in Hx.
        apply (in_map fst) in Hx. exact Hx.
      * intros Hx. unfold PyDict.keys in Hx. apply in_map_iff in Hx.
        destruct Hx as [[x' n] [E Hin]]. simpl in E. subst x'.
        exists n. split; [apply Hnews; eauto | apply Hcl; exact Hin].
Qed.

(** Consequences of a plan. *)

Lemma plan_value_new g m cl news :
  plan_ok g m cl news ->
  forall o n, In (o, n) m -> In n news.
Proof.
  intros Hp o n Hin.
  assert (Ho : In o (concat cl)).
  { apply (Permutation_in _ (Permutation_sym (po_perm Hp))).
    apply (in_map fst) in Hin. exact Hin. }
  apply in_concat in Ho. destruct Ho as [c [Hc Hoc]].
  pose proof (po_news Hp) as HF.
  pose proof (In_get _ _ _ (po_keys_nodup Hp) Hin) as Hget.
  clear - HF Hc Hoc Hget.
  induction HF as [|c' n' cl news Hcn HF IH]; [destruct Hc|].
  destruct Hc as [->|Hc].
  - left. specialize (Hcn o Hoc). congruence.
  - right. apply IH. exact Hc.
Qed.

Lemma plan_value_not_key g m cl news :
  plan_ok g m cl news ->
  forall o n, In (o, n) m -> ~ In n (PyDict.keys m).
Proof.
  intros Hp o n Hin Hk.
  pose proof (po_news_fresh Hp n (plan_value_new g m cl news Hp o n Hin)) as Hf.
  rewrite (po_keys_in Hp n Hk) in Hf. discriminate.
Qed.

(** ** merge_clusters: the new nodes *)

Lemma gather_ext g1 g2 c :
  (forall x, In x c -> nx.node g1 x = nx.node g2 x) ->
  forall a, gather g1 c a = gather g2 c a.
Proof.
  induction c as [|x c IH]; intros Hext a; simpl; [reflexivity|].
  rewrite (Hext x (or_introl eq_refl)).
  destruct (nx.node g2 x); [|reflexivity].
  apply IH. intros y Hy. apply Hext. right. exact Hy.
Qed.

Lemma gather_labels g c :
  forall a0 a, gather g c a0 = Ok a ->
    acc_labels a = acc_labels a0 ++ flat_map (node_label g) c.
Proof.
  induction c as [|x c IH]; intros a0 a Hrun; simpl in Hrun.
  - inversion Hrun; subst. simpl. rewrite app_nil_r. reflexivity.
  - destruct (nx.node g x) as [d|] eqn:Hx; [|discriminate].
    rewrite (IH _ _ Hrun). cbn [acc_labels flat_map].
    assert (Hl : node_label g x = get_label x d)
      by (unfold node_label; rewrite Hx; reflexivity).
    rewrite Hl, <- app_assoc. reflexivity.
Qed.












Lemma get_app_l {K V : Type} `{EqDec K} (k : K) (a b : list (K * V)) :
  In k (PyDict.keys a) -> PyDict.get k (a ++ b) = PyDict.get k a.
Proof.
  induction a as [|[k' v'] a IH]; simpl; [tauto|].
  intros Hin. destruct (eq_dec k k') as [->|Hne]; [reflexivity|].
  apply IH. destruct Hin; congruence.
Qed.

Lemma node_app_l g gc extra x :
  nodes gc = nodes g ++ extra -> nx.has_node g x = true ->
  nx.node gc x = nx.node g x.
Proof.
  intros Hn Hx. unfold nx.node. rewrite Hn. apply get_app_l.
  apply has_node_In. exact Hx.
Qed.

Lemma create_cluster_inv m gc c g' :
  create_cluster m gc c = Done g' ->
  exists first rest n a,
    c = first :: rest
    /\ PyDict.get first m = Some n
    /\ gather gc c acc0 = Ok a
    /\ g' = nx.add_node gc n (cluster_node a).
Proof.
  unfold create_cluster. destruct c as [|first rest]; [discriminate|].
  destruct (PyDict.get first m) as [n|] eqn:Hn; [|discriminate].
  destruct (gather gc (first :: rest) acc0) as [a|e] eqn:Ha; [|discriminate].
  intros E. inversion E; subst. exists first, rest, n, a. auto.
Qed.


(** With a plan as above the loop that creates the nodes appends one node
    for each cluster, with the labels of its members. *)
Lemma create_loop_nodes g m :
  forall cl news,
    Forall2 (fun c n => forall x, In x c -> PyDict.get x m = Some n) cl news ->
    forall gc g1,
      NoDup news ->
      (forall n, In n news -> nx.has_node gc n = false) ->
      (forall x, In x (concat cl) -> nx.has_node g x = true) ->
      (exists extra0, nodes gc = nodes g ++ extra0) ->
      fold_run (create_cluster m) cl gc = Done g1 ->
      exists extra,
        nodes g1 = nodes gc ++ extra
        /\ adj g1 = adj gc
        /\ PyDict.keys extra = news
        /\ flat_map (fun nd => get_label (fst nd) (snd nd)) extra
           = flat_map (node_label g) (concat cl).
Proof.
  induction 1 as [|c n cl news Hcn HF IH];
    intros gc g1 Hnd Hfresh Hmem [extra0 Hgc] Hrun; simpl in Hrun.
  - inversion Hrun; subst. exists []. rewrite app_nil_r. auto.
  - destruct (create_cluster m gc c) as [g'|e g'] eqn:Hc; simpl in Hrun;
      [|discriminate].
    destruct (create_cluster_inv _ _ _ _ Hc)
      as [first [rest [n' [a [Ec [Hget [Hg ->]]]]]]].
    assert (n' = n).
    { specialize (Hcn first). rewrite Ec in Hcn.
      specialize (Hcn (or_introl eq_refl)). congruence. }
    subst n'. inversion Hnd as [|? ? Hnotin Hnd']; subst.
    assert (Hn : nodes (nx.add_node gc n (cluster_node a))
                 = nodes gc ++ [(n, update_attrs no_attrs (cluster_node a))]).
    { apply add_node_fresh. apply Hfresh. left. reflexivity. }
    destruct (IH (nx.add_node gc n (cluster_node a)) g1 Hnd')
      as [extra [Hn1 [Ha1 [Hk1 Hl1]]]].
    + intros n' Hn'. rewrite <- not_true_iff_false, has_node_In, Hn.
      rewrite keys_app, in_app_iff. simpl. intros [Hin|[->|[]]].
      * apply has_node_In in Hin. rewrite Hfresh in Hin; [discriminate|].
        right. exact Hn'.
      * contradiction.
    + intros x Hx. apply Hmem. rewrite concat_cons.
      apply in_or_app. right. exact Hx.
    + exists (extra0 ++ [(n, update_attrs no_attrs (cluster_node a))]).
      rewrite Hn, Hgc, app_assoc. reflexivity.
    + exact Hrun.
    + exists ((n, update_attrs no_attrs (cluster_node a)) :: extra).
      split; [rewrite Hn1, Hn, <- app_assoc; reflexivity|].
      split; [rewrite Ha1; reflexivity|].
      split; [simpl; rewrite Hk1; reflexivity|].
      rewrite concat_cons, flat_map_app. cbn [flat_map fst snd].
      rewrite Hl1. f_equal.
      assert (Hext : gather gc (first :: rest) acc0 = gather g (first :: rest) acc0).
      { apply gather_ext. intros x Hx. apply (node_app_l g gc extra0 x Hgc).
        apply Hmem. rewrite concat_cons. apply in_or_app. left. exact Hx. }
      rewrite Hext in Hg.
      pose proof (gather_labels g (first :: rest) acc0 a Hg) as Hl.
      simpl in Hl. rewrite <- Hl. reflexivity.
Qed.

(** ** merge_clusters: moving the edges *)

Lemma mapped_node g m s :
  (forall x n, In (x, n) m -> nx.has_node g n = true) ->
  nx.has_node g s = true -> nx.has_node g (mapped m s) = true.
Proof.
  intros Hval Hs. unfold mapped. destruct (PyDict.get s m) as [n|] eqn:E;
    [|exact Hs].
  apply (Hval s n). apply get_Some_In. exact E.
Qed.

Lemma move_successor_nodes m o n g s :
  wf g -> nx.has_node g n = true -> nx.has_node g (mapped m s) = true ->
  wf (final_state (move_successor m o n g s))
  /\ nodes (final_state (move_successor m o n g s)) = nodes g.
Proof.
  intros Hwf Hn Hs. unfold move_successor.
  destruct (negb (mapped m s =? n)%Z); [|auto].
  destruct (nx.edge_value g o s) as [w|]; [|auto].
  assert (H : wf (nx.add_edge g n (mapped m s) w)
              /\ nodes (nx.add_edge g n (mapped m s) w) = nodes g)
    by (split; [apply wf_add_edge; assumption
               | apply nodes_add_edge_present; assumption]).
  destruct ((n =? o)%Z && negb (nx.has_edge g o (mapped m s))); exact H.
Qed.

Lemma move_predecessor_nodes m o n g p :
  wf g -> nx.has_node g n = true -> nx.has_node g (mapped m p) = true ->
  wf (final_state (move_predecessor m o n g p))
  /\ nodes (final_state (move_predecessor m o n g p)) = nodes g.
Proof.
  intros Hwf Hn Hs. unfold move_predecessor.
  destruct (negb (mapped m p =? n)%Z); [|auto].
  destruct (nx.edge_value g p o) as [w|]; [|auto].
  assert (H : wf (nx.add_edge g (mapped m p) n w)
              /\ nodes (nx.add_edge g (mapped m p) n w) = nodes g)
    by (split; [apply wf_add_edge; assumption
               | apply nodes_add_edge_present; assumption]).
  destruct ((n =? o)%Z && negb (nx.has_edge g (mapped m p) o)); exact H.
Qed.

Lemma successors_nodes g o succs :
  wf g -> nx.successors g o = Ok succs ->
  forall s, In s succs -> nx.has_node g s = true.
Proof.
  intros Hwf. unfold nx.successors. destruct (nx.has_node g o); [|discriminate].
  intros E s Hs. inversion E; subst. apply in_map_iff in Hs.
  destruct Hs as [[[a b] w] [Eb Hin]]. simpl in Eb. subst b.
  unfold nx.out_edges in Hin. apply filter_In in Hin. destruct Hin as [Hin _].
  apply has_node_In. apply (wf_ends Hwf _ _ _ Hin).
Qed.

Lemma predecessors_nodes g o preds :
  wf g -> nx.predecessors g o = Ok preds ->
  forall p, In p preds -> nx.has_node g p = true.
Proof.
  intros Hwf. unfold nx.predecessors. destruct (nx.has_node g o); [|discriminate].
  intros E p Hp. inversion E; subst. apply in_map_iff in Hp.
  destruct Hp as [[[a b] w] [Ea Hin]]. simpl in Ea. subst a.
  unfold nx.in_edges in Hin. apply filter_In in Hin. destruct Hin as [Hin _].
  apply has_node_In. apply (wf_ends Hwf _ _ _ Hin).
Qed.

(** The two inner loops leave the nodes alone when every new id is a node
    of the graph. *)
Lemma move_loop_nodes (body : DiGraph -> Z -> run) (l : list Z) g :
  (forall g' s, In s l -> wf g' -> nodes g' = nodes g ->
     wf (final_state (body g' s)) /\ nodes (final_state (body g' s)) = nodes g') ->
  wf g ->
  wf (final_state (fold_run body l g))
  /\ nodes (final_state (fold_run body l g)) = nodes g.
Proof.
  intros Hstep Hwf.
  apply (fold_run_final body (fun g' => wf g' /\ nodes g' = nodes g)); [|auto].
  intros g' s Hs [Hwf' Hn']. destruct (Hstep g' s Hs Hwf' Hn') as [H1 H2].
  split; [exact H1 | congruence].
Qed.

(** One turn of the loop over [id_mapping.items()]: the node [o] is
    removed, the other nodes stay as they are. *)
Lemma reassign_nodes m g o n :
  wf g ->
  (forall x n', In (x, n') m -> nx.has_node g n' = true) ->
  In (o, n) m ->
  wf (final_state (reassign m g (o, n)))
  /\ (nodes (final_state (reassign m g (o, n))) = nodes g
      \/ nodes (final_state (reassign m g (o, n))) = PyDict.del o (nodes g))
  /\ (forall g', reassign m g (o, n) = Done g' ->
        nodes g' = PyDict.del o (nodes g)).
Proof.
  intros Hwf Hval Hin. unfold reassign.
  assert (Hn : nx.has_node g n = true) by (apply (Hval o n); exact Hin).
  destruct (nx.successors g o) as [succs|e] eqn:Hs.
  2:{ simpl. split; [exact Hwf|]. split; [auto | discriminate]. }
  destruct (move_loop_nodes (move_successor m o n) succs g) as [Hwf1 Hn1];
    [|exact Hwf|].
  { intros g' s Hs' Hwf' Hn'. apply move_successor_nodes; try assumption.
    - rewrite (has_node_same_nodes g g' n Hn'). exact Hn.
    - apply mapped_node.
      + intros x n' Hx. rewrite (has_node_same_nodes g g' n' Hn'). eauto.
      + rewrite (has_node_same_nodes g g' s Hn').
        apply (successors_nodes g o succs Hwf Hs). exact Hs'. }
  destruct (fold_run (move_successor m o n) succs g) as [g1|e g1]; simpl in *.
  2:{ split; [exact Hwf1|]. split; [auto | discriminate]. }
  destruct (nx.predecessors g1 o) as [preds|e] eqn:Hp.
  2:{ simpl. split; [exact Hwf1|]. split; [auto | discriminate]. }
  destruct (move_loop_nodes (move_predecessor m o n) preds g1) as [Hwf2 Hn2];
    [|exact Hwf1|].
  { intros g' p Hp' Hwf' Hn'. apply move_predecessor_nodes; try assumption.
    - rewrite (has_node_same_nodes g1 g' n Hn'), (has_node_same_nodes g g1 n Hn1).
      exact Hn.
    - apply mapped_node.
      + intros x n' Hx. rewrite (has_node_same_nodes g1 g' n' Hn'),
          (has_node_same_nodes g g1 n' Hn1). eauto.
      + rewrite (has_node_same_nodes g1 g' p Hn').
        apply (predecessors_nodes g1 o preds Hwf1 Hp). exact Hp'. }
  destruct (fold_run (move_predecessor m o n) preds g1) as [g2|e g2]; simpl in *.
  2:{ split; [exact Hwf2|]. split; [left; congruence | discriminate]. }
  pose proof (wf_remove_node g2 o Hwf2) as Hwf3.
  unfold nx.remove_node in *. destruct (nx.has_node g2 o); simpl in *.
  - split; [exact Hwf3|]. rewrite Hn2, Hn1. split; [auto|].
    intros g' E. inversion E; subst. simpl. congruence.
  - split; [exact Hwf3|]. split; [left; congruence | discriminate].
Qed.

Lemma filter_del_keys (o : Z) (ks : list Z) (l : list (Z * NodeData)) :
  filter (fun nd => negb (inb (fst nd) ks)) (PyDict.del o l)
  = filter (fun nd => negb (inb (fst nd) (o :: ks))) l.
Proof.
  rewrite del_as_filter, filter_filter. apply filter_ext. intros [k d]. simpl.
  unfold inb. destruct (in_dec eq_dec k (o :: ks)) as [Hin|Hn];
    destruct (in_dec eq_dec k ks) as [Hin'|Hn']; simpl.
  - apply andb_false_r.
  - destruct Hin as [->|Hin]; [|contradiction].
    rewrite Z.eqb_refl. reflexivity.
  - exfalso. apply Hn. right. exact Hin'.
  - destruct (Z.eqb_spec k o) as [->|Hne]; [|reflexivity].
    exfalso. apply Hn. left. reflexivity.
Qed.

(** The whole loop: the old nodes are removed, nothing else happens to the
    nodes. *)
Lemma reassign_loop_nodes m :
  (forall x n, In (x, n) m -> ~ In n (PyDict.keys m)) ->
  forall items g,
    incl items m ->
    wf g ->
    (forall x n, In (x, n) m -> nx.has_node g n = true) ->
    wf (final_state (fold_run (reassign m) items g))
    /\ incl (nodes (final_state (fold_run (reassign m) items g))) (nodes g)
    /\ (forall g', fold_run (reassign m) items g = Done g' ->
          nodes g' = filter (fun nd => negb (inb (fst nd) (PyDict.keys items)))
                            (nodes g)).
Proof.
  intros Hdis. induction items as [|[o n] items IH]; intros g Hincl Hwf Hval.
  - simpl. split; [exact Hwf|]. split; [apply incl_refl|].
    intros g' E. inversion E; subst.
    symmetry. apply forallb_filter_id. apply forallb_forall. reflexivity.
  - assert (Hin : In (o, n) m) by (apply Hincl; left; reflexivity).
    destruct (reassign_nodes m g o n Hwf Hval Hin) as [Hwf1 [Hn1 Hd1]].
    cbn [fold_run]. destruct (reassign m g (o, n)) as [g1|e g1];
      cbn [bind final_state] in *.
    + specialize (Hd1 g1 eq_refl).
      destruct (IH g1) as [Hwf2 [Hincl2 Hd2]].
      * intros x Hx. apply Hincl. right. exact Hx.
      * exact Hwf1.
      * intros x n' Hx. apply has_node_In. rewrite Hd1. apply In_keys_del.
        split; [|apply has_node_In; eauto].
        intros ->. apply (Hdis x o Hx). apply (in_map fst) in Hin. exact Hin.
      * split; [exact Hwf2|]. split.
        -- intros nd Hnd. apply Hincl2 in Hnd. rewrite Hd1 in Hnd.
           apply In_del in Hnd. tauto.
        -- intros g' E. rewrite (Hd2 g' E), Hd1. apply filter_del_keys.
    + split; [exact Hwf1|]. split; [|discriminate].
      destruct Hn1 as [->| ->]; [apply incl_refl|].
      intros nd Hnd. apply In_del in Hnd. tauto.
Qed.

(** ** Labels and bounds through a merge *)

Lemma filter_split_perm {A : Type} (f : A -> bool) (l : list A) :
  Permutation l (filter (fun x => negb (f x)) l ++ filter f l).
Proof.
  induction l as [|x l IH]; simpl; [constructor|].
  destruct (f x); simpl.
  - apply Permutation_cons_app. exact IH.
  - constructor. exact IH.
Qed.

Lemma perm_flat_map {A B : Type} (f : A -> list B) (l l' : list A) :
  Permutation l l' -> Permutation (flat_map f l) (flat_map f l').
Proof. intros H. rewrite H. reflexivity. Qed.

Lemma labels_of_entries g (l : list (Z * NodeData)) :
  wf g -> incl l (nodes g) ->
  flat_map (fun nd => get_label (fst nd) (snd nd)) l
  = flat_map (node_label g) (map fst l).
Proof.
  intros Hwf. induction l as [|[k d] l IH]; intros Hincl; simpl; [reflexivity|].
  rewrite IH by (intros x Hx; apply Hincl; right; exact Hx).
  f_equal. unfold node_label.
  rewrite (In_node g k d Hwf (Hincl _ (or_introl eq_refl))). reflexivity.
Qed.

(** The labels of a graph are those of a set of its nodes together with
    those of the other nodes. *)
Lemma labels_split g (ks : list Z) :
  wf g -> NoDup ks -> (forall k, In k ks -> nx.has_node g k = true) ->
  Permutation (all_labels g)
    (flat_map (fun nd => get_label (fst nd) (snd nd))
              (filter (fun nd => negb (inb (fst nd) ks)) (nodes g))
     ++ flat_map (node_label g) ks).
Proof.
  intros Hwf Hnd Hin. unfold all_labels.
  eapply Permutation_trans.
  - apply perm_flat_map.
    apply (filter_split_perm (fun nd => inb (fst nd) ks)).
  - rewrite flat_map_app. apply Permutation_app_head.
    rewrite (labels_of_entries g);
      [|exact Hwf | intros x Hx; apply filter_In in Hx; tauto].
    apply perm_flat_map. apply NoDup_Permutation.
    + apply NoDup_map_fst_filter. apply Hwf.
    + exact Hnd.
    + intros k. rewrite in_map_iff. split.
      * intros [[k' d] [E Hk]]. simpl in E. subst k'.
        apply filter_In in Hk. destruct Hk as [_ Hk]. simpl in Hk.
        apply inb_sound. exact Hk.
      * intros Hk. pose proof (Hin k Hk) as Hn.
        apply has_node_node in Hn. destruct Hn as [d Hd].
        exists (k, d). split; [reflexivity|]. apply filter_In.
        split; [apply node_In; exact Hd|]. simpl. unfold inb.
        destruct (in_dec eq_dec k ks); [reflexivity | contradiction].
Qed.

Lemma plan_members g m cl news :
  plan_ok g m cl news ->
  forall x, In x (concat cl) -> nx.has_node g x = true.
Proof.
  intros Hp x Hx. apply (po_keys_in Hp).
  apply (Permutation_in _ (po_perm Hp)). exact Hx.
Qed.

(** The two loops of [merge_clusters] on a plan as above: when the first
    has returned, the nodes are those of [g] followed by one node for each
    cluster, with the labels of its members. *)
Lemma plan_created g m cl news g1 :
  plan_ok g m cl news -> wf g ->
  fold_run (create_cluster m) cl g = Done g1 ->
  wf g1
  /\ (forall x n, In (x, n) m -> nx.has_node g1 n = true)
  /\ exists extra,
       nodes g1 = nodes g ++ extra
       /\ PyDict.keys extra = news
       /\ flat_map (fun nd => get_label (fst nd) (snd nd)) extra
          = flat_map (node_label g) (concat cl).
Proof.
  intros Hp Hwf Hrun.
  destruct (create_loop_nodes g m cl news (po_news Hp) g g1
              (po_news_nodup Hp) (po_news_fresh Hp) (plan_members g m cl news Hp))
    as [extra [Hn [Ha [Hk Hl]]]];
    [exists []; rewrite app_nil_r; reflexivity | exact Hrun |].
  split; [|split].
  - change g1 with (final_state (Done g1)). rewrite <- Hrun.
    apply fold_run_final; [|exact Hwf].
    intros g' c _ Hwf'. apply create_cluster_keeps; [|exact Hwf'].
    intros; apply wf_add_node; assumption.
  - intros x n Hx. apply has_node_In. rewrite Hn, keys_app, Hk.
    apply in_or_app. right. apply (plan_value_new g m cl news Hp x n Hx).
  - exists extra. auto.
Qed.


(** The labels of all nodes, before and after the two loops when both
    return. *)
Lemma plan_keeps_labels g m cl news g' :
  plan_ok g m cl news -> wf g ->
  (g1 <- fold_run (create_cluster m) cl g ;; fold_run (reassign m) m g1)
  = Done g' ->
  Permutation (all_labels g') (all_labels g).
Proof.
  intros Hp Hwf Hrun.
  destruct (fold_run (create_cluster m) cl g) as [g1|e g1] eqn:Hc;
    simpl in Hrun; [|discriminate].
  destruct (plan_created g m cl news g1 Hp Hwf Hc)
    as [Hwf1 [Hval [extra [Hn [Hk Hl]]]]].
  destruct (reassign_loop_nodes m (plan_value_not_key g m cl news Hp)
              m g1 (incl_refl _) Hwf1 Hval) as [_ [_ Hd]].
  specialize (Hd g' Hrun).
  assert (Hextra : filter (fun nd => negb (inb (fst nd) (PyDict.keys m))) extra
                   = extra).
  { apply forallb_filter_id. apply forallb_forall. intros [k d] Hin. simpl.
    unfold inb. destruct (in_dec eq_dec k (PyDict.keys m)) as [Hkm|]; [|reflexivity].
    exfalso. pose proof (po_keys_in Hp k Hkm) as Hnode.
    rewrite (po_news_fresh Hp k) in Hnode; [discriminate|].
    rewrite <- Hk. apply (in_map fst) in Hin. exact Hin. }
  apply Permutation_sym.
  eapply Permutation_trans;
    [apply (labels_split g (PyDict.keys m) Hwf (po_keys_nodup Hp) (po_keys_in Hp))|].
  unfold all_labels. rewrite Hd, Hn, filter_app, Hextra, flat_map_app, Hl.
  apply Permutation_app_head. apply perm_flat_map.
  apply Permutation_sym. apply (po_perm Hp).
Qed.

(** What a call of [merge_clusters] or [merge_by_intervals] comes to: it
    leaves the graph as it is, or it runs the two loops on a plan as
    above. *)
Lemma clusters_call_cases set_iter g op :
  set_order set_iter -> merge_call_ok g op ->
  (exists i j, op = MergeNodes i j)
  \/ apply_op set_iter g op = Done g
  \/ (exists e, apply_op set_iter g op = Raised e g)
  \/ exists m cl news,
       plan_ok g m cl news
       /\ apply_op set_iter g op
          = (g1 <- fold_run (create_cluster m) cl g ;; fold_run (reassign m) m g1).
Proof.
  intros Hset Hok.
  assert (Hlist : forall cs,
             (exists e, merge_clusters set_iter g (ClustersList cs) = Raised e g)
             \/ exists m cl news,
                  plan_ok g m cl news
                  /\ merge_clusters set_iter g (ClustersList cs)
                     = (g1 <- fold_run (create_cluster m) cl g ;;
                        fold_run (reassign m) m g1)).
  { intros cs. unfold merge_clusters.
    destruct (cluster_plan set_iter g (ClustersList cs)) as [[m cl]|e] eqn:Hplan;
      [|left; eauto].
    destruct (plan_ok_list set_iter g cs m cl Hplan) as [mx [_ [-> [-> Hp]]]].
    right. eauto. }
  destruct Hok as [i j|cs|d Hfresh|l]; simpl.
  - left. eauto.
  - right. right. apply Hlist.
  - right. right. right.
    exists (dict_mapping d), (dict_clusters set_iter (dict_mapping d)),
      (set_iter (map snd (dict_mapping d))).
    split; [apply plan_ok_dict; assumption | reflexivity].
  - right. unfold merge_by_intervals.
    destruct (negb (forallb _ l)); [right; left; eauto|].
    destruct (negb (nonempty l)); [right; left; eauto|].
    destruct (nonempty (map set_iter _)); [|left; reflexivity].
    right. apply Hlist.
Qed.




Lemma survives_as_inb i j (nd : Z * NodeData) :
  survives i j nd = negb (inb (fst nd) [i; j]).
Proof.
  unfold survives, inb. destruct nd as [k d]. cbn [fst].
  destruct (in_dec eq_dec k [i; j]) as [Hin|Hn]; cbn [negb].
  - destruct Hin as [<-|[<-|[]]].
    + rewrite Z.eqb_refl. reflexivity.
    + rewrite Z.eqb_refl. apply andb_false_r.
  - destruct (Z.eqb_spec k i) as [->|_];
      [exfalso; apply Hn; left; reflexivity|].
    destruct (Z.eqb_spec k j) as [->|_];
      [exfalso; apply Hn; right; left; reflexivity | reflexivity].
Qed.

Lemma merge_nodes_keeps_labels g i j g' :
  wf g -> merge_nodes g i j = Done g' ->
  Permutation (all_labels g') (all_labels g).
Proof.
  intros Hwf Hdone. destruct (merge_nodes_early g i j) as [[e He]|Hrun];
    [congruence|].
  destruct Hrun as [di [dj [vi [vj [Hi [Hj [Hvi [Hvj Hlen]]]]]]]].
  assert (Hni : nx.has_node g i = true) by (apply has_node_node; eauto).
  assert (Hnj : nx.has_node g j = true) by (apply has_node_node; eauto).
  destruct (Z.eq_dec i j) as [->|Hij].
  - exfalso.
    destruct (merge_nodes_run g j j di dj vi vj Hwf Hi Hj Hvi Hvj Hlen)
      as [m [g1 [g2 [Hm [Hn1 [Ha1 [Hinv Hrun]]]]]]].
    rewrite Hrun in Hdone. unfold nx.remove_node in Hdone.
    destruct (nx.has_node g2 j); simpl in Hdone; [|discriminate].
    match type of Hdone with
    | (if ?b then _ else _) = _ => destruct b eqn:E
    end; [|discriminate].
    apply has_node_del in E. destruct E. congruence.
  - destruct (merge_nodes_returns g i j di dj vi vj
                Hwf Hij Hi Hj Hvi Hvj Hlen)
      as [g'' [m [Hrun [_ Hn]]]].
    assert (g'' = g') by congruence. subst g''.
    apply Permutation_sym.
    eapply Permutation_trans; [apply (labels_split g [i; j] Hwf)|].
    + constructor; [simpl; intros [E|[]]; congruence|].
      constructor; [simpl; tauto | constructor].
    + intros k [<-|[<-|[]]]; assumption.
    + unfold all_labels. rewrite Hn, flat_map_app.
      rewrite (filter_ext _ _ (survives_as_inb i j)).
      apply Permutation_app_head. simpl. rewrite !app_nil_r.
      unfold node_label. rewrite Hi, Hj. apply Permutation_refl.
Qed.



Lemma apply_op_keeps_labels set_iter g op g' :
  set_order set_iter -> wf g -> merge_call_ok g op ->
  apply_op set_iter g op = Done g' ->
  Permutation (all_labels g') (all_labels g).
Proof.
  intros Hset Hwf Hcall Hdone.
  destruct (clusters_call_cases set_iter g op Hset Hcall)
    as [[i [j ->]]|[Hsame|[[e Hsame]|[m [cl [news [Hp Hrun]]]]]]].
  - simpl in Hdone. apply (merge_nodes_keeps_labels g i j); assumption.
  - assert (g' = g) by congruence. subst. apply Permutation_refl.
  - congruence.
  - rewrite Hrun in Hdone. apply (plan_keeps_labels g m cl news); assumption.
Qed.


(** C6, as the code has it: the labels of all nodes, taken together, are
    the same after any sequence of merge calls that return as before it,
    each id as many times; when they were the original ids, each once, they
    still are.  A dictionary argument of [merge_clusters] has to name new
    ids that are not in the graph and old ids that are. *)
Theorem labels_kept_by_merges set_iter g g' ids :
  set_order set_iter -> wf g ->
  Permutation (all_labels g) ids ->
  merge_seq set_iter g g' ->
  Permutation (all_labels g') ids
  /\ (NoDup ids -> NoDup (all_labels g')).
Proof.
  intros Hset Hwf Hids Hseq.
  assert (Hperm : Permutation (all_labels g') ids).
  { revert Hwf Hids. induction Hseq as [g|g op g1 g2 Hcall Hrun Hseq IH];
      intros Hwf Hids; [exact Hids|].
    apply IH.
    - change g1 with (final_state (Done g1)). rewrite <- Hrun.
      apply wf_apply_op. exact Hwf.
    - eapply Permutation_trans; [|exact Hids].
      apply (apply_op_keeps_labels set_iter g op); assumption. }
  split; [exact Hperm|].
  intros Hnd. apply (Permutation_NoDup (Permutation_sym Hperm) Hnd).
Qed.

(** ** The examples *)

Lemma first_seen_In l x : In x (first_seen l) <-> In x l.
Proof.
  induction l as [|a l IH]; simpl; [tauto|].
  rewrite filter_In, IH, negb_true_iff, Z.eqb_neq.
  destruct (Z.eq_dec a x); intuition congruence.
Qed.

Lemma first_seen_NoDup l : NoDup (first_seen l).
Proof.
  induction l as [|a l IH]; simpl; constructor.
  - rewrite filter_In, negb_true_iff, Z.eqb_neq. tauto.
  - apply NoDup_filter. exact IH.
Qed.

Lemma first_seen_order : set_order first_seen.
Proof. intros l. split; [apply first_seen_NoDup | apply first_seen_In]. Qed.

Lemma returned_done r : returned r = true -> r = Done (final_state r).
Proof. destruct r; [reflexivity | discriminate]. Qed.

Ltac each_node Hin :=
  simpl in Hin;
  repeat (destruct Hin as [Hin|Hin]; [inversion Hin; subst; clear Hin|]);
  [..|destruct Hin].




(** *** C1 *)

(** C1 fails for [merge_clusters]: on [fan], merging the cluster {0, 1}
    gives the new node 3 the edge 3 -> 2 with weight 2 and the edge 2 -> 3
    with weight 4, the weights of the edges of node 1 alone; the weights of
    the edges of node 0 (1 and 3) are overwritten, where [merge_nodes] on the
    same graph gives 1 + 2 and 3 + 4. *)
Theorem merge_clusters_overwrites_weights :
  exists g',
    merge_clusters first_seen fan (ClustersList [[0%Z; 1%Z]]) = Done g'
    /\ nx.edge_value g' 3 2 = Some 2%Q
    /\ nx.edge_value g' 2 3 = Some 4%Q
    /\ ~ opt_eq (nx.edge_value g' 3 2)
                (total (nx.edge_value fan 0 2) (nx.edge_value fan 1 2))
    /\ ~ opt_eq (nx.edge_value g' 2 3)
                (total (nx.edge_value fan 2 0) (nx.edge_value fan 2 1))
    /\ exists g'',
         merge_nodes fan 0 1 = Done g''
         /\ opt_eq (nx.edge_value g'' 3 2) (Some 3%Q)
         /\ opt_eq (nx.edge_value g'' 2 3) (Some 7%Q).
Proof.
  eexists. split; [vm_compute; reflexivity|].
  split; [reflexivity|]. split; [reflexivity|].
  split; [vm_compute; discriminate|]. split; [vm_compute; discriminate|].
  eexists. split; [vm_compute; reflexivity|].
  split; vm_compute; reflexivity.
Qed.

(** *** C2 *)

(** C2, refuted as stated: [isolated_pair] has two nodes and no edge; both
    orders of the pair score -2, and the call returns with the graph as it
    was, its two nodes unmerged. *)
Lemma simplify_leaves_isolated_pair_counterexample :
  nx.number_of_nodes isolated_pair = 2%nat
  /\ compute_similarity default_similarity isolated_pair 0 1 None = Ok (-2 # 1)
  /\ simplify_graph_one_iteration default_similarity isolated_pair
     = Done isolated_pair
  /\ nx.number_of_nodes
       (final_state (simplify_graph_one_iteration default_similarity
                                                  isolated_pair)) = 2%nat.
Proof. repeat split; reflexivity. Qed.

Lemma simplify_merges_first_best_above_threshold_witness :
  init_labels fan = Done fan
  /\ ((nx.number_of_nodes fan <= 1)%nat ->
        simplify_graph_one_iteration default_similarity fan = Done fan)
  /\ ((2 <= nx.number_of_nodes fan)%nat ->
        (exists p s,
            first_best (fun i j => compute_similarity default_similarity fan i j None)
                       (combinations2 (PyDict.keys (nodes fan))) p s
            /\ (-1 < s)%Q
            /\ simplify_graph_one_iteration default_similarity fan
               = merge_nodes fan (fst p) (snd p))
        \/ ((forall q s,
               In q (combinations2 (PyDict.keys (nodes fan))) ->
               compute_similarity default_similarity fan (fst q) (snd q) None
               = Ok s -> (s <= -1)%Q)
            /\ simplify_graph_one_iteration default_similarity fan = Done fan))
  /\ ((2 <= nx.number_of_nodes fan)%nat ->
        (forall i j, nx.has_edge fan i j = false) ->
        simplify_graph_one_iteration default_similarity fan = Done fan).
Proof.
  split; [reflexivity|].
  apply (simplify_merges_first_best_above_threshold default_similarity fan fan).
  - reflexivity.
  - intros q Hq. simpl in Hq.
    destruct Hq as [<-|[<-|[<-|[]]]]; eexists; vm_compute; reflexivity.
Defined.

(** On the empty graph the first statement raises: there is no first node
    to look at. *)
Example simplify_empty_graph_raises :
  simplify_graph_one_iteration default_similarity nx.empty
  = Raised StopIteration nx.empty.
Proof. reflexivity. Qed.

(** *** C3 *)


(** The example of C3: merging the nodes 0 (value 0.2) and 1 (value 0.8) of
    [two_nodes] leaves one node; its id is 2, its value 0.5, its label
    [0, 1], its bounds 0.2 and 0.8, and the edge 0 -> 1 is gone. *)
Example merge_nodes_example :
  exists g' d v,
    merge_nodes two_nodes 0 1 = Done g'
    /\ nodes g' = [(2%Z, d)]
    /\ adj g' = []
    /\ value d = Some v /\ (v == 1 # 2)%Q
    /\ label d = Some [0%Z; 1%Z]
    /\ min_value d = Some (2 # 10)
    /\ max_value d = Some (8 # 10).
Proof.
  eexists. eexists. eexists.
  split; [vm_compute; reflexivity|].
  split; [reflexivity|]. split; [reflexivity|].
  split; [reflexivity|]. split; [reflexivity|].
  split; [reflexivity|]. split; reflexivity.
Qed.

(** *** C4 *)

(** C4 fails for a dictionary argument.  On [two_nodes], the dictionary
    {10: {0, 1}, 11: {1}} names node 1 twice: the call returns, node 1 goes
    to the cluster 11.  The dictionary {10: {0}, 11: {7}} names the id 7,
    which is not a node: the call raises [KeyError] after it has added the
    node 10, and the graph is left with it. *)
Theorem merge_clusters_dict_is_not_validated :
  ~ NoDup (concat [[0%Z; 1%Z]; [1%Z]])
  /\ (exists g',
        merge_clusters first_seen two_nodes
          (ClustersDict [(10%Z, [0%Z; 1%Z]); (11%Z, [1%Z])]) = Done g'
        /\ PyDict.keys (nodes g') = [10%Z; 11%Z]
        /\ node_label g' 10 = [0%Z] /\ node_label g' 11 = [1%Z])
  /\ nx.has_node two_nodes 7 = false
  /\ nx.has_node two_nodes 10 = false
  /\ exists g',
       merge_clusters first_seen two_nodes
         (ClustersDict [(10%Z, [0%Z]); (11%Z, [7%Z])]) = Raised KeyError g'
       /\ nx.has_node g' 10 = true.
Proof.
  split.
  { intros H. simpl in H. inversion H as [|? ? Hn H1]; subst.
    inversion H1 as [|? ? Hn1 _]; subst. apply Hn1. left. reflexivity. }
  split.
  { eexists. split; [vm_compute; reflexivity|]. repeat split; reflexivity. }
  split; [reflexivity|]. split; [reflexivity|].
  eexists. split; [vm_compute; reflexivity | reflexivity].
Qed.

(** The same two partitions given as lists: both calls raise with the
    graph as it was. *)
Example merge_clusters_list_is_validated :
  merge_clusters first_seen two_nodes (ClustersList [[0%Z; 1%Z]; [1%Z]])
  = Raised AssertionError two_nodes
  /\ merge_clusters first_seen two_nodes (ClustersList [[0%Z]; [7%Z]])
     = Raised AssertionError two_nodes.
Proof. split; reflexivity. Qed.

(** *** C5 *)

(** C5, refuted as stated: [loop_aside] has a self-loop at node 2; merging
    the nodes 0 and 1 returns and the self-loop is still there. *)
Lemma merge_keeps_old_self_loop_counterexample :
  exists g',
    apply_op first_seen loop_aside (MergeNodes 0 1) = Done g'
    /\ nx.has_edge g' 2 2 = true
    /\ ~ no_self_loops g'.
Proof.
  eexists. split; [vm_compute; reflexivity|]. split; [reflexivity|].
  intros H. specialize (H 2%Z). vm_compute in H. discriminate.
Qed.

Lemma merge_creates_no_self_loop_witness :
  wf fan
  /\ loops_from fan
       (final_state (apply_op first_seen fan
                              (MergeClusters (ClustersList [[0%Z; 1%Z]]))))
  /\ (no_self_loops fan ->
      no_self_loops
        (final_state (apply_op first_seen fan
                               (MergeClusters (ClustersList [[0%Z; 1%Z]]))))).
Proof.
  split; [apply wfb_sound; reflexivity|].
  apply (merge_creates_no_self_loop first_seen fan
           (MergeClusters (ClustersList [[0%Z; 1%Z]]))).
  apply wfb_sound. reflexivity.
Defined.

(** *** C6 *)

(** C6, refuted as stated: on [loop_aside] the dictionary {2: {0, 1}} names
    as new id the node 2, which is in the graph and is not merged.  The call
    returns; node 2 now carries the label [0, 1] and the id 2 is in no label
    any more. *)
Lemma merge_clusters_loses_label_counterexample :
  exists g',
    apply_op first_seen loop_aside
      (MergeClusters (ClustersDict [(2%Z, [0%Z; 1%Z])])) = Done g'
    /\ all_labels loop_aside = [0%Z; 1%Z; 2%Z]
    /\ all_labels g' = [0%Z; 1%Z]
    /\ ~ Permutation (all_labels g') (all_labels loop_aside).
Proof.
  eexists. split; [vm_compute; reflexivity|]. split; [reflexivity|].
  split; [reflexivity|].
  intros H. apply Permutation_length in H. vm_compute in H. discriminate.
Qed.

Lemma labels_kept_by_merges_witness :
  set_order first_seen /\ wf fan
  /\ Permutation (all_labels fan) [0%Z; 1%Z; 2%Z]
  /\ Permutation
       (all_labels
          (final_state (apply_op first_seen fan
                                 (MergeClusters (ClustersList [[0%Z; 1%Z]])))))
       [0%Z; 1%Z; 2%Z]
  /\ (NoDup [0%Z; 1%Z; 2%Z] ->
      NoDup
        (all_labels
           (final_state (apply_op first_seen fan
                                  (MergeClusters (ClustersList [[0%Z; 1%Z]])))))).
Proof.
  split; [exact first_seen_order|].
  split; [apply wfb_sound; reflexivity|].
  split; [apply Permutation_refl|].
  apply (labels_kept_by_merges first_seen fan).
  - exact first_seen_order.
  - apply wfb_sound. reflexivity.
  - apply Permutation_refl.
  - eapply seq_step; [apply ok_merge_list | | apply seq_nil].
    apply returned_done. reflexivity.
Defined.

(** *** C7 *)



(** *** C8 *)


(** The example of C8: node 0 has value 0.5 and one edge of weight 0.3
    from node 1, of value 1; one step with factor 1 gives it the value
    0.8. *)
Example dynamics_step_example :
  (clip01 ((1 # 2) + 1 * incoming_influence influence_pair 0) == 8 # 10)%Q
  /\ exists g' v',
       dynamics_step influence_pair 1 = Done g'
       /\ node_value g' 0 = Some v' /\ (v' == 8 # 10)%Q.
Proof.
  split; [vm_compute; reflexivity|].
  eexists. eexists. split; [vm_compute; reflexivity|].
  split; reflexivity.
Qed.

(** * Further properties of the code *)

(** ** Dictionaries: reading and writing behind a prefix *)

Lemma get_app_r {K V : Type} `{EqDec K} (k : K) (a b : list (K * V)) :
  ~ In k (PyDict.keys a) -> PyDict.get k (a ++ b) = PyDict.get k b.
Proof.
  induction a as [|[k' v'] a IH]; simpl; intros Hn; [reflexivity|].
  destruct (eq_dec k k') as [->|Hne]; [exfalso; auto|].
  apply IH. tauto.
Qed.

Lemma set_app_r {K V : Type} `{EqDec K} (k : K) (v : V) (a b : list (K * V)) :
  ~ In k (PyDict.keys a) -> PyDict.set k v (a ++ b) = a ++ PyDict.set k v b.
Proof.
  induction a as [|[k' v'] a IH]; simpl; intros Hn; [reflexivity|].
  destruct (eq_dec k k') as [->|Hne]; [exfalso; auto|].
  f_equal. apply IH. tauto.
Qed.

Lemma set_head {K V : Type} `{EqDec K} (k : K) (v v' : V) (b : list (K * V)) :
  PyDict.set k v' ((k, v) :: b) = (k, v') :: b.
Proof. simpl. destruct (eq_dec k k); [reflexivity | congruence]. Qed.

Lemma get_head {K V : Type} `{EqDec K} (k : K) (v : V) (b : list (K * V)) :
  PyDict.get k ((k, v) :: b) = Some v.
Proof. simpl. destruct (eq_dec k k); [reflexivity | congruence]. Qed.

Lemma filter_all {A : Type} (f : A -> bool) (l : list A) :
  (forall x, In x l -> f x = true) -> filter f l = l.
Proof.
  induction l as [|x l IH]; simpl; intros Hall; [reflexivity|].
  rewrite (Hall x (or_introl eq_refl)). f_equal. apply IH. auto.
Qed.

Lemma fold_run_same {A : Type} (body : DiGraph -> A -> run) (l : list A) g :
  (forall x, In x l -> body g x = Done g) -> fold_run body l g = Done g.
Proof.
  induction l as [|x l IH]; simpl; intros Hall; [reflexivity|].
  rewrite (Hall x (or_introl eq_refl)). simpl. apply IH. auto.
Qed.

(** ** generate_labels and generate_min_max_values *)

Lemma own_bounds_labelled g n :
  (forall k d, In (k, d) (nodes g) -> label d <> None) ->
  In n (PyDict.keys (nodes g)) ->
  own_bounds g n = Done g.
Proof.
  intros Hall Hn. unfold own_bounds.
  apply has_node_In, has_node_node in Hn. destruct Hn as [d Hd].
  rewrite Hd. pose proof (Hall n d (node_In _ _ _ Hd)) as Hl.
  destruct (label d); [reflexivity | congruence].
Qed.

Lemma min_max_labelled g :
  (forall k d, In (k, d) (nodes g) -> label d <> None) ->
  generate_min_max_values g = Done g.
Proof.
  intros Hall. apply fold_run_same. intros n Hn.
  apply own_bounds_labelled; assumption.
Qed.

(** X1: in the order in which the constructors call them,
    [generate_labels] then [generate_min_max_values], the second call does
    nothing on a graph whose first node has no label: every node has got
    the label [[i]], so no node is given [min_value] or [max_value]. *)
Theorem min_max_after_labels_sets_no_bound g :
  (forall n d rest, nodes g = (n, d) :: rest -> label d = None) ->
  generate_min_max_values (generate_labels g) = Done (generate_labels g)
  /\ nodes (generate_labels g) = map relabelled (nodes g)
  /\ adj (generate_labels g) = adj g.
Proof.
  intros Hfirst.
  assert (E : generate_labels g = reset_labels g \/ nodes g = []).
  { unfold generate_labels. destruct (nodes g) as [|[n d] rest] eqn:En; [auto|].
    rewrite (Hfirst n d rest eq_refl). auto. }
  assert (Hmap : nodes (generate_labels g) = map relabelled (nodes g)).
  { destruct E as [-> | En]; [reflexivity|].
    unfold generate_labels. rewrite En. exact En. }
  split; [|split; [exact Hmap|]].
  - apply min_max_labelled. intros k d Hin. rewrite Hmap in Hin.
    apply in_map_iff in Hin. destruct Hin as [[k' d'] [Heq _]].
    inversion Heq; subst. discriminate.
  - destruct E as [-> | En]; [reflexivity|].
    unfold generate_labels. rewrite En. reflexivity.
Qed.

Lemma min_max_after_labels_sets_no_bound_witness :
  generate_min_max_values (generate_labels bare_pair)
  = Done (generate_labels bare_pair)
  /\ nodes (generate_labels bare_pair) = map relabelled (nodes bare_pair)
  /\ adj (generate_labels bare_pair) = adj bare_pair.
Proof.
  apply (min_max_after_labels_sets_no_bound bare_pair).
  intros n d rest E. inversion E. reflexivity.
Defined.

Lemma own_bounds_step (pre post : list (Z * NodeData)) (a : list ((Z * Z) * Q))
  (n : Z) (d : NodeData) :
  ~ In n (PyDict.keys pre) ->
  (label d = None -> value d <> None) ->
  own_bounds (mkGraph (pre ++ (n, d) :: post) a) n
  = Done (mkGraph (pre ++ bounded_by_value (n, d) :: post) a).
Proof.
  intros Hn Hv. unfold own_bounds, nx.node. cbn [nodes adj].
  rewrite (get_app_r _ _ _ Hn), get_head.
  unfold bounded_by_value. cbn [fst snd].
  destruct (label d) as [l|] eqn:El; [reflexivity|].
  destruct (value d) as [v|] eqn:Ev; [|exfalso; apply Hv; reflexivity].
  rewrite (set_app_r _ _ _ _ Hn), set_head. reflexivity.
Qed.

Lemma keys_map_bounded (l : list (Z * NodeData)) :
  PyDict.keys (map bounded_by_value l) = PyDict.keys l.
Proof.
  unfold PyDict.keys. rewrite map_map. apply map_ext. intros [n d].
  unfold bounded_by_value. simpl.
  destruct (label d); [reflexivity|]. destruct (value d); reflexivity.
Qed.

Lemma fold_run_app {A : Type} (body : DiGraph -> A -> run) (l1 l2 : list A) g :
  fold_run body (l1 ++ l2) g
  = (g1 <- fold_run body l1 g ;; fold_run body l2 g1).
Proof.
  revert g. induction l1 as [|x l1 IH]; intros g; [reflexivity|].
  cbn [app fold_run]. destruct (body g x) as [g'|e g']; [|reflexivity].
  cbn [bind]. apply IH.
Qed.

Lemma fst_bounded_by_value nd : fst (bounded_by_value nd) = fst nd.
Proof.
  unfold bounded_by_value. destruct (label (snd nd)); [reflexivity|].
  destruct (value (snd nd)); reflexivity.
Qed.

Lemma own_bounds_loop (a : list ((Z * Z) * Q)) (post : list (Z * NodeData)) :
  forall mid pre,
    NoDup (PyDict.keys (pre ++ mid ++ post)) ->
    (forall n d, In (n, d) mid -> label d = None -> value d <> None) ->
    fold_run own_bounds (PyDict.keys mid) (mkGraph (pre ++ mid ++ post) a)
    = Done (mkGraph (pre ++ map bounded_by_value mid ++ post) a).
Proof.
  induction mid as [|[n d] mid IH]; intros pre Hnd Hv; [reflexivity|].
  assert (Hn : ~ In n (PyDict.keys pre)).
  { rewrite keys_app in Hnd. simpl in Hnd.
    apply NoDup_remove_2 in Hnd. rewrite in_app_iff in Hnd. tauto. }
  cbn [PyDict.keys map fst fold_run app].
  rewrite own_bounds_step; [|exact Hn|apply (Hv n d); left; reflexivity].
  cbn [bind].
  replace (pre ++ bounded_by_value (n, d) :: mid ++ post)
    with ((pre ++ [bounded_by_value (n, d)]) ++ mid ++ post)
    by (rewrite <- app_assoc; reflexivity).
  change (map fst mid) with (PyDict.keys mid).
  rewrite IH.
  - rewrite <- app_assoc. reflexivity.
  - rewrite <- app_assoc. cbn [app].
    rewrite keys_app in *. cbn [PyDict.keys map app] in *.
    rewrite fst_bounded_by_value. exact Hnd.
  - intros k dk Hin. apply (Hv k dk). right. exact Hin.
Qed.

(** X2: [generate_min_max_values] gives every node without a label
    [min_value = max_value = value], overwriting bounds it had, and leaves
    a node with a label as it is, with or without bounds; order, node set
    and edges are unchanged.  When a node without a label has no value the
    call raises [KeyError] there, and the nodes before it stay updated. *)
Theorem generate_min_max_values_bounds_unlabelled g :
  wf g ->
  ((forall n d, In (n, d) (nodes g) -> label d = None -> value d <> None) ->
   generate_min_max_values g
   = Done (mkGraph (map bounded_by_value (nodes g)) (adj g)))
  /\ (forall pre n d post,
        nodes g = pre ++ (n, d) :: post ->
        (forall k dk, In (k, dk) pre -> label dk = None -> value dk <> None) ->
        label d = None -> value d = None ->
        generate_min_max_values g
        = Raised KeyError
            (mkGraph (map bounded_by_value pre ++ (n, d) :: post) (adj g))).
Proof.
  intros Hwf. unfold generate_min_max_values.
  destruct g as [ns a]. cbn [nodes adj] in *.
  pose proof (wf_nodes Hwf) as Hnd. cbn [nodes] in Hnd. split.
  - intros Hv.
    pose proof (own_bounds_loop a [] ns []) as H.
    rewrite !app_nil_r in H. apply H; assumption.
  - intros pre n d post -> Hv Hl Hval.
    rewrite keys_app, fold_run_app.
    pose proof (own_bounds_loop a ((n, d) :: post) pre []) as H.
    cbn [app] in H. rewrite H; [|exact Hnd|exact Hv].
    cbn [bind PyDict.keys map fst fold_run].
    unfold own_bounds at 1. unfold nx.node. cbn [nodes adj].
    rewrite get_app_r, get_head, Hl, Hval; [reflexivity|].
    change (map fst (map bounded_by_value pre))
      with (PyDict.keys (map bounded_by_value pre)).
    rewrite keys_map_bounded.
    rewrite keys_app in Hnd. cbn [PyDict.keys map fst] in Hnd.
    apply NoDup_remove_2 in Hnd. rewrite in_app_iff in Hnd. tauto.
Qed.

Lemma generate_min_max_values_bounds_unlabelled_witness :
  (wf bare_pair
   /\ generate_min_max_values bare_pair
      = Done (mkGraph (map bounded_by_value (nodes bare_pair))
                      (adj bare_pair)))
  /\ (wf valueless_second
      /\ generate_min_max_values valueless_second
         = Raised KeyError
             (mkGraph [(0%Z, mkNode (Some (2 # 10)) None (Some (2 # 10))
                                    (Some (2 # 10)) None);
                       (1%Z, no_attrs)]
                      (adj valueless_second))).
Proof.
  split; (split; [apply wfb_sound; reflexivity|]).
  - apply (generate_min_max_values_bounds_unlabelled bare_pair).
    + apply wfb_sound. reflexivity.
    + intros n d Hin _. each_node Hin; discriminate.
  - apply (proj2 (generate_min_max_values_bounds_unlabelled valueless_second
                    (wfb_sound valueless_second eq_refl))
                 [(0%Z, mkNode (Some (2 # 10)) None None None None)]
                 1%Z no_attrs []).
    + reflexivity.
    + intros k dk Hin _. each_node Hin. discriminate.
    + reflexivity.
    + reflexivity.
Defined.

(** ** remove_self_loops *)

Lemma remove_loop_at g n :
  (if nx.has_edge g n n then nx.remove_edge g n n else Done g)
  = Done (mkGraph (nodes g)
            (filter (fun e => negb (self_loop e && (fst (fst e) =? n)%Z))
                    (adj g))).
Proof.
  destruct (nx.has_edge g n n) eqn:He.
  - unfold nx.remove_edge. rewrite He. f_equal. f_equal.
    unfold PyDict.del. apply filter_ext. intros [[u v] w].
    unfold self_loop. cbn [fst snd].
    destruct (eq_dec (n, n) (u, v)) as [E|Hne].
    + inversion E; subst. rewrite !Z.eqb_refl. reflexivity.
    + destruct (Z.eqb_spec u v) as [->|]; [|reflexivity].
      destruct (Z.eqb_spec v n) as [->|]; [congruence | reflexivity].
  - destruct g as [ns a]. cbn [nodes adj]. f_equal. f_equal. symmetry.
    apply filter_all. intros [[u v] w] Hin.
    unfold self_loop. cbn [fst snd].
    destruct (Z.eqb_spec u v) as [->|]; [|reflexivity].
    destruct (Z.eqb_spec v n) as [->|]; [|reflexivity].
    exfalso. unfold nx.has_edge in He. cbn [adj] in He.
    apply mem_false_iff in He. apply He.
    unfold PyDict.keys. apply in_map_iff. exists ((n, n), w). auto.
Qed.

Lemma remove_loops_loop :
  forall ks g,
    fold_run (fun g n => if nx.has_edge g n n then nx.remove_edge g n n
                         else Done g) ks g
    = Done (mkGraph (nodes g)
              (filter (fun e => negb (self_loop e
                                      && existsb (Z.eqb (fst (fst e))) ks))
                      (adj g))).
Proof.
  induction ks as [|n ks IH]; intros g.
  - cbn [fold_run existsb]. destruct g as [ns a]. cbn [nodes adj].
    f_equal. f_equal. symmetry. apply filter_all.
    intros e _. rewrite andb_false_r. reflexivity.
  - cbn [fold_run]. rewrite remove_loop_at. cbn [bind].
    rewrite IH. cbn [nodes adj]. f_equal. f_equal.
    rewrite filter_filter. apply filter_ext. intros e. cbn [existsb].
    destruct (self_loop e); cbn [andb negb]; [|reflexivity].
    destruct (fst (fst e) =? n)%Z; reflexivity.
Qed.

Lemma remove_self_loops_spec g :
  wf g ->
  remove_self_loops g
  = Done (mkGraph (nodes g) (filter (fun e => negb (self_loop e)) (adj g))).
Proof.
  intros Hwf.
  assert (Ha : filter (fun e => negb (self_loop e
                         && existsb (Z.eqb (fst (fst e)))
                                    (PyDict.keys (nodes g))))
                      (adj g)
               = filter (fun e => negb (self_loop e)) (adj g)).
  { apply filter_ext_in. intros [[u v] w] Hin. cbn [fst].
    destruct (wf_ends Hwf u v w Hin) as [Hu _].
    assert (Hex : existsb (Z.eqb u) (PyDict.keys (nodes g)) = true).
    { apply existsb_exists. exists u. split; [exact Hu | apply Z.eqb_refl]. }
    rewrite Hex, andb_true_r. reflexivity. }
  unfold remove_self_loops. rewrite remove_loops_loop, Ha. reflexivity.
Qed.

Lemma no_loop_after_filter (ns : list (Z * NodeData)) (a : list ((Z * Z) * Q)) u :
  nx.has_edge (mkGraph ns (filter (fun e => negb (self_loop e)) a)) u u = false.
Proof.
  unfold nx.has_edge. cbn [adj].
  apply mem_false_iff. unfold PyDict.keys. intros Hin.
  apply in_map_iff in Hin. destruct Hin as [[[x y] w] [Heq Hin]].
  cbn [fst] in Heq. inversion Heq; subst.
  apply filter_In in Hin. destruct Hin as [_ Hf].
  unfold self_loop in Hf. cbn [fst snd] in Hf.
  rewrite Z.eqb_refl in Hf. discriminate.
Qed.

Lemma edge_value_after_filter (ns : list (Z * NodeData))
  (a : list ((Z * Z) * Q)) u v :
  u <> v ->
  nx.edge_value (mkGraph ns (filter (fun e => negb (self_loop e)) a)) u v
  = PyDict.get (u, v) a.
Proof.
  intros Huv. unfold nx.edge_value. cbn [adj].
  apply get_filter_keep. intros w. unfold self_loop. cbn [fst snd].
  apply Z.eqb_neq in Huv. rewrite Huv. reflexivity.
Qed.

(** X3: on a graph whose edges join its nodes [remove_self_loops] never
    raises; it removes exactly the edges from a node to itself: the
    nodes, the other edges, their weights and their order stay. *)
Theorem remove_self_loops_removes_the_loops g :
  wf g ->
  exists g',
    remove_self_loops g = Done g'
    /\ nodes g' = nodes g
    /\ adj g' = filter (fun e => negb (self_loop e)) (adj g)
    /\ no_self_loops g'
    /\ forall u v, u <> v -> nx.edge_value g' u v = nx.edge_value g u v.
Proof.
  intros Hwf. eexists. split; [apply remove_self_loops_spec; exact Hwf|].
  cbn [nodes adj]. split; [reflexivity|]. split; [reflexivity|]. split.
  - intros u. apply no_loop_after_filter.
  - intros u v Huv. apply edge_value_after_filter. exact Huv.
Qed.

Lemma remove_self_loops_removes_the_loops_witness :
  wf bare_pair
  /\ exists g',
       remove_self_loops bare_pair = Done g'
       /\ nodes g' = nodes bare_pair
       /\ adj g' = filter (fun e => negb (self_loop e)) (adj bare_pair)
       /\ no_self_loops g'
       /\ forall u v, u <> v ->
            nx.edge_value g' u v = nx.edge_value bare_pair u v.
Proof.
  split; [apply wfb_sound; reflexivity|].
  apply (remove_self_loops_removes_the_loops bare_pair).
  apply wfb_sound. reflexivity.
Defined.

(** ** write_json and read_json *)

Lemma node_entries_spec g (l : list (Z * NodeData)) :
  wf g -> incl l (nodes g) ->
  (forall n d, In (n, d) l -> value d <> None) ->
  node_entries g (PyDict.keys l) = Ok (map json_of_node l).
Proof.
  intros Hwf. induction l as [|[n d] l IH]; intros Hincl Hv; [reflexivity|].
  cbn [PyDict.keys map fst node_entries].
  rewrite (In_node g n d Hwf (Hincl _ (or_introl eq_refl))).
  destruct (value d) as [v|] eqn:Ev;
    [|exfalso; apply (Hv n d (or_introl eq_refl)); exact Ev].
  change (map fst l) with (PyDict.keys l).
  rewrite IH.
  - unfold json_of_node. cbn [fst snd]. rewrite Ev. reflexivity.
  - intros x Hx. apply Hincl. right. exact Hx.
  - intros k dk Hin. apply (Hv k dk). right. exact Hin.
Qed.

Lemma edge_entries_spec g (l : list ((Z * Z) * Q)) :
  NoDup (PyDict.keys (adj g)) -> incl l (adj g) ->
  edge_entries g (map fst l) = Ok (map json_of_edge l).
Proof.
  intros Hnd. induction l as [|[[u v] w] l IH]; intros Hincl; [reflexivity|].
  cbn [map fst edge_entries]. unfold nx.edge_value.
  rewrite (In_get _ _ _ Hnd (Hincl _ (or_introl eq_refl))).
  rewrite IH; [reflexivity|].
  intros x Hx. apply Hincl. right. exact Hx.
Qed.

Lemma map_flat_map {A B C : Type} (f : B -> C) (h : A -> list B) (l : list A) :
  map f (flat_map h l) = flat_map (fun x => map f (h x)) l.
Proof.
  induction l as [|x l IH]; simpl; [reflexivity|].
  rewrite map_app, IH. reflexivity.
Qed.

Lemma keys_edge_items g : PyDict.keys (edge_items g) = nx.edges g.
Proof. unfold PyDict.keys, edge_items, nx.edges. apply map_flat_map. Qed.

Lemma In_edge_items g e : wf g -> (In e (edge_items g) <-> In e (adj g)).
Proof.
  intros Hwf. unfold edge_items, nx.out_edges. rewrite in_flat_map. split.
  - intros [n [_ Hin]]. apply filter_In in Hin. tauto.
  - intros Hin. destruct e as [[u v] w]. exists u. split.
    + apply (wf_ends Hwf u v w Hin).
    + apply filter_In. split; [exact Hin|]. cbn [fst]. apply Z.eqb_refl.
Qed.

Lemma get_same_entries {K V : Type} `{EqDec K} (k : K) (a b : list (K * V)) :
  NoDup (PyDict.keys a) -> NoDup (PyDict.keys b) ->
  (forall e, In e a <-> In e b) ->
  PyDict.get k a = PyDict.get k b.
Proof.
  intros Ha Hb Hab.
  destruct (PyDict.get k a) as [v|] eqn:Ea.
  - symmetry. apply In_get; [exact Hb|]. apply Hab.
    apply get_Some_In. exact Ea.
  - destruct (PyDict.get k b) as [v|] eqn:Eb; [|reflexivity].
    apply get_Some_In, Hab, (In_get _ _ _ Ha) in Eb. congruence.
Qed.

Lemma edge_value_edge_items g u v :
  wf g -> PyDict.get (u, v) (edge_items g) = nx.edge_value g u v.
Proof.
  intros Hwf. unfold nx.edge_value. apply get_same_entries.
  - rewrite keys_edge_items. apply NoDup_edges. exact Hwf.
  - apply (wf_adj Hwf).
  - intros e. apply In_edge_items. exact Hwf.
Qed.

Lemma filter_source_items (a : list ((Z * Z) * Q)) (n : Z) :
  forall ks, NoDup ks ->
    filter (fun e => (fst (fst e) =? n)%Z)
           (flat_map (fun m => filter (fun e => (fst (fst e) =? m)%Z) a) ks)
    = if in_dec Z.eq_dec n ks
      then filter (fun e => (fst (fst e) =? n)%Z) a
      else [].
Proof.
  induction ks as [|m ks IH]; intros Hnd; [reflexivity|].
  inversion Hnd as [|? ? Hm Hnd']; subst.
  cbn [flat_map]. rewrite filter_app, filter_filter, (IH Hnd').
  destruct (Z.eq_dec m n) as [->|Hne].
  - destruct (in_dec Z.eq_dec n (n :: ks)) as [_|Hn];
      [|exfalso; apply Hn; left; reflexivity].
    destruct (in_dec Z.eq_dec n ks) as [Hin|_]; [contradiction|].
    rewrite app_nil_r. apply filter_ext. intros e. apply andb_diag.
  - assert (Hnone : filter (fun e => (fst (fst e) =? m)%Z && (fst (fst e) =? n)%Z) a
                    = []).
    { clear IH. induction a as [|e a IHa]; [reflexivity|]. cbn [filter].
      destruct (Z.eqb_spec (fst (fst e)) m) as [Em|_]; [|exact IHa].
      destruct (Z.eqb_spec (fst (fst e)) n) as [En|_]; [congruence | exact IHa]. }
    rewrite Hnone. cbn [app].
    destruct (in_dec Z.eq_dec n ks) as [Hin|Hnin];
      destruct (in_dec Z.eq_dec n (m :: ks)) as [Hin'|Hnin'];
      try reflexivity.
    + exfalso. apply Hnin'. right. exact Hin.
    + exfalso. destruct Hin' as [E|Hin']; [congruence | contradiction].
Qed.

Lemma flat_map_ext_in {A B : Type} (f h : A -> list B) (l : list A) :
  (forall x, In x l -> f x = h x) -> flat_map f l = flat_map h l.
Proof.
  induction l as [|x l IH]; intros Hext; [reflexivity|].
  cbn [flat_map]. rewrite (Hext x (or_introl eq_refl)), IH; [reflexivity|].
  intros y Hy. apply Hext. right. exact Hy.
Qed.

Lemma add_json_node_fresh (cur : list (Z * NodeData)) (a : list ((Z * Z) * Q))
  (n : Z) (d : NodeData) :
  ~ In n (PyDict.keys cur) -> value d <> None ->
  add_json_node (mkGraph cur a) (json_of_node (n, d))
  = mkGraph (cur ++ [saved_node (n, d)]) a.
Proof.
  intros Hn Hv. unfold add_json_node, nx.add_node, nx.node.
  unfold json_of_node, saved_node. cbn [nodes adj fst snd].
  cbn [json_id json_value json_label json_min_value json_max_value].
  destruct (value d) as [v|]; [|congruence].
  apply get_None_iff in Hn. rewrite Hn.
  apply get_None_iff in Hn. rewrite (set_absent _ _ _ Hn). reflexivity.
Qed.

Lemma fst_saved_node nd : fst (saved_node nd) = fst nd.
Proof. unfold saved_node. destruct (value (snd nd)); reflexivity. Qed.

Lemma keys_map_saved (l : list (Z * NodeData)) :
  PyDict.keys (map saved_node l) = PyDict.keys l.
Proof.
  unfold PyDict.keys. rewrite map_map. apply map_ext.
  intros nd. apply fst_saved_node.
Qed.

Lemma read_nodes_loop (a : list ((Z * Z) * Q)) :
  forall l cur,
    NoDup (PyDict.keys (cur ++ l)) ->
    (forall n d, In (n, d) l -> value d <> None) ->
    fold_left add_json_node (map json_of_node l) (mkGraph cur a)
    = mkGraph (cur ++ map saved_node l) a.
Proof.
  induction l as [|[n d] l IH]; intros cur Hnd Hv.
  - cbn [map fold_left]. rewrite app_nil_r. reflexivity.
  - cbn [map fold_left].
    assert (Hn : ~ In n (PyDict.keys cur)).
    { rewrite keys_app in Hnd. cbn [PyDict.keys map fst] in Hnd.
      apply NoDup_remove_2 in Hnd. rewrite in_app_iff in Hnd. tauto. }
    rewrite add_json_node_fresh;
      [|exact Hn|apply (Hv n d); left; reflexivity].
    rewrite IH.
    + rewrite <- app_assoc. reflexivity.
    + rewrite <- app_assoc. cbn [app].
      rewrite keys_app in *. cbn [PyDict.keys map] in *.
      rewrite fst_saved_node. exact Hnd.
    + intros k dk Hin. apply (Hv k dk). right. exact Hin.
Qed.

Lemma read_edges_loop (ns : list (Z * NodeData)) :
  forall l cur,
    NoDup (PyDict.keys (cur ++ l)) ->
    (forall u v w, In ((u, v), w) l ->
       In u (PyDict.keys ns) /\ In v (PyDict.keys ns)) ->
    fold_left add_json_edge (map json_of_edge l) (mkGraph ns cur)
    = mkGraph ns (cur ++ l).
Proof.
  induction l as [|[[u v] w] l IH]; intros cur Hnd Hends.
  - cbn [map fold_left]. rewrite app_nil_r. reflexivity.
  - cbn [map fold_left].
    assert (Hn : ~ In (u, v) (PyDict.keys cur)).
    { rewrite keys_app in Hnd. cbn [PyDict.keys map fst] in Hnd.
      apply NoDup_remove_2 in Hnd. rewrite in_app_iff in Hnd. tauto. }
    destruct (Hends u v w (or_introl eq_refl)) as [Hu Hv].
    assert (E : add_json_edge (mkGraph ns cur) (json_of_edge ((u, v), w))
                = mkGraph ns (cur ++ [((u, v), w)])).
    { unfold add_json_edge, json_of_edge, nx.add_edge.
      cbn [nodes adj fst snd json_source json_target json_weight].
      rewrite (touch_present u ns Hu), (touch_present v ns Hv).
      rewrite (set_absent _ _ _ Hn). reflexivity. }
    rewrite E, IH.
    + rewrite <- app_assoc. reflexivity.
    + rewrite <- app_assoc. exact Hnd.
    + intros x y z Hin. apply (Hends x y z). right. exact Hin.
Qed.

Lemma json_of_saved_node nd :
  value (snd nd) <> None -> json_of_node (saved_node nd) = json_of_node nd.
Proof.
  intros Hv. unfold saved_node. destruct nd as [n d]. cbn [fst snd] in *.
  destruct (value d) as [v|] eqn:Ev; [|congruence].
  unfold json_of_node. cbn [fst snd value]. rewrite Ev.
  unfold get_min, get_max, get_label. cbn [min_value max_value label].
  reflexivity.
Qed.

(** What [write_json] writes for a graph whose nodes carry a value, and
    the graph that [read_json] builds from it. *)
Lemma write_json_spec g :
  wf g -> all_valued g ->
  write_json g
  = Ok (mkGraphDict (map json_of_node (nodes g))
                    (map json_of_edge (edge_items g))).
Proof.
  intros Hwf Hv. unfold write_json.
  rewrite (node_entries_spec g (nodes g) Hwf (incl_refl _) Hv).
  rewrite <- keys_edge_items. unfold PyDict.keys.
  rewrite (edge_entries_spec g (edge_items g) (wf_adj Hwf)); [reflexivity|].
  intros e He. apply In_edge_items; assumption.
Qed.

Lemma read_json_spec g :
  wf g -> all_valued g ->
  read_json (mkGraphDict (map json_of_node (nodes g))
                         (map json_of_edge (edge_items g)))
  = mkGraph (map saved_node (nodes g)) (edge_items g).
Proof.
  intros Hwf Hv. unfold read_json, nx.empty. cbn [json_nodes json_edges].
  rewrite (read_nodes_loop [] (nodes g) []); [|apply (wf_nodes Hwf)|exact Hv].
  cbn [app].
  rewrite (read_edges_loop (map saved_node (nodes g)) (edge_items g) []).
  - reflexivity.
  - cbn [app]. rewrite keys_edge_items. apply NoDup_edges. exact Hwf.
  - intros u v w Hin. rewrite keys_map_saved.
    apply (wf_ends Hwf u v w). apply In_edge_items; assumption.
Qed.

Lemma wf_saved g :
  wf g -> wf (mkGraph (map saved_node (nodes g)) (edge_items g)).
Proof.
  intros Hwf. constructor; cbn [nodes adj].
  - rewrite keys_map_saved. apply (wf_nodes Hwf).
  - rewrite keys_edge_items. apply NoDup_edges. exact Hwf.
  - intros u v w Hin. rewrite keys_map_saved.
    apply (wf_ends Hwf u v w). apply In_edge_items; assumption.
Qed.

Lemma edge_items_saved g :
  wf g ->
  edge_items (mkGraph (map saved_node (nodes g)) (edge_items g))
  = edge_items g.
Proof.
  intros Hwf. unfold edge_items at 1. cbn [nodes]. rewrite keys_map_saved.
  unfold edge_items at 2. apply flat_map_ext_in. intros n Hn.
  unfold nx.out_edges. cbn [adj]. unfold edge_items, nx.out_edges.
  rewrite (filter_source_items (adj g) n _ (wf_nodes Hwf)).
  destruct (in_dec Z.eq_dec n (PyDict.keys (nodes g))); [reflexivity|].
  contradiction.
Qed.

(** X4: saving a graph whose nodes carry a value with [write_json] and
    loading it with [read_json] gives the same nodes in the same order,
    with the same value, and with the label and the two bounds that the
    code reads ([get('label', [n])], [get('min_value', value)],
    [get('max_value', value)]) now stored; the attribute [importance] is
    lost.  The edges are the same, with the same weights, and are listed
    by [edges()] in the same order. *)
Theorem json_round_trip_keeps_graph g :
  wf g -> all_valued g ->
  exists d,
    write_json g = Ok d
    /\ nodes (read_json d) = map saved_node (nodes g)
    /\ nx.edges (read_json d) = nx.edges g
    /\ (forall u v, nx.edge_value (read_json d) u v = nx.edge_value g u v)
    /\ wf (read_json d).
Proof.
  intros Hwf Hv. eexists. split; [apply write_json_spec; assumption|].
  rewrite (read_json_spec g Hwf Hv).
  split; [reflexivity|]. split; [|split].
  - rewrite <- !keys_edge_items. rewrite (edge_items_saved g Hwf). reflexivity.
  - intros u v. unfold nx.edge_value at 1. cbn [adj].
    apply edge_value_edge_items. exact Hwf.
  - apply wf_saved. exact Hwf.
Qed.

Lemma json_round_trip_keeps_graph_witness :
  wf fan /\ all_valued fan
  /\ exists d,
       write_json fan = Ok d
       /\ nodes (read_json d) = map saved_node (nodes fan)
       /\ nx.edges (read_json d) = nx.edges fan
       /\ (forall u v, nx.edge_value (read_json d) u v = nx.edge_value fan u v)
       /\ wf (read_json d).
Proof.
  assert (Hv : all_valued fan)
    by (intros n d Hin; each_node Hin; discriminate).
  split; [apply wfb_sound; reflexivity|]. split; [exact Hv|].
  apply (json_round_trip_keeps_graph fan (wfb_sound fan eq_refl) Hv).
Defined.

(** X5: saving, loading and saving again writes the same document as the
    first save: nothing more is lost or changed by further round trips. *)
Theorem json_save_load_save g :
  wf g -> all_valued g ->
  exists d,
    write_json g = Ok d /\ write_json (read_json d) = Ok d.
Proof.
  intros Hwf Hv. eexists. split; [apply write_json_spec; assumption|].
  rewrite (read_json_spec g Hwf Hv).
  rewrite write_json_spec.
  - cbn [nodes]. rewrite (edge_items_saved g Hwf). rewrite map_map.
    f_equal. f_equal. apply map_ext_in. intros [n d] Hin.
    apply json_of_saved_node. cbn [snd]. apply (Hv n d Hin).
  - apply wf_saved. exact Hwf.
  - intros n d Hin. cbn [nodes] in Hin. apply in_map_iff in Hin.
    destruct Hin as [[n' d'] [Heq Hin]]. pose proof (Hv n' d' Hin) as Hd.
    unfold saved_node in Heq. cbn [fst snd] in Heq.
    destruct (value d') as [v|]; [|congruence].
    inversion Heq; subst. discriminate.
Qed.

Lemma json_save_load_save_witness :
  wf fan /\ all_valued fan
  /\ exists d, write_json fan = Ok d /\ write_json (read_json d) = Ok d.
Proof.
  assert (Hv : all_valued fan)
    by (intros n d Hin; each_node Hin; discriminate).
  split; [apply wfb_sound; reflexivity|]. split; [exact Hv|].
  apply (json_save_load_save fan (wfb_sound fan eq_refl) Hv).
Defined.

(** ** weighted_mean_value *)










(** ** dynamics_step: range of the values and failure *)

Lemma clip01_range x : (0 <= clip01 x)%Q /\ (clip01 x <= 1)%Q.
Proof.
  unfold clip01. split; [apply Q.le_max_l|].
  apply Q.max_lub; [discriminate | apply Q.le_min_r].
Qed.

(** X6: after [dynamics_step] the value of every node lies in [[0, 1]],
    whatever the values, the weights and the factor [t] were before. *)
Theorem dynamics_step_values_in_unit_interval g t :
  wf g -> all_valued g ->
  exists g',
    dynamics_step g t = Done g'
    /\ forall n d, In (n, d) (nodes g') ->
         exists v, value d = Some v /\ (0 <= v)%Q /\ (v <= 1)%Q.
Proof.
  intros Hwf Hv.
  destruct (updated_values_spec g t Hwf Hv (nodes g) (incl_refl _))
    as [upd [Hupd Hall]].
  set (P := fun (nd : Z * NodeData) (b : Q) =>
              exists v, value (snd nd) = Some v
                /\ (b == clip01 (v + t * incoming_influence g (fst nd)))%Q).
  pose proof (Forall2_keys P _ _ Hall) as Hkeys.
  destruct (write_values_spec g upd) as [g' [Hrun [Ha [Hk Hnode]]]].
  - rewrite Hkeys. apply (wf_nodes Hwf).
  - intros i Hi. apply has_node_In. rewrite <- Hkeys. exact Hi.
  - exists g'. unfold dynamics_step. rewrite Hupd. split; [exact Hrun|].
    intros n d Hin.
    assert (Hn : In n (PyDict.keys (nodes g))).
    { rewrite <- Hk. apply in_map_iff. exists (n, d). auto. }
    apply has_node_In, has_node_node in Hn. destruct Hn as [d0 Hd0].
    pose proof (Hnode n d0 Hd0) as Hd'.
    assert (Hnd' : NoDup (PyDict.keys (nodes g')))
      by (rewrite Hk; apply (wf_nodes Hwf)).
    unfold nx.node in Hd'. rewrite (In_get _ _ _ Hnd' Hin) in Hd'.
    destruct (Forall2_get P _ _ Hall (wf_nodes Hwf) (n, d0)
                          (node_In _ _ _ Hd0))
      as [v' [Hget [v [_ Hq]]]].
    cbn [fst] in Hget, Hq. rewrite Hget in Hd'. inversion Hd'; subst d.
    exists v'. split; [reflexivity|]. rewrite Hq. apply clip01_range.
Qed.

Lemma dynamics_step_values_in_unit_interval_witness :
  wf fan /\ all_valued fan
  /\ exists g',
       dynamics_step fan 5 = Done g'
       /\ forall n d, In (n, d) (nodes g') ->
            exists v, value d = Some v /\ (0 <= v)%Q /\ (v <= 1)%Q.
Proof.
  assert (Hv : all_valued fan)
    by (intros n d Hin; each_node Hin; discriminate).
  split; [apply wfb_sound; reflexivity|]. split; [exact Hv|].
  apply (dynamics_step_values_in_unit_interval fan 5
           (wfb_sound fan eq_refl) Hv).
Defined.

Lemma influence_sum_error g t i preds vi e :
  influence_sum g t i preds vi = Err e -> e = KeyError.
Proof.
  revert vi. induction preds as [|j preds IH]; intros vi; cbn [influence_sum];
    [discriminate|].
  destruct (nx.edge_value g j i); [|congruence].
  destruct (nx.node g j) as [dj|]; [|congruence].
  destruct (value dj); [apply IH | congruence].
Qed.

Lemma updated_values_error g t (ns : list (Z * NodeData)) :
  (forall n d, In (n, d) ns -> nx.has_node g n = true) ->
  (exists n d, In (n, d) ns /\ value d = None) ->
  updated_values g t ns = Err KeyError.
Proof.
  induction ns as [|[i di] ns IH]; intros Hnodes [n [d [Hin Hnone]]];
    [destruct Hin|].
  cbn [updated_values].
  destruct (value di) as [vi|] eqn:Evi; [|reflexivity].
  unfold nx.predecessors. rewrite (Hnodes i di (or_introl eq_refl)).
  destruct (influence_sum g t i _ vi) as [vi'|e] eqn:Ei;
    [|apply influence_sum_error in Ei; congruence].
  rewrite IH; [reflexivity | |].
  - intros k dk Hk. apply (Hnodes k dk). right. exact Hk.
  - destruct Hin as [E|Hin]; [inversion E; subst; congruence|].
    exists n, d. auto.
Qed.

(** X7: when some node has no value, [dynamics_step] raises [KeyError]
    and the graph is as it was: every new value is computed before the
    first one is written, so no node is updated, wherever the node
    without a value stands in the order. *)
Theorem dynamics_step_fails_before_writing g t :
  (exists n d, In (n, d) (nodes g) /\ value d = None) ->
  dynamics_step g t = Raised KeyError g.
Proof.
  intros Hex. unfold dynamics_step.
  rewrite updated_values_error; [reflexivity | | exact Hex].
  intros n d Hin. apply has_node_In. apply in_map_iff. exists (n, d). auto.
Qed.

Lemma dynamics_step_fails_before_writing_witness :
  (exists n d, In (n, d) (nodes valueless_second) /\ value d = None)
  /\ dynamics_step valueless_second 1 = Raised KeyError valueless_second.
Proof.
  assert (Hex : exists n d, In (n, d) (nodes valueless_second)
                            /\ value d = None).
  { exists 1%Z, no_attrs. split; [right; left; reflexivity | reflexivity]. }
  split; [exact Hex|].
  apply (dynamics_step_fails_before_writing valueless_second 1 Hex).
Defined.

(** ** merge_nodes: the rest of the graph, and a node merged with itself *)

Lemma length_filter_remove (l : list (Z * NodeData)) (i : Z) :
  NoDup (PyDict.keys l) -> In i (PyDict.keys l) ->
  (length (filter (fun nd => negb (fst nd =? i)%Z) l) + 1 = length l)%nat.
Proof.
  induction l as [|[k d] l IH]; intros Hnd Hin; [destruct Hin|].
  cbn [PyDict.keys map fst] in Hnd, Hin.
  inversion Hnd as [|? ? Hk Hnd']; subst.
  cbn [filter fst length]. destruct (Z.eqb_spec k i) as [->|Hne].
  - cbn [negb]. rewrite filter_all; [lia|].
    intros [k' d'] Hin'. cbn [fst]. apply negb_true_iff, Z.eqb_neq.
    intros ->. apply Hk. apply in_map_iff. exists (i, d'). auto.
  - cbn [negb length]. destruct Hin as [E|Hin]; [congruence|].
    specialize (IH Hnd' Hin). lia.
Qed.

Lemma length_survivors (l : list (Z * NodeData)) (i j : Z) :
  NoDup (PyDict.keys l) -> i <> j ->
  In i (PyDict.keys l) -> In j (PyDict.keys l) ->
  (length (filter (survives i j) l) + 2 = length l)%nat.
Proof.
  intros Hnd Hij Hi Hj.
  rewrite <- (length_filter_remove l i Hnd Hi).
  rewrite <- (length_filter_remove
                (filter (fun nd => negb (fst nd =? i)%Z) l) j).
  - rewrite filter_filter.
    change (fun x : Z * NodeData => negb (fst x =? i)%Z && negb (fst x =? j)%Z)
      with (survives i j).
    lia.
  - apply NoDup_map_fst_filter. exact Hnd.
  - apply in_map_iff in Hj. destruct Hj as [[k d] [Hk Hin]].
    cbn [fst] in Hk. subst k. apply in_map_iff. exists (j, d).
    split; [reflexivity|]. apply filter_In. split; [exact Hin|].
    cbn [fst]. apply negb_true_iff, Z.eqb_neq. congruence.
Qed.

(** X9: away from the two merged nodes [merge_nodes] changes nothing: the
    graph has one node less, an edge between two other nodes keeps its
    weight, no edge is left at [i] or [j], and the new node has no edge
    to itself (the edges between [i] and [j] are dropped). *)
Theorem merge_nodes_leaves_the_rest g i j di dj vi vj :
  wf g -> i <> j ->
  nx.node g i = Some di -> nx.node g j = Some dj ->
  value di = Some vi -> value dj = Some vj ->
  (length (get_label i di) + length (get_label j dj) <> 0)%nat ->
  exists g' m,
    merge_nodes g i j = Done g'
    /\ nx.max_node g = Some m
    /\ (nx.number_of_nodes g' + 1 = nx.number_of_nodes g)%nat
    /\ (forall x y, x <> i -> x <> j -> y <> i -> y <> j ->
          x <> (m + 1)%Z -> y <> (m + 1)%Z ->
          nx.edge_value g' x y = nx.edge_value g x y)
    /\ (forall x, nx.has_edge g' i x = false /\ nx.has_edge g' x i = false
                  /\ nx.has_edge g' j x = false /\ nx.has_edge g' x j = false)
    /\ nx.has_edge g' (m + 1) (m + 1) = false.
Proof.
  intros Hwf Hij Hi Hj Hvi Hvj Hlen.
  destruct (merge_nodes_run g i j di dj vi vj Hwf Hi Hj Hvi Hvj Hlen)
    as [m [g1 [g2 [Hm [Hn1 [Ha1 [Hinv Hrun]]]]]]].
  assert (Hni : nx.has_node g i = true) by (apply has_node_node; eauto).
  assert (Hnj : nx.has_node g j = true) by (apply has_node_node; eauto).
  pose proof (max_node_spec g m Hm) as Hmax.
  pose proof (ri_nodes Hinv) as Hn2.
  assert (Hmi : (m + 1)%Z <> i) by (specialize (Hmax i Hni); lia).
  assert (Hmj : (m + 1)%Z <> j) by (specialize (Hmax j Hnj); lia).
  pose proof (wf_merge_nodes g i j Hwf) as Hwf'.
  rewrite remove_both in Hrun; try assumption;
    [| rewrite (has_node_same_nodes g1 g2 i Hn2);
       apply (has_node_app g1 g _ i Hn1 Hni)
     | rewrite (has_node_same_nodes g1 g2 j Hn2);
       apply (has_node_app g1 g _ j Hn1 Hnj)].
  rewrite Hrun in Hwf'. cbn [final_state] in Hwf'.
  eexists. exists m. split; [exact Hrun|]. split; [exact Hm|].
  assert (Hnodes : filter (survives i j) (nodes g2)
                   = filter (survives i j) (nodes g)
                     ++ [((m + 1)%Z, merged_node i j di dj vi vj)]).
  { rewrite Hn2, Hn1, filter_app. cbn [filter].
    rewrite survives_new by assumption. reflexivity. }
  split; [|split; [|split]].
  - unfold nx.number_of_nodes. cbn [nodes]. rewrite Hnodes, length_app.
    cbn [length].
    pose proof (length_survivors (nodes g) i j (wf_nodes Hwf) Hij
                  (proj1 (has_node_In g i) Hni) (proj1 (has_node_In g j) Hnj)).
    lia.
  - intros x y Hxi Hxj Hyi Hyj Hxm Hym.
    unfold nx.edge_value at 1. cbn [adj].
    rewrite !edge_value_not_incident by assumption.
    fold (nx.edge_value g2 x y).
    rewrite (ri_kept Hinv Hxm Hym).
    + unfold nx.edge_value. rewrite Ha1. reflexivity.
    + unfold rehome_active. apply Z.eqb_neq in Hxi, Hxj.
      rewrite Hxi, Hxj. reflexivity.
    + unfold rehome_active. apply Z.eqb_neq in Hyi, Hyj.
      rewrite Hyi, Hyj. reflexivity.
  - intros x.
    assert (Hgone : forall k, k = i \/ k = j ->
              nx.has_node
                (mkGraph (filter (survives i j) (nodes g2))
                   (filter (fun e => negb (nx.incident j e))
                      (filter (fun e => negb (nx.incident i e)) (adj g2))))
                k = false).
    { intros k Hk. apply has_node_false. cbn [nodes]. intros Hin.
      apply in_map_iff in Hin. destruct Hin as [[k' d'] [E Hin]].
      cbn [fst] in E. subst k'. apply filter_In in Hin.
      destruct Hin as [_ Hs]. unfold survives in Hs. cbn [fst] in Hs.
      destruct Hk as [-> | ->]; rewrite Z.eqb_refl in Hs;
        [|rewrite andb_false_r in Hs]; discriminate. }
    destruct (fresh_node_isolated _ i Hwf' (Hgone i (or_introl eq_refl)) x).
    destruct (fresh_node_isolated _ j Hwf' (Hgone j (or_intror eq_refl)) x).
    auto.
  - unfold nx.has_edge, PyDict.mem. cbn [adj].
    rewrite !edge_value_not_incident by assumption.
    fold (nx.edge_value g2 (m + 1) (m + 1)). rewrite (ri_loop Hinv).
    reflexivity.
Qed.

Lemma merge_nodes_leaves_the_rest_witness :
  wf fan
  /\ exists g' m,
       merge_nodes fan 0 1 = Done g'
       /\ nx.max_node fan = Some m
       /\ (nx.number_of_nodes g' + 1 = nx.number_of_nodes fan)%nat
       /\ (forall x y, x <> 0%Z -> x <> 1%Z -> y <> 0%Z -> y <> 1%Z ->
             x <> (m + 1)%Z -> y <> (m + 1)%Z ->
             nx.edge_value g' x y = nx.edge_value fan x y)
       /\ (forall x, nx.has_edge g' 0 x = false /\ nx.has_edge g' x 0 = false
                     /\ nx.has_edge g' 1 x = false /\ nx.has_edge g' x 1 = false)
       /\ nx.has_edge g' (m + 1) (m + 1) = false.
Proof.
  split; [apply wfb_sound; reflexivity|].
  apply (merge_nodes_leaves_the_rest fan 0 1 (node_at 0 (2 # 10))
           (node_at 1 (8 # 10)) (2 # 10) (8 # 10) (wfb_sound fan eq_refl)).
  - discriminate.
  - reflexivity.
  - reflexivity.
  - reflexivity.
  - reflexivity.
  - discriminate.
Defined.

Lemma merge_nodes_sums_weights_witness :
  wf fan
  /\ exists g' m,
       merge_nodes fan 0 1 = Done g'
       /\ nx.max_node fan = Some m
       /\ forall x, x <> 0%Z -> x <> 1%Z ->
            opt_eq (nx.edge_value g' (m + 1) x)
                   (total (nx.edge_value fan 0 x) (nx.edge_value fan 1 x))
            /\ opt_eq (nx.edge_value g' x (m + 1))
                      (total (nx.edge_value fan x 0) (nx.edge_value fan x 1)).
Proof.
  split; [apply wfb_sound; reflexivity|].
  apply (merge_nodes_sums_weights fan 0 1 (node_at 0 (2 # 10))
           (node_at 1 (8 # 10)) (2 # 10) (8 # 10) (wfb_sound fan eq_refl)).
  - discriminate.
  - reflexivity.
  - reflexivity.
  - reflexivity.
  - reflexivity.
  - discriminate.
Defined.



(** ** simplify_graph_one_iteration: progress *)

Lemma In_combinations2 {A : Type} (l : list A) (a b : A) :
  In (a, b) (combinations2 l) -> In a l /\ In b l.
Proof.
  induction l as [|x l IH]; cbn [combinations2]; [intros []|].
  rewrite in_app_iff, in_map_iff. intros [[y [E Hy]]|Hin].
  - inversion E; subst. split; [left; reflexivity | right; exact Hy].
  - destruct (IH Hin). split; right; assumption.
Qed.

Lemma combinations2_distinct {A : Type} (l : list A) (a b : A) :
  NoDup l -> In (a, b) (combinations2 l) -> a <> b.
Proof.
  induction l as [|x l IH]; cbn [combinations2]; intros Hnd; [intros []|].
  inversion Hnd as [|? ? Hx Hnd']; subst.
  rewrite in_app_iff, in_map_iff. intros [[y [E Hy]]|Hin].
  - inversion E; subst. intros ->. contradiction.
  - apply IH; assumption.
Qed.

Lemma combinations2_complete {A : Type} (l : list A) (a b : A) :
  In a l -> In b l -> a <> b ->
  In (a, b) (combinations2 l) \/ In (b, a) (combinations2 l).
Proof.
  induction l as [|x l IH]; cbn [combinations2]; [intros []|].
  intros Ha Hb Hab. rewrite !in_app_iff, !in_map_iff.
  destruct Ha as [->|Ha], Hb as [->|Hb].
  - congruence.
  - left. left. exists b. auto.
  - right. left. exists a. auto.
  - destruct (IH Ha Hb Hab); [left | right]; right; assumption.
Qed.

Lemma two_keys {A : Type} (l : list A) (a b : A) :
  In a l -> In b l -> a <> b -> (2 <= length l)%nat.
Proof.
  destruct l as [|x [|y l]]; cbn [length In]; intros Ha Hb Hab; [tauto| |lia].
  destruct Ha as [<-|[]], Hb as [<-|[]]. congruence.
Qed.

Lemma Qdiv_nonneg a b : (0 <= a)%Q -> (0 <= b)%Q -> (0 <= a / b)%Q.
Proof.
  intros Ha Hb. unfold Qdiv. apply Qmult_le_0_compat; [exact Ha|].
  apply Qinv_le_0_compat. exact Hb.
Qed.

(** The default score is not negative for values in [[0, 1]], weights that
    are not negative and labels not both empty. *)
Lemma default_similarity_nonneg vi vj size_i size_j e r :
  (0 <= vi)%Q -> (vi <= 1)%Q -> (0 <= vj)%Q -> (vj <= 1)%Q ->
  (size_i + size_j <> 0)%nat ->
  (forall w, e = Some w -> (0 <= w)%Q) ->
  (forall w, r = Some w -> (0 <= w)%Q) ->
  exists s, default_similarity vi vj size_i size_j e r = Ok s /\ (0 <= s)%Q.
Proof.
  intros Hi0 Hi1 Hj0 Hj1 Hsz He Hr.
  unfold default_similarity, default_similarity_function, py_div.
  rewrite (Qnat_nonzero _ Hsz).
  assert (Hprox : (0 <= 1 * (1 - Qabs (vi - vj)))%Q).
  { assert (Qabs (vi - vj) <= 1)%Q
      by (apply Qabs_diff_Qle_condition; split; lra).
    lra. }
  assert (Hext : (0 <= (1 # 10) * Qmin (Qmin vi vj) (Qmin (1 - vi) (1 - vj)))%Q).
  { apply Qmult_le_0_compat; [discriminate|].
    repeat apply Q.min_glb; lra. }
  assert (Hsize : (0 <= 10 * (1 / (1 + Qnat size_i) + 1 / (1 + Qnat size_j)))%Q).
  { pose proof (Qnat_nonneg size_i). pose proof (Qnat_nonneg size_j).
    apply Qmult_le_0_compat; [discriminate|].
    assert (0 <= 1 / (1 + Qnat size_i))%Q by (apply Qdiv_nonneg; lra).
    assert (0 <= 1 / (1 + Qnat size_j))%Q by (apply Qdiv_nonneg; lra).
    lra. }
  assert (Hshare : forall w n, (0 <= w)%Q ->
            (0 <= w * Qnat n / Qnat (size_i + size_j))%Q).
  { intros w n Hw. apply Qdiv_nonneg; [|apply Qnat_nonneg].
    apply Qmult_le_0_compat; [exact Hw | apply Qnat_nonneg]. }
  destruct e as [we|], r as [wr|]; eexists; (split; [reflexivity|]).
  - pose proof (Hshare we size_j (He we eq_refl)).
    pose proof (Hshare wr size_i (Hr wr eq_refl)). lra.
  - pose proof (Hshare we size_j (He we eq_refl)). lra.
  - pose proof (Hshare wr size_i (Hr wr eq_refl)). lra.
  - lra.
Qed.

Lemma compute_similarity_total g i j :
  wf g -> opinions_in_unit g -> labels_nonempty g -> weights_nonneg g ->
  nx.has_node g i = true -> nx.has_node g j = true ->
  exists s,
    compute_similarity default_similarity g i j None = Ok s
    /\ (nx.has_edge g i j || nx.has_edge g j i = true -> (0 <= s)%Q).
Proof.
  intros Hwf Hop Hlab Hw Hi Hj. unfold compute_similarity.
  destruct (nx.has_edge g i j || nx.has_edge g j i) eqn:Hadj.
  - apply has_node_node in Hi, Hj. destruct Hi as [di Hdi], Hj as [dj Hdj].
    destruct (Hop i di (node_In _ _ _ Hdi)) as [vi [Hvi [Hi0 Hi1]]].
    destruct (Hop j dj (node_In _ _ _ Hdj)) as [vj [Hvj [Hj0 Hj1]]].
    assert (E : negb (nx.has_edge g i j) && negb (nx.has_edge g j i) = false).
    { rewrite <- negb_orb, Hadj. reflexivity. }
    rewrite E, Hdi, Hvi, Hdj, Hvj.
    destruct (default_similarity_nonneg vi vj (length (get_label i di))
                (length (get_label j dj)) (nx.edge_value g i j)
                (nx.edge_value g j i) Hi0 Hi1 Hj0 Hj1) as [s [Hs Hpos]].
    + pose proof (Hlab i di (node_In _ _ _ Hdi)) as Hl.
      destruct (get_label i di); [congruence | cbn [length]; lia].
    + intros w Hget. apply (Hw ((i, j), w)). apply get_Some_In. exact Hget.
    + intros w Hget. apply (Hw ((j, i), w)). apply get_Some_In. exact Hget.
    + exists s. split; [exact Hs | intros _; exact Hpos].
  - assert (E : negb (nx.has_edge g i j) && negb (nx.has_edge g j i) = true).
    { rewrite <- negb_orb, Hadj. reflexivity. }
    rewrite E. eexists. split; [reflexivity | discriminate].
Qed.

Lemma keys_reset_labels g :
  PyDict.keys (nodes (reset_labels g)) = PyDict.keys (nodes g).
Proof.
  unfold reset_labels, PyDict.keys. cbn [nodes]. rewrite map_map.
  apply map_ext. reflexivity.
Qed.

(** The properties that the first statement of
    [simplify_graph_one_iteration] keeps. *)
Lemma init_labels_keeps g :
  nodes g <> [] ->
  wf g -> opinions_in_unit g -> labels_nonempty g -> weights_nonneg g ->
  exists g0,
    init_labels g = Done g0
    /\ wf g0 /\ opinions_in_unit g0 /\ labels_nonempty g0 /\ weights_nonneg g0
    /\ adj g0 = adj g
    /\ PyDict.keys (nodes g0) = PyDict.keys (nodes g).
Proof.
  intros Hne Hwf Hop Hlab Hw. unfold init_labels.
  destruct (nodes g) as [|[n d] rest] eqn:En; [congruence|].
  destruct (label d).
  - exists g. rewrite En. auto 10.
  - exists (reset_labels g). split; [reflexivity|].
    assert (Hk : PyDict.keys (nodes (reset_labels g)) = PyDict.keys (nodes g))
      by apply keys_reset_labels.
    rewrite En in Hk.
    assert (Hin : forall k dk, In (k, dk) (nodes (reset_labels g)) ->
              exists d0, In (k, d0) (nodes g)
                         /\ value dk = value d0 /\ label dk = Some [k]).
    { intros k dk Hin. unfold reset_labels in Hin. cbn [nodes] in Hin.
      apply in_map_iff in Hin. destruct Hin as [[k0 d0] [E Hin]].
      cbn [fst snd] in E. inversion E; subst. exists d0. auto. }
    split; [|split; [|split; [|split; [|split]]]].
    + constructor.
      * rewrite Hk, <- En. apply (wf_nodes Hwf).
      * apply (wf_adj Hwf).
      * intros u v w He. rewrite Hk, <- En. apply (wf_ends Hwf u v w He).
    + intros k dk Hk'. destruct (Hin k dk Hk') as [d0 [Hin0 [Hv _]]].
      rewrite Hv. apply (Hop k d0 Hin0).
    + intros k dk Hk'. destruct (Hin k dk Hk') as [d0 [_ [_ Hl]]].
      unfold get_label. rewrite Hl. discriminate.
    + exact Hw.
    + reflexivity.
    + exact Hk.
Qed.

(** X11: one iteration of the simplification makes progress.  On a graph
    with values in [[0, 1]], no negative weight, no empty label and at
    least one edge between two different nodes, the call with the default
    similarity returns and the graph has exactly one node less. *)
Theorem simplify_removes_one_node g :
  wf g -> opinions_in_unit g -> labels_nonempty g -> weights_nonneg g ->
  (exists u v, u <> v /\ nx.has_edge g u v = true) ->
  exists g',
    simplify_graph_one_iteration default_similarity g = Done g'
    /\ (nx.number_of_nodes g' + 1 = nx.number_of_nodes g)%nat.
Proof.
  intros Hwf Hop Hlab Hw [u [v [Huv Hedge]]].
  assert (Hends : In u (PyDict.keys (nodes g)) /\ In v (PyDict.keys (nodes g))).
  { apply has_edge_value in Hedge. destruct Hedge as [w Hget].
    apply (wf_ends Hwf u v w). apply get_Some_In. exact Hget. }
  destruct Hends as [Hu Hv].
  assert (Hne : nodes g <> []) by (intros E; rewrite E in Hu; destruct Hu).
  destruct (init_labels_keeps g Hne Hwf Hop Hlab Hw)
    as [g0 [Hinit [Hwf0 [Hop0 [Hlab0 [Hw0 [Ha0 Hk0]]]]]]].
  assert (Hlen : nx.number_of_nodes g0 = nx.number_of_nodes g).
  { unfold nx.number_of_nodes.
    rewrite <- (length_map fst (nodes g0)), <- (length_map fst (nodes g)).
    unfold PyDict.keys in Hk0. rewrite Hk0. reflexivity. }
  assert (Hedge0 : nx.has_edge g0 u v = true)
    by (unfold nx.has_edge; rewrite Ha0; exact Hedge).
  rewrite <- Hk0 in Hu, Hv.
  pose proof (two_keys _ u v Hu Hv Huv) as Htwo.
  unfold PyDict.keys in Htwo. rewrite length_map in Htwo.
  unfold simplify_graph_one_iteration. rewrite Hinit. cbn [bind].
  assert (Hleb : (nx.number_of_nodes g0 <=? 1)%nat = false)
    by (apply Nat.leb_gt; unfold nx.number_of_nodes; lia).
  rewrite Hleb.
  set (sim := fun i j => compute_similarity default_similarity g0 i j None).
  set (pairs := combinations2 (PyDict.keys (nodes g0))).
  assert (Hscore : forall q, In q pairs ->
            exists s, sim (fst q) (snd q) = Ok s
                      /\ (nx.has_edge g0 (fst q) (snd q)
                          || nx.has_edge g0 (snd q) (fst q) = true -> (0 <= s)%Q)).
  { intros [a b] Hq. apply In_combinations2 in Hq. destruct Hq as [Ha Hb].
    apply compute_similarity_total; try assumption; apply has_node_In;
      assumption. }
  destruct (best_pair_spec sim pairs) with (b0 := (-1 # 1)%Q)
                                            (p0 := @None (Z * Z))
    as [b [p [Hbest Hcase]]].
  { intros q Hq. destruct (Hscore q Hq) as [s [Hs _]]. eauto. }
  rewrite Hbest.
  destruct Hcase as [[_ [_ Hall]] | [q [-> [Hfirst Hb]]]].
  - exfalso.
    destruct (combinations2_complete _ u v Hu Hv Huv) as [Hq|Hq];
      destruct (Hscore _ Hq) as [s [Hs Hpos]]; cbn [fst snd] in Hs, Hpos;
      pose proof (Hall _ s Hq Hs) as Hle;
      rewrite Hedge0, ?orb_true_r in Hpos; specialize (Hpos eq_refl); lra.
  - destruct Hfirst as [before [after [Hsplit _]]].
    assert (Hq : In q pairs)
      by (fold pairs in Hsplit; rewrite Hsplit; apply in_or_app; right; left;
          reflexivity).
    destruct q as [i j].
    pose proof (combinations2_distinct _ i j (wf_nodes Hwf0) Hq) as Hij.
    apply In_combinations2 in Hq. destruct Hq as [Hi Hj].
    pose proof Hi as Hi'. pose proof Hj as Hj'.
    apply has_node_In, has_node_node in Hi, Hj.
    destruct Hi as [di Hdi], Hj as [dj Hdj].
    destruct (Hop0 i di (node_In _ _ _ Hdi)) as [vi [Hvi _]].
    destruct (Hop0 j dj (node_In _ _ _ Hdj)) as [vj [Hvj _]].
    destruct (merge_nodes_returns g0 i j di dj vi vj Hwf0 Hij Hdi Hdj Hvi Hvj)
      as [g' [m [Hrun [_ Hn]]]].
    + pose proof (Hlab0 i di (node_In _ _ _ Hdi)) as Hl.
      destruct (get_label i di); [congruence | cbn [length]; lia].
    + exists g'. split; [exact Hrun|].
      rewrite <- Hlen. unfold nx.number_of_nodes.
      rewrite Hn, length_app. cbn [length].
      pose proof (length_survivors (nodes g0) i j (wf_nodes Hwf0) Hij Hi' Hj').
      lia.
Qed.

Lemma simplify_removes_one_node_witness :
  wf two_nodes /\ opinions_in_unit two_nodes /\ labels_nonempty two_nodes
  /\ weights_nonneg two_nodes
  /\ (exists u v, u <> v /\ nx.has_edge two_nodes u v = true)
  /\ exists g',
       simplify_graph_one_iteration default_similarity two_nodes = Done g'
       /\ (nx.number_of_nodes g' + 1 = nx.number_of_nodes two_nodes)%nat.
Proof.
  assert (Hop : opinions_in_unit two_nodes).
  { intros n d Hin. each_node Hin; eexists; (split; [reflexivity|]);
      split; discriminate. }
  assert (Hlab : labels_nonempty two_nodes)
    by (intros n d Hin; each_node Hin; discriminate).
  assert (Hw : weights_nonneg two_nodes)
    by (intros e Hin; simpl in Hin; destruct Hin as [<-|[]]; discriminate).
  assert (Hex : exists u v, u <> v /\ nx.has_edge two_nodes u v = true).
  { exists 0%Z, 1%Z. split; [discriminate | reflexivity]. }
  split; [apply wfb_sound; reflexivity|].
  split; [exact Hop|]. split; [exact Hlab|]. split; [exact Hw|].
  split; [exact Hex|].
  apply (simplify_removes_one_node two_nodes (wfb_sound two_nodes eq_refl)
           Hop Hlab Hw Hex).
Defined.

(** ** merge_clusters: when it returns, and what it keeps *)


Lemma gather_total g c :
  (forall x, In x c -> nx.has_node g x = true) ->
  forall a0, exists a, gather g c a0 = Ok a.
Proof.
  induction c as [|x c IH]; intros Hall a0; cbn [gather]; [eauto|].
  destruct (proj1 (has_node_node g x) (Hall x (or_introl eq_refl))) as [d Hd].
  rewrite Hd. apply IH. intros y Hy. apply Hall. right. exact Hy.
Qed.

Lemma create_loop_total g m :
  forall cl news,
    Forall2 (fun c n => forall x, In x c -> PyDict.get x m = Some n) cl news ->
    forall gc,
      NoDup news ->
      (forall n, In n news -> nx.has_node gc n = false) ->
      (forall x, In x (concat cl) -> nx.has_node g x = true) ->
      (forall c, In c cl -> c <> []) ->
      (exists extra0, nodes gc = nodes g ++ extra0) ->
      exists g1, fold_run (create_cluster m) cl gc = Done g1.
Proof.
  induction 1 as [|c n cl news Hcn HF IH];
    intros gc Hnd Hfresh Hmem Hne [extra0 Hgc]; cbn [fold_run]; [eauto|].
  destruct c as [|first rest];
    [exfalso; apply (Hne [] (or_introl eq_refl)); reflexivity|].
  assert (Hc : forall x, In x (first :: rest) -> nx.has_node g x = true).
  { intros x Hx. apply Hmem. rewrite concat_cons. apply in_or_app. auto. }
  destruct (gather_total g (first :: rest) Hc acc0) as [a Ha].
  assert (Hext : gather gc (first :: rest) acc0 = Ok a).
  { rewrite <- Ha. apply gather_ext. intros x Hx.
    apply (node_app_l g gc extra0 x Hgc). apply Hc. exact Hx. }
  unfold create_cluster at 1.
  rewrite (Hcn first (or_introl eq_refl)), Hext. cbn [bind].
  inversion Hnd as [|? ? Hnotin Hnd']; subst.
  assert (Hn : nodes (nx.add_node gc n (cluster_node a))
               = nodes gc ++ [(n, update_attrs no_attrs (cluster_node a))]).
  { apply add_node_fresh. apply Hfresh. left. reflexivity. }
  apply IH.
  - exact Hnd'.
  - intros n' Hn'. rewrite <- not_true_iff_false, has_node_In, Hn.
    rewrite keys_app, in_app_iff. cbn [PyDict.keys map fst In].
    intros [Hin|[->|[]]].
    + apply has_node_In in Hin. rewrite Hfresh in Hin; [discriminate|].
      right. exact Hn'.
    + contradiction.
  - intros x Hx. apply Hmem. rewrite concat_cons. apply in_or_app. auto.
  - intros c Hc'. apply Hne. right. exact Hc'.
  - exists (extra0 ++ [(n, update_attrs no_attrs (cluster_node a))]).
    rewrite Hn, Hgc, app_assoc. reflexivity.
Qed.

Lemma has_edge_of_successor g o succs s :
  nx.successors g o = Ok succs -> In s succs -> nx.has_edge g o s = true.
Proof.
  unfold nx.successors. destruct (nx.has_node g o); [|discriminate].
  intros E Hs. inversion E; subst. apply in_map_iff in Hs.
  destruct Hs as [[[u v] w] [Hv Hin]]. cbn [fst snd] in Hv. subst v.
  apply filter_In in Hin. destruct Hin as [Hin Hu]. cbn [fst] in Hu.
  apply Z.eqb_eq in Hu. subst u.
  unfold nx.has_edge. apply mem_true_iff. apply in_map_iff.
  exists ((o, s), w). auto.
Qed.

Lemma has_edge_of_predecessor g o preds p :
  nx.predecessors g o = Ok preds -> In p preds -> nx.has_edge g p o = true.
Proof.
  unfold nx.predecessors. destruct (nx.has_node g o); [|discriminate].
  intros E Hp. inversion E; subst. apply in_map_iff in Hp.
  destruct Hp as [[[u v] w] [Hu Hin]]. cbn [fst snd] in Hu. subst u.
  apply filter_In in Hin. destruct Hin as [Hin Hv]. cbn [fst snd] in Hv.
  apply Z.eqb_eq in Hv. subst v.
  unfold nx.has_edge. apply mem_true_iff. apply in_map_iff.
  exists ((p, o), w). auto.
Qed.

Lemma has_edge_add_edge_old g a b w u v :
  nx.has_edge g u v = true -> nx.has_edge (nx.add_edge g a b w) u v = true.
Proof.
  intros H. rewrite has_edge_add_edge.
  destruct (eq_dec (a, b) (u, v)); [reflexivity | exact H].
Qed.

Lemma move_successors_total m o n g0 :
  n <> o -> 
  forall succs g,
    wf g -> nodes g = nodes g0 ->
    nx.has_node g0 n = true ->
    (forall s, In s succs -> nx.has_node g0 (mapped m s) = true) ->
    (forall s, In s succs -> nx.has_edge g o s = true) ->
    exists g1,
      fold_run (move_successor m o n) succs g = Done g1
      /\ wf g1 /\ nodes g1 = nodes g0.
Proof.
  intros Hno. induction succs as [|s succs IH];
    intros g Hwf Hn Hnew Hmap Hedge; cbn [fold_run]; [eauto|].
  unfold move_successor at 1.
  destruct (proj1 (has_edge_value g o s) (Hedge s (or_introl eq_refl)))
    as [w Hw].
  apply Z.eqb_neq in Hno. rewrite Hw, Hno. cbn [andb].
  assert (Hstep : forall g', (g' = g \/ g' = nx.add_edge g n (mapped m s) w) ->
            exists g1, fold_run (move_successor m o n) succs g' = Done g1
                       /\ wf g1 /\ nodes g1 = nodes g0).
  { intros g' Hg'. apply Z.eqb_neq in Hno. apply IH.
    - destruct Hg' as [->| ->]; [exact Hwf | apply wf_add_edge; exact Hwf].
    - destruct Hg' as [->| ->]; [exact Hn|].
      rewrite nodes_add_edge_present; [exact Hn | |];
        rewrite (has_node_same_nodes g0 g _ Hn);
        [exact Hnew | apply Hmap; left; reflexivity].
    - exact Hnew.
    - intros x Hx. apply Hmap. right. exact Hx.
    - intros x Hx. destruct Hg' as [->| ->].
      + apply Hedge. right. exact Hx.
      + apply has_edge_add_edge_old. apply Hedge. right. exact Hx. }
  destruct (negb (mapped m s =? n)%Z); cbn [bind]; apply Hstep; auto.
Qed.

Lemma move_predecessors_total m o n g0 :
  n <> o -> 
  forall preds g,
    wf g -> nodes g = nodes g0 ->
    nx.has_node g0 n = true ->
    (forall p, In p preds -> nx.has_node g0 (mapped m p) = true) ->
    (forall p, In p preds -> nx.has_edge g p o = true) ->
    exists g1,
      fold_run (move_predecessor m o n) preds g = Done g1
      /\ wf g1 /\ nodes g1 = nodes g0.
Proof.
  intros Hno. induction preds as [|p preds IH];
    intros g Hwf Hn Hnew Hmap Hedge; cbn [fold_run]; [eauto|].
  unfold move_predecessor at 1.
  destruct (proj1 (has_edge_value g p o) (Hedge p (or_introl eq_refl)))
    as [w Hw].
  apply Z.eqb_neq in Hno. rewrite Hw, Hno. cbn [andb].
  assert (Hstep : forall g', (g' = g \/ g' = nx.add_edge g (mapped m p) n w) ->
            exists g1, fold_run (move_predecessor m o n) preds g' = Done g1
                       /\ wf g1 /\ nodes g1 = nodes g0).
  { intros g' Hg'. apply Z.eqb_neq in Hno. apply IH.
    - destruct Hg' as [->| ->]; [exact Hwf | apply wf_add_edge; exact Hwf].
    - destruct Hg' as [->| ->]; [exact Hn|].
      rewrite nodes_add_edge_present; [exact Hn | |];
        rewrite (has_node_same_nodes g0 g _ Hn);
        [apply Hmap; left; reflexivity | exact Hnew].
    - exact Hnew.
    - intros x Hx. apply Hmap. right. exact Hx.
    - intros x Hx. destruct Hg' as [->| ->].
      + apply Hedge. right. exact Hx.
      + apply has_edge_add_edge_old. apply Hedge. right. exact Hx. }
  destruct (negb (mapped m p =? n)%Z); cbn [bind]; apply Hstep; auto.
Qed.

Lemma reassign_total m g o n :
  wf g ->
  (forall x n', In (x, n') m -> nx.has_node g n' = true) ->
  In (o, n) m -> n <> o -> nx.has_node g o = true ->
  exists g',
    reassign m g (o, n) = Done g'
    /\ wf g' /\ nodes g' = PyDict.del o (nodes g).
Proof.
  intros Hwf Hval Hin Hno Ho. unfold reassign.
  destruct (nx.successors g o) as [succs|e] eqn:Hs;
    [|unfold nx.successors in Hs; rewrite Ho in Hs; discriminate].
  assert (Hn : nx.has_node g n = true) by (apply (Hval o n Hin)).
  destruct (move_successors_total m o n g Hno succs g Hwf eq_refl Hn)
    as [g1 [Hrun1 [Hwf1 Hn1]]].
  { intros s Hsin. apply mapped_node; [exact Hval|].
    apply (successors_nodes g o succs Hwf Hs s Hsin). }
  { intros s Hsin. apply (has_edge_of_successor g o succs s Hs Hsin). }
  rewrite Hrun1. cbn [bind].
  assert (Ho1 : nx.has_node g1 o = true)
    by (rewrite (has_node_same_nodes g g1 o Hn1); exact Ho).
  destruct (nx.predecessors g1 o) as [preds|e] eqn:Hp;
    [|unfold nx.predecessors in Hp; rewrite Ho1 in Hp; discriminate].
  destruct (move_predecessors_total m o n g Hno preds g1 Hwf1 Hn1 Hn)
    as [g2 [Hrun2 [Hwf2 Hn2]]].
  { intros p Hpin. apply mapped_node; [exact Hval|].
    rewrite <- (has_node_same_nodes g g1 p Hn1).
    apply (predecessors_nodes g1 o preds Hwf1 Hp p Hpin). }
  { intros p Hpin. apply (has_edge_of_predecessor g1 o preds p Hp Hpin). }
  rewrite Hrun2. cbn [bind].
  assert (Ho2 : nx.has_node g2 o = true)
    by (rewrite (has_node_same_nodes g g2 o Hn2); exact Ho).
  rewrite (remove_node_done g2 o Ho2). eexists. split; [reflexivity|].
  split.
  - pose proof (wf_remove_node g2 o Hwf2) as H.
    rewrite (remove_node_done g2 o Ho2) in H. exact H.
  - cbn [nodes]. rewrite Hn2. reflexivity.
Qed.

Lemma reassign_loop_total m :
  (forall x n, In (x, n) m -> ~ In n (PyDict.keys m)) ->
  forall items g,
    incl items m -> NoDup (PyDict.keys items) ->
    wf g ->
    (forall x n, In (x, n) m -> nx.has_node g n = true) ->
    (forall o, In o (PyDict.keys items) -> nx.has_node g o = true) ->
    exists g', fold_run (reassign m) items g = Done g'.
Proof.
  intros Hnk. induction items as [|[o n] items IH];
    intros g Hincl Hnd Hwf Hval Hold; cbn [fold_run]; [eauto|].
  cbn [PyDict.keys map fst] in Hnd, Hold.
  inversion Hnd as [|? ? Ho Hnd']; subst.
  assert (Hin : In (o, n) m) by (apply Hincl; left; reflexivity).
  assert (Hno : n <> o).
  { intros ->. apply (Hnk o o Hin). apply in_map_iff. exists (o, o). auto. }
  destruct (reassign_total m g o n Hwf Hval Hin Hno
              (Hold o (or_introl eq_refl))) as [g' [Hrun [Hwf' Hn']]].
  rewrite Hrun. cbn [bind]. apply IH.
  - intros x Hx. apply Hincl. right. exact Hx.
  - exact Hnd'.
  - exact Hwf'.
  - intros x n' Hx. apply has_node_In. rewrite Hn', In_keys_del. split.
    + intros ->. apply (Hnk x o Hx). apply in_map_iff. exists (o, n). auto.
    + apply has_node_In. apply (Hval x n' Hx).
  - intros o' Ho'. apply has_node_In. rewrite Hn', In_keys_del. split.
    + intros ->. contradiction.
    + apply has_node_In. apply Hold. right. exact Ho'.
Qed.

(** A plan whose clusters are not empty is carried out to the end. *)
Lemma plan_total g m cl news :
  plan_ok g m cl news -> wf g ->
  (forall c, In c cl -> c <> []) ->
  exists g1 g' extra,
    fold_run (create_cluster m) cl g = Done g1
    /\ fold_run (reassign m) m g1 = Done g'
    /\ nodes g1 = nodes g ++ extra
    /\ PyDict.keys extra = news
    /\ nodes g' = filter (fun nd => negb (inb (fst nd) (PyDict.keys m)))
                         (nodes g) ++ extra.
Proof.
  intros Hp Hwf Hne.
  destruct (create_loop_total g m cl news (po_news Hp) g (po_news_nodup Hp)
              (po_news_fresh Hp) (plan_members g m cl news Hp) Hne)
    as [g1 Hc]; [exists []; rewrite app_nil_r; reflexivity|].
  destruct (plan_created g m cl news g1 Hp Hwf Hc)
    as [Hwf1 [Hval [extra [Hn [Hk Hl]]]]].
  destruct (reassign_loop_total m (plan_value_not_key g m cl news Hp)
              m g1 (incl_refl _) (po_keys_nodup Hp) Hwf1 Hval) as [g' Hr].
  { intros o Ho. apply (has_node_app g1 g extra o Hn).
    apply (po_keys_in Hp o Ho). }
  destruct (reassign_loop_nodes m (plan_value_not_key g m cl news Hp)
              m g1 (incl_refl _) Hwf1 Hval) as [_ [_ Hd]].
  exists g1, g', extra. split; [exact Hc|]. split; [exact Hr|].
  split; [exact Hn|]. split; [exact Hk|].
  rewrite (Hd g' Hr), Hn, filter_app. f_equal.
  apply filter_all. intros [k d] Hin. cbn [fst].
  unfold inb. destruct (in_dec eq_dec k (PyDict.keys m)) as [Hkm|]; [|reflexivity].
  exfalso. pose proof (po_keys_in Hp k Hkm) as Hnode.
  rewrite (po_news_fresh Hp k) in Hnode; [discriminate|].
  rewrite <- Hk. apply (in_map fst) in Hin. exact Hin.
Qed.

Lemma assign_cluster_ok g n c :
  forall m0,
    (forall x, In x c -> nx.has_node g x = true /\ ~ In x (PyDict.keys m0)) ->
    NoDup c ->
    assign_cluster g n c m0 = Ok (m0 ++ map (fun x => (x, n)) c).
Proof.
  induction c as [|x c IH]; intros m0 Hall Hnd; cbn [assign_cluster map].
  - rewrite app_nil_r. reflexivity.
  - inversion Hnd as [|? ? Hx Hnd']; subst.
    destruct (Hall x (or_introl eq_refl)) as [Hnode Hfresh].
    rewrite Hnode. apply mem_false_iff in Hfresh. rewrite Hfresh.
    apply mem_false_iff in Hfresh. cbn [negb andb].
    rewrite (set_absent _ _ _ Hfresh), IH.
    + rewrite <- app_assoc. reflexivity.
    + intros y Hy. destruct (Hall y (or_intror Hy)) as [Hn Hf].
      split; [exact Hn|]. rewrite keys_app, in_app_iff.
      cbn [PyDict.keys map fst In]. intros [Hin|[->|[]]]; contradiction.
    + exact Hnd'.
Qed.

Lemma assign_clusters_ok g cs :
  forall s m0,
    (forall x, In x (concat cs) ->
       nx.has_node g x = true /\ ~ In x (PyDict.keys m0)) ->
    NoDup (concat cs) ->
    assign_clusters g s cs m0 = Ok (m0 ++ tagged s cs).
Proof.
  induction cs as [|c cs IH]; intros s m0 Hall Hnd;
    cbn [assign_clusters tagged].
  - rewrite app_nil_r. reflexivity.
  - rewrite concat_cons in Hall, Hnd.
    rewrite assign_cluster_ok.
    + rewrite IH.
      * rewrite <- app_assoc. reflexivity.
      * intros x Hx. destruct (Hall x (in_or_app _ _ _ (or_intror Hx)))
          as [Hn Hf].
        split; [exact Hn|]. rewrite keys_app, in_app_iff, keys_map_tag.
        intros [Hin|Hin]; [contradiction|].
        apply NoDup_app_remove_l in Hnd as Hnd'.
        revert Hin Hx. clear - Hnd. induction c as [|y c IHc];
          cbn [app In] in *; [tauto|].
        inversion Hnd as [|? ? Hy Hnd']; subst.
        intros [->|Hin] Hx; [apply Hy; apply in_or_app; auto|].
        apply (IHc Hnd' Hin Hx).
      * apply NoDup_app_remove_l in Hnd. exact Hnd.
    + intros x Hx. apply Hall. apply in_or_app. auto.
    + apply NoDup_app_remove_r in Hnd. exact Hnd.
Qed.

Lemma cluster_plan_list_ok set_iter g cs m :
  nx.max_node g = Some m ->
  NoDup (concat cs) ->
  (forall x, In x (concat cs) -> nx.has_node g x = true) ->
  cluster_plan set_iter g (ClustersList cs) = Ok (tagged (m + 1) cs, cs)
  /\ plan_ok g (tagged (m + 1) cs) cs (fresh_ids (m + 1) (length cs)).
Proof.
  intros Hm Hnd Hall.
  assert (E : cluster_plan set_iter g (ClustersList cs)
              = Ok (tagged (m + 1) cs, cs)).
  { unfold cluster_plan. rewrite Hm, assign_clusters_ok; [reflexivity| |exact Hnd].
    intros x Hx. split; [apply Hall; exact Hx | intros []]. }
  split; [exact E|].
  destruct (plan_ok_list set_iter g cs _ _ E) as [m' [Hm' [_ [_ Hp]]]].
  rewrite Hm in Hm'. inversion Hm'; subst m'. exact Hp.
Qed.

Lemma length_filter_out (ks : list Z) :
  forall l : list (Z * NodeData),
    NoDup (PyDict.keys l) -> NoDup ks ->
    (forall k, In k ks -> In k (PyDict.keys l)) ->
    (length (filter (fun nd => negb (inb (fst nd) ks)) l) + length ks
     = length l)%nat.
Proof.
  induction ks as [|k ks IH]; intros l Hl Hks Hin.
  - rewrite filter_all; [cbn [length]; lia | reflexivity].
  - inversion Hks as [|? ? Hk Hks']; subst.
    rewrite <- filter_del_keys, del_as_filter.
    specialize (IH (filter (fun nd => negb (fst nd =? k)%Z) l)).
    rewrite <- (length_filter_remove l k Hl (Hin k (or_introl eq_refl))).
    cbn [length]. rewrite <- IH; [lia | | exact Hks' |].
    + apply NoDup_map_fst_filter. exact Hl.
    + intros k' Hk'. pose proof (Hin k' (or_intror Hk')) as Hkl.
      apply in_map_iff in Hkl. destruct Hkl as [[x d] [E Hx]].
      cbn [fst] in E. subst x. apply in_map_iff. exists (k', d).
      split; [reflexivity|]. apply filter_In. split; [exact Hx|].
      cbn [fst]. apply negb_true_iff, Z.eqb_neq. intros ->. contradiction.
Qed.

Lemma length_fresh_ids n : forall s, length (fresh_ids s n) = n.
Proof. induction n as [|n IH]; intros s; cbn; [|rewrite IH]; reflexivity. Qed.

(** X12: the list form of [merge_clusters] returns whenever the clusters
    are not empty, name nodes of the graph and name no node twice.  The
    nodes outside the clusters stay as they are and in their order; one
    node per cluster is appended, with the ids [max + 1], [max + 2], ... in
    the order of the list. *)
Theorem merge_clusters_list_returns set_iter g cs :
  wf g -> nodes g <> [] ->
  NoDup (concat cs) ->
  (forall x, In x (concat cs) -> nx.has_node g x = true) ->
  (forall c, In c cs -> c <> []) ->
  exists g' m extra,
    merge_clusters set_iter g (ClustersList cs) = Done g'
    /\ nx.max_node g = Some m
    /\ nodes g' = filter (fun nd => negb (inb (fst nd) (concat cs))) (nodes g)
                  ++ extra
    /\ PyDict.keys extra = fresh_ids (m + 1) (length cs)
    /\ (nx.number_of_nodes g' + length (concat cs)
        = nx.number_of_nodes g + length cs)%nat.
Proof.
  intros Hwf Hne Hnd Hall Hcne.
  destruct (nx.max_node g) as [m|] eqn:Hm.
  2:{ exfalso. unfold nx.max_node in Hm.
      destruct (nodes g); [congruence | discriminate]. }
  destruct (cluster_plan_list_ok set_iter g cs m Hm Hnd Hall) as [Hplan Hp].
  destruct (plan_total g _ cs _ Hp Hwf Hcne)
    as [g1 [g' [extra [Hc [Hr [Hn1 [Hk Hn']]]]]]].
  rewrite keys_tagged in Hn'.
  exists g', m, extra. split.
  - unfold merge_clusters. rewrite Hplan, Hc. cbn [bind]. exact Hr.
  - split; [reflexivity|]. split; [exact Hn'|]. split; [exact Hk|].
    unfold nx.number_of_nodes. rewrite Hn', length_app.
    rewrite <- (length_map fst extra).
    change (map fst extra) with (PyDict.keys extra).
    rewrite Hk, length_fresh_ids.
    pose proof (length_filter_out (concat cs) (nodes g) (wf_nodes Hwf) Hnd
                  (fun k Hk' => proj1 (has_node_In g k) (Hall k Hk'))).
    lia.
Qed.

Lemma merge_clusters_list_returns_witness :
  wf fan /\ nodes fan <> []
  /\ exists g' m extra,
       merge_clusters first_seen fan (ClustersList [[0%Z; 1%Z]]) = Done g'
       /\ nx.max_node fan = Some m
       /\ nodes g' = filter (fun nd => negb (inb (fst nd) (concat [[0%Z; 1%Z]])))
                            (nodes fan) ++ extra
       /\ PyDict.keys extra = fresh_ids (m + 1) (length [[0%Z; 1%Z]])
       /\ (nx.number_of_nodes g' + length (concat [[0%Z; 1%Z]])
           = nx.number_of_nodes fan + length [[0%Z; 1%Z]])%nat.
Proof.
  split; [apply wfb_sound; reflexivity|]. split; [discriminate|].
  apply (merge_clusters_list_returns first_seen fan [[0%Z; 1%Z]]
           (wfb_sound fan eq_refl)).
  - discriminate.
  - apply (nodupb_sound [0%Z; 1%Z]). reflexivity.
  - intros x Hx. simpl in Hx. destruct Hx as [<-|[<-|[]]]; reflexivity.
  - intros c Hc. simpl in Hc. destruct Hc as [<-|[]]. discriminate.
Defined.

(** X13: an empty cluster in the list makes [merge_clusters] raise
    [StopIteration] (from [next(iter(cluster))]), after the nodes of the
    clusters before it have been added: the graph is left with these new
    nodes next to all its old nodes and with its old edges. *)
Theorem merge_clusters_empty_cluster set_iter g before after :
  wf g -> nodes g <> [] ->
  NoDup (concat (before ++ [] :: after)) ->
  (forall x, In x (concat (before ++ [] :: after)) -> nx.has_node g x = true) ->
  (forall c, In c before -> c <> []) ->
  exists g1 m extra,
    merge_clusters set_iter g (ClustersList (before ++ [] :: after))
    = Raised StopIteration g1
    /\ nx.max_node g = Some m
    /\ nodes g1 = nodes g ++ extra
    /\ PyDict.keys extra = fresh_ids (m + 1) (length before)
    /\ adj g1 = adj g.
Proof.
  intros Hwf Hne Hnd Hall Hcne.
  destruct (nx.max_node g) as [m|] eqn:Hm.
  2:{ exfalso. unfold nx.max_node in Hm.
      destruct (nodes g); [congruence | discriminate]. }
  destruct (cluster_plan_list_ok set_iter g _ m Hm Hnd Hall) as [Hplan Hp].
  pose proof (po_news Hp) as HF.
  apply Forall2_app_inv_l in HF.
  destruct HF as [news1 [news2 [HF1 [_ Hnews]]]].
  assert (Hlen1 : length news1 = length before)
    by (symmetry; apply (Forall2_length HF1)).
  assert (Hnews1 : news1 = fresh_ids (m + 1) (length before)).
  { clear - Hnews Hlen1. revert news1 Hnews Hlen1. generalize (m + 1)%Z.
    induction before as [|c before IH]; intros s news1 Hnews Hlen1.
    - destruct news1; [reflexivity | discriminate].
    - destruct news1 as [|n news1]; [discriminate|].
      cbn [app length fresh_ids] in *. inversion Hnews as [[Hn Hrest]].
      f_equal. apply IH; [exact Hrest | lia]. }
  assert (Hnd1 : NoDup news1).
  { pose proof (po_news_nodup Hp) as H. rewrite Hnews in H.
    apply NoDup_app_remove_r in H. exact H. }
  assert (Hfresh1 : forall n, In n news1 -> nx.has_node g n = false).
  { intros n Hn. apply (po_news_fresh Hp). rewrite Hnews.
    apply in_or_app. auto. }
  assert (Hmem1 : forall x, In x (concat before) -> nx.has_node g x = true).
  { intros x Hx. apply Hall. rewrite concat_app. apply in_or_app. auto. }
  destruct (create_loop_total g _ before news1 HF1 g Hnd1 Hfresh1 Hmem1 Hcne)
    as [g1 Hc]; [exists []; rewrite app_nil_r; reflexivity|].
  destruct (create_loop_nodes g _ before news1 HF1 g g1 Hnd1 Hfresh1 Hmem1)
    as [extra [Hn1 [Ha1 [Hk1 _]]]];
    [exists []; rewrite app_nil_r; reflexivity | exact Hc |].
  exists g1, m, extra. split.
  - unfold merge_clusters. rewrite Hplan, fold_run_app, Hc. reflexivity.
  - split; [reflexivity|]. split; [exact Hn1|].
    split; [rewrite Hk1; exact Hnews1 | exact Ha1].
Qed.

Lemma merge_clusters_empty_cluster_witness :
  wf fan /\ nodes fan <> []
  /\ exists g1 m extra,
       merge_clusters first_seen fan (ClustersList ([[0%Z; 1%Z]] ++ [] :: []))
       = Raised StopIteration g1
       /\ nx.max_node fan = Some m
       /\ nodes g1 = nodes fan ++ extra
       /\ PyDict.keys extra = fresh_ids (m + 1) (length [[0%Z; 1%Z]])
       /\ adj g1 = adj fan.
Proof.
  split; [apply wfb_sound; reflexivity|]. split; [discriminate|].
  apply (merge_clusters_empty_cluster first_seen fan [[0%Z; 1%Z]] []
           (wfb_sound fan eq_refl)).
  - discriminate.
  - apply (nodupb_sound [0%Z; 1%Z]). reflexivity.
  - intros x Hx. simpl in Hx. destruct Hx as [<-|[<-|[]]]; reflexivity.
  - intros c Hc. simpl in Hc. destruct Hc as [<-|[]]. discriminate.
Defined.

(** *** The weighted mean *)














(** ** merge_by_intervals: the call returns, and which nodes it merges *)

Lemma In_insert_sorted x l y : In y (insert_sorted x l) <-> y = x \/ In y l.
Proof.
  induction l as [|z l IH]; cbn [insert_sorted].
  - cbn [In]. intuition.
  - destruct (Qltb x z); cbn [In]; [intuition|]. rewrite IH. intuition.
Qed.

Lemma ascending_insert x l : ascending l -> ascending (insert_sorted x l).
Proof.
  induction l as [|z l IH]; cbn [insert_sorted ascending]; intros Hl.
  - split; [intros y []|exact I].
  - destruct Hl as [Hz Hl]. destruct (Qltb x z) eqn:E.
    + apply Qltb_true in E. cbn [ascending]. split; [|split; assumption].
      intros y [Ey|Hy]; [subst y; apply Qlt_le_weak; exact E|].
      apply Qle_trans with z; [apply Qlt_le_weak; exact E | apply Hz; exact Hy].
    + apply Qltb_false in E. cbn [ascending]. split; [|apply IH; exact Hl].
      intros y Hy. apply In_insert_sorted in Hy.
      destruct Hy as [->|Hy]; [exact E | apply Hz; exact Hy].
Qed.

Lemma length_insert_sorted x l : length (insert_sorted x l) = S (length l).
Proof.
  induction l as [|z l IH]; cbn [insert_sorted]; [reflexivity|].
  destruct (Qltb x z); cbn [length]; [reflexivity | rewrite IH; reflexivity].
Qed.

Lemma sorted_spec l :
  ascending (sorted l)
  /\ (forall y, In y (sorted l) <-> In y l)
  /\ length (sorted l) = length l.
Proof.
  unfold sorted.
  assert (H : forall acc,
             ascending acc ->
             ascending (fold_left (fun acc x => insert_sorted x acc) l acc)
             /\ (forall y, In y (fold_left (fun acc x => insert_sorted x acc) l acc)
                           <-> In y l \/ In y acc)
             /\ length (fold_left (fun acc x => insert_sorted x acc) l acc)
                = (length l + length acc)%nat).
  { induction l as [|x l IH]; intros acc Hacc; cbn [fold_left].
    - split; [exact Hacc|]. split; [cbn [In]; tauto | reflexivity].
    - destruct (IH (insert_sorted x acc) (ascending_insert x acc Hacc))
        as [Ha [Hin Hlen]].
      split; [exact Ha|]. split.
      + intros y. rewrite Hin, In_insert_sorted. cbn [In]. intuition.
      + rewrite Hlen, length_insert_sorted. cbn [length]. lia. }
  destruct (H [] I) as [Ha [Hin Hlen]].
  split; [exact Ha|]. split.
  - intros y. rewrite Hin. cbn [In]. tauto.
  - rewrite Hlen. cbn [length]. lia.
Qed.

Lemma ascending_snoc l b :
  ascending l -> (forall y, In y l -> (y <= b)%Q) -> ascending (l ++ [b]).
Proof.
  induction l as [|x l IH]; cbn [app ascending]; intros Hl Hb.
  - split; [intros y [] | exact I].
  - destruct Hl as [Hx Hl]. split.
    + intros y Hy. apply in_app_iff in Hy. destruct Hy as [Hy|[<-|[]]].
      * apply Hx. exact Hy.
      * apply Hb. left. reflexivity.
    + apply IH; [exact Hl|]. intros y Hy. apply Hb. right. exact Hy.
Qed.

Lemma bounds_ascending intervals :
  (forall b, In b intervals -> (0 <= b)%Q /\ (b <= 1)%Q) ->
  ascending (0%Q :: sorted intervals ++ [1%Q])
  /\ forall b, In b (0%Q :: sorted intervals ++ [1%Q]) ->
       (0 <= b)%Q /\ (b <= 1)%Q.
Proof.
  intros Hall. destruct (sorted_spec intervals) as [Ha [Hin _]].
  assert (Hrange : forall b, In b (0%Q :: sorted intervals ++ [1%Q]) ->
                     (0 <= b)%Q /\ (b <= 1)%Q).
  { intros b [<-|Hb]; [split; discriminate|].
    apply in_app_iff in Hb. destruct Hb as [Hb|[<-|[]]].
    - apply Hall. apply Hin. exact Hb.
    - split; discriminate. }
  split; [|exact Hrange].
  cbn [ascending]. split.
  - intros y Hy. apply (Hrange y). right. exact Hy.
  - apply ascending_snoc; [exact Ha|].
    intros y Hy. apply Hall. apply Hin. exact Hy.
Qed.

Lemma In_bucket g lo hi x :
  In x (bucket g lo hi)
  <-> exists d, In (x, d) (nodes g)
                /\ (lo <= value_or_zero d)%Q /\ (value_or_zero d < hi)%Q.
Proof.
  unfold bucket. rewrite in_map_iff. split.
  - intros [[k d] [E Hin]]. cbn [fst] in E. subst k.
    apply filter_In in Hin. destruct Hin as [Hin Hf]. cbn [snd] in Hf.
    apply andb_true_iff in Hf. destruct Hf as [Hlo Hhi].
    apply Qle_bool_iff in Hlo. apply Qltb_true in Hhi.
    exists d. auto.
  - intros [d [Hin [Hlo Hhi]]]. exists (x, d). split; [reflexivity|].
    apply filter_In. split; [exact Hin|]. cbn [snd].
    apply andb_true_iff. split; [apply Qle_bool_iff | apply Qltb_true];
      assumption.
Qed.

Lemma buckets_cons2 g b u bs :
  buckets g (b :: u :: bs) = bucket g b u :: buckets g (u :: bs).
Proof. reflexivity. Qed.

Lemma buckets_lower g x :
  forall bs b,
    ascending (b :: bs) -> In x (concat (buckets g (b :: bs))) ->
    exists d, In (x, d) (nodes g) /\ (b <= value_or_zero d)%Q.
Proof.
  induction bs as [|u bs IH]; intros b Hasc Hin; [destruct Hin|].
  rewrite buckets_cons2, concat_cons in Hin. apply in_app_iff in Hin.
  destruct Hin as [Hin|Hin].
  - apply In_bucket in Hin. destruct Hin as [d [Hd [Hlo _]]]. eauto.
  - destruct Hasc as [Hb Hasc].
    destruct (IH u Hasc Hin) as [d [Hd Hu]]. exists d. split; [exact Hd|].
    apply Qle_trans with u; [apply Hb; left; reflexivity | exact Hu].
Qed.

Lemma buckets_range g x :
  forall bs,
    (forall b, In b bs -> (0 <= b)%Q /\ (b <= 1)%Q) ->
    In x (concat (buckets g bs)) ->
    exists d, In (x, d) (nodes g)
              /\ (0 <= value_or_zero d)%Q /\ (value_or_zero d < 1)%Q.
Proof.
  induction bs as [|b bs IH]; intros Hall Hin; [destruct Hin|].
  destruct bs as [|u bs]; [destruct Hin|].
  rewrite buckets_cons2, concat_cons in Hin. apply in_app_iff in Hin.
  destruct Hin as [Hin|Hin].
  - apply In_bucket in Hin. destruct Hin as [d [Hd [Hlo Hhi]]].
    exists d. split; [exact Hd|].
    destruct (Hall b (or_introl eq_refl)) as [Hb0 _].
    destruct (Hall u (or_intror (or_introl eq_refl))) as [_ Hu1].
    split; [apply Qle_trans with b; assumption|].
    apply Qlt_le_trans with u; assumption.
  - apply IH; [|exact Hin]. intros b' Hb'. apply Hall. right. exact Hb'.
Qed.

Lemma buckets_cover g x d :
  In (x, d) (nodes g) ->
  forall mid b top,
    (b <= value_or_zero d)%Q -> (value_or_zero d < top)%Q ->
    In x (concat (buckets g (b :: mid ++ [top]))).
Proof.
  intros Hd. induction mid as [|u mid IH]; intros b top Hlo Hhi.
  - cbn [app]. rewrite buckets_cons2, concat_cons. apply in_or_app. left.
    apply In_bucket. eauto.
  - cbn [app]. rewrite buckets_cons2, concat_cons. apply in_or_app.
    destruct (Qlt_le_dec (value_or_zero d) u) as [Hlt|Hge].
    + left. apply In_bucket. eauto.
    + right. apply IH; assumption.
Qed.

Lemma buckets_nodup g :
  NoDup (PyDict.keys (nodes g)) ->
  forall bs, ascending bs -> NoDup (concat (buckets g bs)).
Proof.
  intros Hnd. induction bs as [|b bs IH]; intros Hasc; [constructor|].
  destruct bs as [|u bs]; [constructor|].
  rewrite buckets_cons2, concat_cons. destruct Hasc as [Hb Hasc].
  apply NoDup_app.
  - unfold bucket. apply NoDup_map_fst_filter. exact Hnd.
  - apply IH. exact Hasc.
  - intros x Hx Hx'. apply In_bucket in Hx. destruct Hx as [d [Hd [_ Hhi]]].
    destruct (buckets_lower g x bs u Hasc Hx') as [d' [Hd' Hlo]].
    assert (d' = d).
    { pose proof (In_get _ _ _ Hnd Hd) as E1.
      pose proof (In_get _ _ _ Hnd Hd') as E2. congruence. }
    subst d'. apply (Qlt_irrefl u).
    apply Qle_lt_trans with (value_or_zero d); assumption.
Qed.

Lemma length_buckets g :
  forall bs, length (buckets g bs) = pred (length bs).
Proof.
  induction bs as [|b bs IH]; [reflexivity|].
  destruct bs as [|u bs]; [reflexivity|].
  rewrite buckets_cons2. cbn [length pred] in *. rewrite IH. reflexivity.
Qed.

Lemma NoDup_app_disjoint {A : Type} (l r : list A) (x : A) :
  NoDup (l ++ r) -> In x l -> In x r -> False.
Proof.
  induction l as [|z l IH]; intros Hnd Hl Hr; [destruct Hl|].
  cbn [app] in Hnd. inversion Hnd as [|? ? Hz Hnd']; subst.
  destruct Hl as [->|Hl]; [apply Hz; apply in_or_app; auto|].
  apply (IH Hnd' Hl Hr).
Qed.

Section SetImage.
Variable set_iter : list Z -> list Z.
Hypothesis set_iter_order : set_order set_iter.

Lemma In_concat_set_iter (B : list (list Z)) x :
  In x (concat (map set_iter (filter nonempty B))) <-> In x (concat B).
Proof.
  induction B as [|c B IH]; [reflexivity|].
  cbn [filter]. destruct c as [|y c]; cbn [nonempty].
  - rewrite IH. reflexivity.
  - cbn [map]. rewrite !concat_cons, !in_app_iff, IH.
    rewrite (proj2 (set_iter_order (y :: c)) x). reflexivity.
Qed.

Lemma NoDup_concat_set_iter (B : list (list Z)) :
  NoDup (concat B) -> NoDup (concat (map set_iter (filter nonempty B))).
Proof.
  induction B as [|c B IH]; intros Hnd; [constructor|].
  rewrite concat_cons in Hnd.
  pose proof (NoDup_app_remove_l _ _ Hnd) as HB.
  cbn [filter]. destruct c as [|y c]; cbn [nonempty]; [apply IH; exact HB|].
  cbn [map]. rewrite concat_cons. apply NoDup_app.
  - apply (proj1 (set_iter_order (y :: c))).
  - apply IH. exact HB.
  - intros x Hx Hx'. apply (proj2 (set_iter_order (y :: c))) in Hx.
    apply (proj1 (In_concat_set_iter B x)) in Hx'.
    apply (NoDup_app_disjoint _ _ x Hnd Hx Hx').
Qed.

Lemma nonempty_set_iter (B : list (list Z)) c :
  In c (map set_iter (filter nonempty B)) -> c <> [].
Proof.
  intros Hc. apply in_map_iff in Hc. destruct Hc as [l [<- Hl]].
  apply filter_In in Hl. destruct Hl as [_ Hne].
  destruct l as [|y l]; [discriminate|].
  intros E. pose proof (proj2 (proj2 (set_iter_order (y :: l)) y)
                          (or_introl eq_refl)) as Hy.
  rewrite E in Hy. destruct Hy.
Qed.

(** X15: [merge_by_intervals] with a list of bounds in [[0, 1]] that is not
    empty returns on every graph.  It merges exactly the nodes whose value
    ([get('value', 0)]) lies in [[0, 1)]: the other nodes, in particular
    those of value 1, stay as they are and in their order; after them come
    at most [len(intervals) + 1] new nodes, whose ids are new. *)
Theorem merge_by_intervals_returns g intervals :
  wf g -> intervals <> [] ->
  (forall b, In b intervals -> (0 <= b)%Q /\ (b <= 1)%Q) ->
  exists g' extra,
    merge_by_intervals set_iter g intervals = Done g'
    /\ nodes g' = filter (fun nd => negb (in_unit_interval nd)) (nodes g)
                  ++ extra
    /\ (length extra <= length intervals + 1)%nat
    /\ (forall n, In n (PyDict.keys extra) -> nx.has_node g n = false).
Proof.
  intros Hwf Hne Hall.
  destruct (bounds_ascending intervals Hall) as [Hasc Hrange].
  set (bounds := 0%Q :: sorted intervals ++ [1%Q]) in *.
  set (B := buckets g bounds).
  set (cs := map set_iter (filter nonempty B)).
  assert (Hcheck : forallb (fun v => Qle_bool 0 v && Qle_bool v 1) intervals
                   = true).
  { apply forallb_forall. intros v Hv. destruct (Hall v Hv).
    apply andb_true_iff. split; apply Qle_bool_iff; assumption. }
  assert (Hnonempty : nonempty intervals = true)
    by (destruct intervals; [congruence | reflexivity]).
  assert (Hrun : merge_by_intervals set_iter g intervals
                 = if nonempty cs then merge_clusters set_iter g (ClustersList cs)
                   else Done g).
  { unfold merge_by_intervals. rewrite Hcheck, Hnonempty. reflexivity. }
  assert (HndB : NoDup (concat B))
    by (apply buckets_nodup; [apply (wf_nodes Hwf) | exact Hasc]).
  assert (Hnd : NoDup (concat cs)) by (apply NoDup_concat_set_iter; exact HndB).
  assert (Hmem : forall x, In x (concat cs) -> nx.has_node g x = true).
  { intros x Hx. apply (proj1 (In_concat_set_iter B x)) in Hx.
    destruct (buckets_range g x bounds Hrange Hx) as [d [Hd _]].
    apply has_node_In. apply in_map_iff. exists (x, d). auto. }
  assert (Hfilter : filter (fun nd => negb (inb (fst nd) (concat cs))) (nodes g)
                    = filter (fun nd => negb (in_unit_interval nd)) (nodes g)).
  { apply filter_ext_in. intros [n d] Hin. cbn [fst]. f_equal.
    unfold inb, in_unit_interval. cbn [snd].
    destruct (in_dec eq_dec n (concat cs)) as [Hn|Hn].
    - apply (proj1 (In_concat_set_iter B n)) in Hn.
      destruct (buckets_range g n bounds Hrange Hn) as [d' [Hd' [H0 H1]]].
      assert (d' = d).
      { pose proof (In_get _ _ _ (wf_nodes Hwf) Hin) as E1.
        pose proof (In_get _ _ _ (wf_nodes Hwf) Hd') as E2. congruence. }
      subst d'. symmetry. apply andb_true_iff.
      split; [apply Qle_bool_iff | apply Qltb_true]; assumption.
    - symmetry. apply not_true_iff_false. intros Hunit.
      apply andb_true_iff in Hunit. destruct Hunit as [H0 H1].
      apply Qle_bool_iff in H0. apply Qltb_true in H1.
      apply Hn. apply (proj2 (In_concat_set_iter B n)).
      apply (buckets_cover g n d Hin (sorted intervals) 0%Q 1%Q H0 H1). }
  assert (Hlen : (length cs <= length intervals + 1)%nat).
  { unfold cs, B, bounds. rewrite length_map.
    pose proof (filter_length_le nonempty
                  (buckets g (0%Q :: sorted intervals ++ [1%Q]))) as Hle.
    rewrite length_buckets in Hle.
    cbn [length pred] in Hle. rewrite length_app in Hle. cbn [length] in Hle.
    destruct (sorted_spec intervals) as [_ [_ Hs]]. rewrite Hs in Hle. lia. }
  destruct (nonempty cs) eqn:Ecs.
  - assert (Hnodes : nodes g <> []).
    { destruct cs as [|c cs'] eqn:E; [discriminate|].
      assert (Hc : c <> []).
      { apply (nonempty_set_iter B c). fold cs. rewrite E. left. reflexivity. }
      destruct c as [|x c]; [congruence|].
      pose proof (Hmem x (or_introl eq_refl)) as Hx.
      apply has_node_In in Hx. intros E0. rewrite E0 in Hx. destruct Hx. }
    destruct (nx.max_node g) as [m|] eqn:Hm.
    2:{ exfalso. unfold nx.max_node in Hm.
        destruct (nodes g); [congruence | discriminate]. }
    destruct (cluster_plan_list_ok set_iter g cs m Hm Hnd Hmem) as [Hplan Hp].
    destruct (plan_total g _ cs _ Hp Hwf (nonempty_set_iter B))
      as [g1 [g' [extra [Hc [Hr [Hn1 [Hk Hn']]]]]]].
    rewrite keys_tagged, Hfilter in Hn'.
    exists g', extra. split.
    + rewrite Hrun. unfold merge_clusters. rewrite Hplan, Hc. cbn [bind].
      exact Hr.
    + split; [exact Hn'|]. split.
      * rewrite <- (length_map fst extra).
        change (map fst extra) with (PyDict.keys extra).
        rewrite Hk, length_fresh_ids. exact Hlen.
      * intros n Hn. rewrite Hk in Hn. apply (po_news_fresh Hp n Hn).
  - exists g, []. split; [rewrite Hrun; reflexivity|].
    split; [|split; [cbn [length]; lia | intros n []]].
    rewrite app_nil_r, <- Hfilter.
    assert (E : concat cs = [])
      by (destruct cs; [reflexivity | discriminate]).
    rewrite E. symmetry. apply filter_all. reflexivity.
Qed.
End SetImage.

Lemma merge_by_intervals_returns_witness :
  set_order first_seen /\ wf fan /\ [1 # 2] <> []
  /\ exists g' extra,
       merge_by_intervals first_seen fan [1 # 2] = Done g'
       /\ nodes g' = filter (fun nd => negb (in_unit_interval nd)) (nodes fan)
                     ++ extra
       /\ (length extra <= length [1 # 2] + 1)%nat
       /\ (forall n, In n (PyDict.keys extra) -> nx.has_node fan n = false).
Proof.
  split; [exact first_seen_order|]. split; [apply wfb_sound; reflexivity|].
  split; [discriminate|].
  apply (merge_by_intervals_returns first_seen first_seen_order fan [1 # 2]
           (wfb_sound fan eq_refl)).
  - discriminate.
  - intros b Hb. simpl in Hb. destruct Hb as [<-|[]]. split; discriminate.
Defined.

(** ** find_clusters *)

Lemma filter_none {A : Type} (f : A -> bool) (l : list A) :
  (forall x, In x l -> f x = false) -> filter f l = [].
Proof.
  induction l as [|x l IH]; intros Hall; [reflexivity|].
  cbn [filter]. rewrite (Hall x (or_introl eq_refl)).
  apply IH. intros y Hy. apply Hall. right. exact Hy.
Qed.

Lemma existsb_eqb_In (x : Z) (l : list Z) :
  existsb (Z.eqb x) l = true <-> In x l.
Proof.
  rewrite existsb_exists. split.
  - intros [y [Hy E]]. apply Z.eqb_eq in E. subst y. exact Hy.
  - intros Hx. exists x. split; [exact Hx | apply Z.eqb_refl].
Qed.

Lemma existsb_eqb_not_In (x : Z) (l : list Z) :
  existsb (Z.eqb x) l = false <-> ~ In x l.
Proof. rewrite <- existsb_eqb_In, not_true_iff_false. reflexivity. Qed.

Section FindClustersFacts.
Variable set_iter : list Z -> list Z.
Variables max_opinion_difference min_influence : Q.
Variable g : DiGraph.
Hypothesis set_iter_order : set_order set_iter.
Hypothesis g_wf : wf g.
Hypothesis g_valued : all_valued g.

Lemma valued_node x :
  nx.has_node g x = true ->
  exists d v, nx.node g x = Some d /\ value d = Some v.
Proof.
  intros Hx. apply has_node_node in Hx. destruct Hx as [d Hd].
  pose proof (g_valued x d (node_In _ _ _ Hd)) as Hv.
  destruct (value d) as [v|] eqn:Ev; [|congruence]. eauto.
Qed.

Lemma neighbors_total node :
  nx.has_node g node = true ->
  exists ns,
    neighbors set_iter g node = Ok ns
    /\ forall x, In x ns -> nx.has_node g x = true.
Proof.
  intros Hn. unfold neighbors.
  destruct (nx.successors g node) as [succs|e] eqn:Hs;
    [|unfold nx.successors in Hs; rewrite Hn in Hs; discriminate].
  destruct (nx.predecessors g node) as [preds|e] eqn:Hp;
    [|unfold nx.predecessors in Hp; rewrite Hn in Hp; discriminate].
  eexists. split; [reflexivity|].
  intros x Hx. apply (proj1 (proj2 (set_iter_order (succs ++ preds)) x)) in Hx.
  apply in_app_iff in Hx. destruct Hx as [Hx|Hx].
  - apply (successors_nodes g node succs g_wf Hs x Hx).
  - apply (predecessors_nodes g node preds g_wf Hp x Hx).
Qed.

Lemma chained_nil R old : chained R old [].
Proof. intros pre x post E. destruct pre; discriminate. Qed.

Lemma chained_app R old new1 new2 :
  chained R old new1 -> chained R (old ++ new1) new2 ->
  chained R old (new1 ++ new2).
Proof.
  intros H1 H2 pre x post E.
  destruct (app_eq_app _ _ _ _ E) as [l [[E1 E2]|[E1 E2]]].
  - destruct l as [|z l].
    + rewrite app_nil_r in E1. subst pre. cbn [app] in E2.
      destruct (H2 [] x post (eq_sym E2)) as [y [Hy Hr]].
      exists y. split; [|exact Hr]. rewrite app_nil_r in Hy. exact Hy.
    + cbn [app] in E2. injection E2 as Ex Ep. subst z.
      destruct (H1 pre x l E1) as [y [Hy Hr]]. exists y. auto.
  - subst pre. destruct (H2 l x post E2) as [y [Hy Hr]].
    exists y. split; [|exact Hr]. rewrite app_assoc. exact Hy.
Qed.

Lemma chained_weaken R old old' new :
  incl old old' -> chained R old new -> chained R old' new.
Proof.
  intros Hincl H pre x post E. destruct (H pre x post E) as [y [Hy Hr]].
  exists y. split; [|exact Hr]. apply in_app_iff in Hy. apply in_or_app.
  destruct Hy as [Hy|Hy]; [left; apply Hincl; exact Hy | right; exact Hy].
Qed.

Lemma neighbors_adjacent node ns x :
  neighbors set_iter g node = Ok ns -> In x ns ->
  nx.has_edge g node x || nx.has_edge g x node = true.
Proof.
  unfold neighbors.
  destruct (nx.successors g node) as [succs|e] eqn:Hs; [|discriminate].
  destruct (nx.predecessors g node) as [preds|e] eqn:Hp; [|discriminate].
  intros E Hx. inversion E; subst.
  apply (proj1 (proj2 (set_iter_order (succs ++ preds)) x)) in Hx.
  apply in_app_iff in Hx. apply orb_true_iff. destruct Hx as [Hx|Hx].
  - left. apply (has_edge_of_successor g node succs x Hs Hx).
  - right. apply (has_edge_of_predecessor g node preds x Hp Hx).
Qed.

Lemma visit_neighbor_grows node s nb :
  nx.has_node g node = true -> nx.has_node g nb = true ->
  nx.has_edge g node nb || nx.has_edge g nb node = true ->
  NoDup (visited_nodes s) ->
  exists new s',
    visit_neighbor max_opinion_difference min_influence g node s nb = Ok s'
    /\ grows s new s'
    /\ NoDup (visited_nodes s')
    /\ incl new [nb]
    /\ (forall x, In x new ->
          admits max_opinion_difference min_influence g node x).
Proof.
  intros Hnode Hnb Hadj Hnd. unfold visit_neighbor.
  destruct (existsb (Z.eqb nb) (visited_nodes s)) eqn:Hvis.
  - exists [], s. split; [reflexivity|].
    split; [unfold grows; rewrite !app_nil_r; auto|].
    split; [exact Hnd|]. split; intros x [].
  - destruct (valued_node node Hnode) as [dn [vi [Hdn Hvi]]].
    destruct (valued_node nb Hnb) as [dj [vj [Hdj Hvj]]].
    rewrite Hdn, Hvi, Hdj, Hvj.
    match goal with
    | |- context [if ?c then _ else _] => destruct c eqn:Hcond
    end.
    + exists [nb]. eexists. split; [reflexivity|].
      split; [unfold grows; cbn; auto|]. split; [|split].
      * cbn [visited_nodes]. apply NoDup_app; [exact Hnd | |].
        -- constructor; [intros [] | constructor].
        -- intros x Hx [<-|[]]. apply existsb_eqb_not_In in Hvis. contradiction.
      * apply incl_refl.
      * intros x [<-|[]]. apply andb_true_iff in Hcond.
        destruct Hcond as [Hdiff Hinf]. apply Qle_bool_iff in Hdiff.
        apply orb_true_iff in Hinf.
        exists dn, vi, dj, vj. repeat (split; [assumption|]).
        destruct Hinf as [Hinf|Hinf]; apply Qle_bool_iff in Hinf; auto.
    + exists [], s. split; [reflexivity|].
      split; [unfold grows; rewrite !app_nil_r; auto|].
      split; [exact Hnd|]. split; intros x [].
Qed.

Lemma visit_loop_grows node :
  nx.has_node g node = true ->
  forall ns s,
    (forall x, In x ns -> nx.has_node g x = true) ->
    (forall x, In x ns ->
       nx.has_edge g node x || nx.has_edge g x node = true) ->
    NoDup (visited_nodes s) ->
    exists new s',
      fold_result (visit_neighbor max_opinion_difference min_influence g node)
                  ns s = Ok s'
      /\ grows s new s'
      /\ NoDup (visited_nodes s')
      /\ incl new ns
      /\ (forall x, In x new ->
            admits max_opinion_difference min_influence g node x).
Proof.
  intros Hnode. induction ns as [|nb ns IH]; intros s Hns Hadj Hnd;
    cbn [fold_result].
  - exists [], s. split; [reflexivity|].
    split; [unfold grows; rewrite !app_nil_r; auto|].
    split; [exact Hnd|]. split; intros x [].
  - destruct (visit_neighbor_grows node s nb Hnode (Hns nb (or_introl eq_refl))
                (Hadj nb (or_introl eq_refl)) Hnd)
      as [new1 [s1 [Hrun1 [[Hv1 [Hc1 Hq1]] [Hnd1 [Hin1 Had1]]]]]].
    rewrite Hrun1.
    destruct (IH s1 (fun x Hx => Hns x (or_intror Hx))
                 (fun x Hx => Hadj x (or_intror Hx)) Hnd1)
      as [new2 [s2 [Hrun2 [[Hv2 [Hc2 Hq2]] [Hnd2 [Hin2 Had2]]]]]].
    exists (new1 ++ new2), s2. split; [exact Hrun2|]. split.
    + unfold grows. rewrite Hv2, Hc2, Hq2, Hv1, Hc1, Hq1, <- !app_assoc. auto.
    + split; [exact Hnd2|]. split.
      * intros x Hx. apply in_app_iff in Hx. destruct Hx as [Hx|Hx].
        -- destruct (Hin1 x Hx) as [<-|[]]. left. reflexivity.
        -- right. apply Hin2. exact Hx.
      * intros x Hx. apply in_app_iff in Hx.
        destruct Hx as [Hx|Hx]; [apply Had1 | apply Had2]; exact Hx.
Qed.

Lemma visited_bound (l : list Z) :
  NoDup l -> (forall x, In x l -> nx.has_node g x = true) ->
  (length l <= nx.number_of_nodes g)%nat.
Proof.
  intros Hnd Hall. unfold nx.number_of_nodes.
  rewrite <- (length_map fst (nodes g)).
  apply NoDup_incl_length; [exact Hnd|].
  intros x Hx. apply has_node_In. apply Hall. exact Hx.
Qed.

Lemma chained_from_one (R : Z -> Z -> Prop) old node new :
  In node old -> (forall x, In x new -> R node x) -> chained R old new.
Proof.
  intros Hnode Hall pre x post E. exists node. split.
  - apply in_or_app. left. exact Hnode.
  - apply Hall. rewrite E. apply in_or_app. right. left. reflexivity.
Qed.

(** The search ends before the fuel does, and without an exception. *)
Lemma search_from_total :
  forall fuel s,
    NoDup (visited_nodes s) ->
    (forall x, In x (visited_nodes s) -> nx.has_node g x = true) ->
    (forall x, In x (queue s) -> nx.has_node g x = true) ->
    incl (queue s) (cluster s) ->
    (length (queue s) + nx.number_of_nodes g
     <= fuel + length (visited_nodes s))%nat ->
    exists new s',
      search_from set_iter max_opinion_difference min_influence fuel g s
      = Some (Ok s')
      /\ visited_nodes s' = visited_nodes s ++ new
      /\ cluster s' = cluster s ++ new
      /\ NoDup (visited_nodes s')
      /\ (forall x, In x new -> nx.has_node g x = true)
      /\ chained (admits max_opinion_difference min_influence g)
                 (cluster s) new.
Proof.
  induction fuel as [|fuel IH]; intros [vis cl qu] Hnd Hvis Hqu Hqc Hfuel;
    cbn [visited_nodes cluster queue] in *.
  - pose proof (visited_bound vis Hnd Hvis) as Hb.
    destruct qu as [|node rest]; [|cbn [length] in Hfuel; lia].
    exists [], (mkSearch vis cl []). cbn [search_from queue visited_nodes cluster].
    rewrite !app_nil_r. split; [reflexivity|]. split; [reflexivity|].
    split; [reflexivity|]. split; [exact Hnd|].
    split; [intros x [] | apply chained_nil].
  - destruct qu as [|node rest].
    + exists [], (mkSearch vis cl []).
      cbn [search_from queue visited_nodes cluster].
      rewrite !app_nil_r. split; [reflexivity|]. split; [reflexivity|].
      split; [reflexivity|]. split; [exact Hnd|].
      split; [intros x [] | apply chained_nil].
    + cbn [search_from queue visited_nodes cluster].
      assert (Hnode : nx.has_node g node = true)
        by (apply Hqu; left; reflexivity).
      destruct (neighbors_total node Hnode) as [ns [Hns Hnodes]].
      rewrite Hns.
      destruct (visit_loop_grows node Hnode ns (mkSearch vis cl rest) Hnodes
                  (fun x Hx => neighbors_adjacent node ns x Hns Hx) Hnd)
        as [new1 [s1 [Hrun1 [[Hv1 [Hc1 Hq1]] [Hnd1 [Hin1 Had1]]]]]].
      cbn [visited_nodes cluster queue] in *.
      rewrite Hrun1.
      destruct (IH s1) as [new2 [s2 [Hrun2 [Hv2 [Hc2 [Hnd2 [Hnew2 Hch2]]]]]]].
      * exact Hnd1.
      * intros x Hx. rewrite Hv1 in Hx. apply in_app_iff in Hx.
        destruct Hx as [Hx|Hx]; [apply Hvis; exact Hx|].
        apply Hnodes. apply Hin1. exact Hx.
      * intros x Hx. rewrite Hq1 in Hx. apply in_app_iff in Hx.
        destruct Hx as [Hx|Hx]; [apply Hqu; right; exact Hx|].
        apply Hnodes. apply Hin1. exact Hx.
      * rewrite Hq1, Hc1. intros x Hx. apply in_app_iff in Hx.
        apply in_or_app. destruct Hx as [Hx|Hx]; [|right; exact Hx].
        left. apply Hqc. right. exact Hx.
      * rewrite Hq1, Hv1, !length_app. cbn [length] in Hfuel. lia.
      * exists (new1 ++ new2), s2. split; [exact Hrun2|].
        split; [rewrite Hv2, Hv1, <- app_assoc; reflexivity|].
        split; [rewrite Hc2, Hc1, <- app_assoc; reflexivity|].
        split; [exact Hnd2|]. split.
        -- intros x Hx. apply in_app_iff in Hx. destruct Hx as [Hx|Hx].
           ++ apply Hnodes. apply Hin1. exact Hx.
           ++ apply Hnew2. exact Hx.
        -- apply chained_app.
           ++ apply (chained_from_one _ cl node new1);
                [apply Hqc; left; reflexivity | exact Had1].
           ++ rewrite <- Hc1. exact Hch2.
Qed.

Lemma find_from_total :
  forall ns clusters visited,
    NoDup visited ->
    (forall x, In x visited -> nx.has_node g x = true) ->
    (forall x, In x ns -> nx.has_node g x = true) ->
    Permutation (concat clusters) visited ->
    (forall c, In c clusters ->
       exists first rest,
         c = first :: rest
         /\ chained (admits max_opinion_difference min_influence g)
                    [first] rest) ->
    exists clusters' visited',
      find_from set_iter max_opinion_difference min_influence
                (nx.number_of_nodes g) g ns clusters visited
      = Some (Ok clusters')
      /\ Permutation (concat clusters') visited'
      /\ NoDup visited'
      /\ (forall x, In x visited' -> nx.has_node g x = true)
      /\ (forall x, In x visited \/ In x ns -> In x visited')
      /\ (forall c, In c clusters' ->
            exists first rest,
              c = first :: rest
              /\ chained (admits max_opinion_difference min_influence g)
                         [first] rest).
Proof.
  induction ns as [|i ns IH]; intros clusters visited Hnd Hvis Hns Hperm Hne;
    cbn [find_from].
  - exists clusters, visited. split; [reflexivity|]. split; [exact Hperm|].
    split; [exact Hnd|]. split; [exact Hvis|].
    split; [intros x [Hx|[]]; exact Hx | exact Hne].
  - destruct (existsb (Z.eqb i) visited) eqn:Hi.
    + destruct (IH clusters visited Hnd Hvis
                   (fun x Hx => Hns x (or_intror Hx)) Hperm Hne)
        as [cs' [vis' [Hrun [Hp' [Hnd' [Hvis' [Hsub Hne']]]]]]].
      exists cs', vis'. split; [exact Hrun|]. split; [exact Hp'|].
      split; [exact Hnd'|]. split; [exact Hvis'|]. split; [|exact Hne'].
      intros x [Hx|[<-|Hx]]; apply Hsub; auto.
      left. apply existsb_eqb_In. exact Hi.
    + apply existsb_eqb_not_In in Hi.
      assert (Hnd0 : NoDup (visited ++ [i])).
      { apply NoDup_app; [exact Hnd | constructor; [intros []|constructor]|].
        intros x Hx [<-|[]]. contradiction. }
      destruct (search_from_total (nx.number_of_nodes g)
                  (mkSearch (visited ++ [i]) [i] [i])) as
        [new [s [Hrun [Hv [Hc [Hnds [Hnew Hch]]]]]]];
        cbn [visited_nodes cluster queue].
      * exact Hnd0.
      * intros x Hx. apply in_app_iff in Hx.
        destruct Hx as [Hx|[<-|[]]]; [apply Hvis; exact Hx|].
        apply Hns. left. reflexivity.
      * intros x [<-|[]]. apply Hns. left. reflexivity.
      * apply incl_refl.
      * rewrite length_app. cbn [length]. lia.
      * rewrite Hrun. cbn [visited_nodes cluster] in Hv, Hc, Hch.
        destruct (IH (clusters ++ [cluster s]) (visited_nodes s))
          as [cs' [vis' [Hrun' [Hp' [Hnd' [Hvis' [Hsub Hne']]]]]]].
        -- exact Hnds.
        -- intros x Hx. rewrite Hv in Hx. apply in_app_iff in Hx.
           destruct Hx as [Hx|Hx]; [|apply Hnew; exact Hx].
           apply in_app_iff in Hx.
           destruct Hx as [Hx|[<-|[]]]; [apply Hvis; exact Hx|].
           apply Hns. left. reflexivity.
        -- intros x Hx. apply Hns. right. exact Hx.
        -- rewrite concat_app, Hv, Hc. cbn [concat]. rewrite app_nil_r.
           rewrite <- app_assoc. apply Permutation_app; [exact Hperm|].
           apply Permutation_refl.
        -- intros c Hcin. apply in_app_iff in Hcin.
           destruct Hcin as [Hcin|[<-|[]]]; [apply Hne; exact Hcin|].
           rewrite Hc. exists i, new. split; [reflexivity | exact Hch].
        -- exists cs', vis'. split; [exact Hrun'|]. split; [exact Hp'|].
           split; [exact Hnd'|]. split; [exact Hvis'|]. split; [|exact Hne'].
           intros x [Hx|[<-|Hx]]; apply Hsub.
           ++ left. rewrite Hv. apply in_or_app. left.
              apply in_or_app. left. exact Hx.
           ++ left. rewrite Hv. apply in_or_app. left.
              apply in_or_app. right. left. reflexivity.
           ++ right. exact Hx.
Qed.

Lemma find_clusters_links :
  exists clusters,
    find_clusters set_iter max_opinion_difference min_influence g
    = Some (Ok clusters)
    /\ Permutation (concat clusters) (PyDict.keys (nodes g))
    /\ (forall c, In c clusters ->
          exists first rest,
            c = first :: rest
            /\ chained (admits max_opinion_difference min_influence g)
                       [first] rest).
Proof.
  destruct (find_from_total (PyDict.keys (nodes g)) [] [])
    as [cs [vis [Hrun [Hperm [Hnd [Hvis [Hsub Hne]]]]]]].
  - constructor.
  - intros x [].
  - intros x Hx. apply has_node_In. exact Hx.
  - apply Permutation_refl.
  - intros c [].
  - assert (Hkeys : Permutation vis (PyDict.keys (nodes g))).
    { apply NoDup_Permutation; [exact Hnd | apply (wf_nodes g_wf)|].
      intros x. split.
      - intros Hx. apply has_node_In. apply Hvis. exact Hx.
      - intros Hx. apply Hsub. right. exact Hx. }
    exists cs. split; [exact Hrun|].
    split; [apply (Permutation_trans Hperm Hkeys) | exact Hne].
Qed.

Lemma find_clusters_spec :
  exists clusters,
    find_clusters set_iter max_opinion_difference min_influence g
    = Some (Ok clusters)
    /\ Permutation (concat clusters) (PyDict.keys (nodes g))
    /\ NoDup (concat clusters)
    /\ (forall c, In c clusters -> c <> []).
Proof.
  destruct find_clusters_links as [cs [Hrun [Hperm Hlinks]]].
  exists cs. split; [exact Hrun|]. split; [exact Hperm|]. split.
  - apply (Permutation_NoDup (Permutation_sym Hperm) (wf_nodes g_wf)).
  - intros c Hc. destruct (Hlinks c Hc) as [first [rest [-> _]]]. discriminate.
Qed.

(** X16: on a graph whose nodes carry a value [find_clusters] returns (the
    search never runs on: every node is taken from the queue at most once),
    and the clusters it returns are a partition of the nodes: no cluster is
    empty and every node of the graph is in exactly one cluster. *)
Theorem find_clusters_partitions_nodes :
  exists clusters,
    find_clusters set_iter max_opinion_difference min_influence g
    = Some (Ok clusters)
    /\ Permutation (concat clusters) (PyDict.keys (nodes g))
    /\ NoDup (concat clusters)
    /\ (forall c, In c clusters -> c <> []).
Proof. exact find_clusters_spec. Qed.

(** X17: the clusters found can be merged at once.  On a graph that is not
    empty and whose nodes carry a value, [merge_clusters] called with the
    list that [find_clusters] returns passes its assertions and returns;
    afterwards the graph has one node per cluster, and none of the nodes
    it had before. *)
Theorem merge_found_clusters :
  nodes g <> [] ->
  exists clusters g',
    find_clusters set_iter max_opinion_difference min_influence g
    = Some (Ok clusters)
    /\ merge_clusters set_iter g (ClustersList clusters) = Done g'
    /\ nx.number_of_nodes g' = length clusters
    /\ (forall n, nx.has_node g n = true -> nx.has_node g' n = false).
Proof.
  intros Hne.
  destruct find_clusters_spec as [cs [Hfind [Hperm [Hnd Hcne]]]].
  assert (Hmem : forall x, In x (concat cs) -> nx.has_node g x = true).
  { intros x Hx. apply has_node_In.
    apply (Permutation_in x Hperm Hx). }
  destruct (nx.max_node g) as [m|] eqn:Hm.
  2:{ exfalso. unfold nx.max_node in Hm.
      destruct (nodes g); [congruence | discriminate]. }
  destruct (cluster_plan_list_ok set_iter g cs m Hm Hnd Hmem) as [Hplan Hp].
  destruct (plan_total g _ cs _ Hp g_wf Hcne)
    as [g1 [g' [extra [Hc [Hr [Hn1 [Hk Hn']]]]]]].
  rewrite keys_tagged in Hn'.
  assert (Hnone : filter (fun nd => negb (inb (fst nd) (concat cs))) (nodes g)
                  = []).
  { apply filter_none. intros [k' d'] Hin. cbn [fst]. unfold inb.
    destruct (in_dec eq_dec k' (concat cs)) as [_|Hn]; [reflexivity|].
    exfalso. apply Hn. apply (Permutation_in k' (Permutation_sym Hperm)).
    apply in_map_iff. exists (k', d'). auto. }
  exists cs, g'. split; [exact Hfind|]. split.
  - unfold merge_clusters. rewrite Hplan, Hc. cbn [bind]. exact Hr.
  - rewrite Hnone in Hn'. cbn [app] in Hn'. split.
    + unfold nx.number_of_nodes. rewrite Hn', <- (length_map fst extra).
      change (map fst extra) with (PyDict.keys extra).
      rewrite Hk. apply length_fresh_ids.
    + intros n Hn. apply has_node_false. rewrite Hn', Hk. intros Hin.
      rewrite (po_news_fresh Hp n Hin) in Hn. discriminate.
Qed.

(** X23: what a cluster of [find_clusters] is.  Every cluster starts with
    the node the search began at, and every other node of the cluster was
    taken in from a node that stands before it in the same cluster: the
    two are joined by an edge, their values differ by at most
    [max_opinion_difference], and the weight of the edge one way or the
    other is at least [min_influence] times the label size of the earlier
    node. *)
Theorem find_clusters_links_members :
  exists clusters,
    find_clusters set_iter max_opinion_difference min_influence g
    = Some (Ok clusters)
    /\ forall c, In c clusters ->
         exists first rest,
           c = first :: rest
           /\ forall pre x post, rest = pre ++ x :: post ->
                exists y, In y (first :: pre)
                          /\ admits max_opinion_difference min_influence g y x.
Proof.
  destruct find_clusters_links as [cs [Hrun [_ Hlinks]]].
  exists cs. split; [exact Hrun|]. intros c Hc.
  destruct (Hlinks c Hc) as [first [rest [-> Hch]]].
  exists first, rest. split; [reflexivity|].
  intros pre x post E. apply (Hch pre x post E).
Qed.
End FindClustersFacts.

Lemma merge_found_clusters_witness :
  set_order first_seen /\ wf fan /\ all_valued fan /\ nodes fan <> []
  /\ exists clusters g',
       find_clusters first_seen (1 # 10) (1 # 10) fan = Some (Ok clusters)
       /\ merge_clusters first_seen fan (ClustersList clusters) = Done g'
       /\ nx.number_of_nodes g' = length clusters
       /\ (forall n, nx.has_node fan n = true -> nx.has_node g' n = false).
Proof.
  assert (Hv : all_valued fan)
    by (intros n d Hin; each_node Hin; discriminate).
  split; [exact first_seen_order|]. split; [apply wfb_sound; reflexivity|].
  split; [exact Hv|]. split; [discriminate|].
  apply (merge_found_clusters first_seen (1 # 10) (1 # 10) fan
           first_seen_order (wfb_sound fan eq_refl) Hv).
  discriminate.
Defined.

Lemma find_clusters_links_members_witness :
  set_order first_seen /\ wf fan /\ all_valued fan
  /\ exists clusters,
       find_clusters first_seen 1 (1 # 10) fan = Some (Ok clusters)
       /\ forall c, In c clusters ->
            exists first rest,
              c = first :: rest
              /\ forall pre x post, rest = pre ++ x :: post ->
                   exists y, In y (first :: pre)
                             /\ admits 1 (1 # 10) fan y x.
Proof.
  assert (Hv : all_valued fan)
    by (intros n d Hin; each_node Hin; discriminate).
  split; [exact first_seen_order|]. split; [apply wfb_sound; reflexivity|].
  split; [exact Hv|].
  apply (find_clusters_links_members first_seen 1 (1 # 10) fan
           first_seen_order (wfb_sound fan eq_refl) Hv).
Defined.

Lemma find_clusters_partitions_nodes_witness :
  set_order first_seen /\ wf fan /\ all_valued fan
  /\ exists clusters,
       find_clusters first_seen (1 # 10) (1 # 10) fan = Some (Ok clusters)
       /\ Permutation (concat clusters) (PyDict.keys (nodes fan))
       /\ NoDup (concat clusters)
       /\ (forall c, In c clusters -> c <> []).
Proof.
  assert (Hv : all_valued fan)
    by (intros n d Hin; each_node Hin; discriminate).
  split; [exact first_seen_order|]. split; [apply wfb_sound; reflexivity|].
  split; [exact Hv|].
  apply (find_clusters_partitions_nodes first_seen (1 # 10) (1 # 10) fan
           first_seen_order (wfb_sound fan eq_refl) Hv).
Defined.

(** ** merge_clusters with a dictionary of new ids *)

Lemma keys_fold_set (n : Z) (olds : list Z) :
  forall (m : list (Z * Z)) o,
    In o (PyDict.keys (fold_left (fun m old => PyDict.set old n m) olds m))
    <-> In o (PyDict.keys m) \/ In o olds.
Proof.
  induction olds as [|x olds IH]; intros m o; cbn [fold_left In].
  - tauto.
  - rewrite IH, In_keys_set. intuition.
Qed.

Lemma keys_dict_mapping (d : list (Z * list Z)) o :
  In o (PyDict.keys (dict_mapping d))
  <-> exists n olds, In (n, olds) d /\ In o olds.
Proof.
  unfold dict_mapping.
  assert (H : forall m,
            In o (PyDict.keys
                    (fold_left
                       (fun id_mapping (item : Z * list Z) =>
                          fold_left (fun m old => PyDict.set old (fst item) m)
                                    (snd item) id_mapping)
                       d m))
            <-> In o (PyDict.keys m)
                \/ exists n olds, In (n, olds) d /\ In o olds).
  { induction d as [|[n olds] d IH]; intros m; cbn [fold_left fst snd].
    - split; [auto | intros [H|[n [olds [[] _]]]]; exact H].
    - rewrite IH, keys_fold_set. split.
      + intros [[H|H]|[n' [olds' [Hin Ho]]]].
        * auto.
        * right. exists n, olds. split; [left; reflexivity | exact H].
        * right. exists n', olds'. split; [right; exact Hin | exact Ho].
      + intros [H|[n' [olds' [[E|Hin] Ho]]]].
        * auto.
        * inversion E; subst. auto.
        * right. exists n', olds'. auto. }
  rewrite H. cbn [PyDict.keys map In]. tauto.
Qed.

Lemma dict_clusters_nonempty set_iter (m : list (Z * Z)) c :
  set_order set_iter -> In c (dict_clusters set_iter m) -> c <> [].
Proof.
  intros Hord Hc. unfold dict_clusters in Hc. apply in_map_iff in Hc.
  destruct Hc as [n [<- Hn]].
  apply (proj1 (proj2 (Hord (map snd m)) n)) in Hn.
  apply in_map_iff in Hn. destruct Hn as [[o n'] [E Hin]].
  cbn [snd] in E. subst n'.
  assert (Ho : In o (set_iter (map fst (filter (fun om => (snd om =? n)%Z) m)))).
  { apply (proj2 (proj2 (Hord _) o)). apply in_map_iff. exists (o, n).
    split; [reflexivity|]. apply filter_In. split; [exact Hin|].
    cbn [snd]. apply Z.eqb_refl. }
  intros E. rewrite E in Ho. destruct Ho.
Qed.

(** X18: with a dictionary whose new ids are not in the graph and whose old
    ids are nodes, [merge_clusters] returns.  Every node named as an old id
    is removed; the other nodes stay as they are and in their order; one
    node is added for every new id that has at least one old id, with that
    id.  A new id with an empty set is passed over, where the list form
    raises on an empty cluster. *)
Theorem merge_clusters_dict_returns set_iter g d :
  set_order set_iter -> wf g -> dict_fresh g d ->
  exists g' extra,
    merge_clusters set_iter g (ClustersDict d) = Done g'
    /\ nodes g' = filter (fun nd => negb (inb (fst nd)
                                             (PyDict.keys (dict_mapping d))))
                         (nodes g) ++ extra
    /\ PyDict.keys extra = set_iter (map snd (dict_mapping d))
    /\ (forall o, In o (PyDict.keys (dict_mapping d))
                  <-> exists n olds, In (n, olds) d /\ In o olds)
    /\ (forall n, In n (map snd (dict_mapping d))
                  <-> exists olds o, In (n, olds) d /\ In o olds
                                     /\ PyDict.get o (dict_mapping d) = Some n).
Proof.
  intros Hord Hwf Hfresh.
  pose proof (plan_ok_dict set_iter g d Hord Hfresh) as Hp.
  destruct (plan_total g _ _ _ Hp Hwf
              (fun c => dict_clusters_nonempty set_iter (dict_mapping d) c Hord))
    as [g1 [g' [extra [Hc [Hr [Hn1 [Hk Hn']]]]]]].
  exists g', extra. split.
  - unfold merge_clusters, cluster_plan. rewrite Hc. cbn [bind]. exact Hr.
  - split; [exact Hn'|]. split; [exact Hk|].
    split; [intros o; apply keys_dict_mapping|].
    intros n. rewrite in_map_iff. split.
    + intros [[o n'] [E Hin]]. cbn [snd] in E. subst n'.
      destruct (dict_mapping_source d o n Hin) as [olds [Hd Ho]].
      exists olds, o. split; [exact Hd|]. split; [exact Ho|].
      apply In_get; [apply dict_mapping_nodup | exact Hin].
    + intros [olds [o [_ [_ Hget]]]]. exists (o, n).
      split; [reflexivity | apply get_Some_In; exact Hget].
Qed.

Lemma merge_clusters_dict_returns_witness :
  set_order first_seen /\ wf fan /\ dict_fresh fan [(10%Z, [0%Z; 1%Z])]
  /\ exists g' extra,
       merge_clusters first_seen fan (ClustersDict [(10%Z, [0%Z; 1%Z])])
       = Done g'
       /\ nodes g' = filter (fun nd =>
                               negb (inb (fst nd)
                                         (PyDict.keys
                                            (dict_mapping [(10%Z, [0%Z; 1%Z])]))))
                            (nodes fan) ++ extra
       /\ PyDict.keys extra
          = first_seen (map snd (dict_mapping [(10%Z, [0%Z; 1%Z])]))
       /\ (forall o, In o (PyDict.keys (dict_mapping [(10%Z, [0%Z; 1%Z])]))
                     <-> exists n olds,
                           In (n, olds) [(10%Z, [0%Z; 1%Z])] /\ In o olds)
       /\ (forall n, In n (map snd (dict_mapping [(10%Z, [0%Z; 1%Z])]))
                     <-> exists olds o,
                           In (n, olds) [(10%Z, [0%Z; 1%Z])] /\ In o olds
                           /\ PyDict.get o (dict_mapping [(10%Z, [0%Z; 1%Z])])
                              = Some n).
Proof.
  assert (Hf : dict_fresh fan [(10%Z, [0%Z; 1%Z])]).
  { intros n olds Hin. simpl in Hin. destruct Hin as [E|[]].
    inversion E; subst. split; [reflexivity|].
    intros o Ho. simpl in Ho. destruct Ho as [<-|[<-|[]]]; reflexivity. }
  split; [exact first_seen_order|]. split; [apply wfb_sound; reflexivity|].
  split; [exact Hf|].
  apply (merge_clusters_dict_returns first_seen fan [(10%Z, [0%Z; 1%Z])]
           first_seen_order (wfb_sound fan eq_refl) Hf).
Defined.

Lemma merge_clusters_list_validates_witness :
  ~ ((forall x, In x (concat [[0%Z; 0%Z]]) -> nx.has_node fan x = true)
     /\ NoDup (concat [[0%Z; 0%Z]]))
  /\ merge_clusters first_seen fan (ClustersList [[0%Z; 0%Z]])
     = Raised (match nx.max_node fan with
               | None => ValueError
               | Some _ => AssertionError
               end) fan.
Proof.
  assert (H : ~ ((forall x, In x (concat [[0%Z; 0%Z]]) ->
                    nx.has_node fan x = true)
                 /\ NoDup (concat [[0%Z; 0%Z]]))).
  { intros [_ Hnd]. simpl in Hnd. inversion Hnd as [|? ? Hin _]; subst.
    apply Hin. left. reflexivity. }
  split; [exact H|].
  apply (merge_clusters_list_validates first_seen fan [[0%Z; 0%Z]] H).
Defined.

(** ** read_network and write_network *)

Lemma fold_outcome_keeps {A S : Type} (body : S -> A -> outcome S)
  (P : S -> Prop) (l : list A) :
  (forall s x s', P s -> body s x = Returned s' -> P s') ->
  forall s s', P s -> fold_outcome body l s = Returned s' -> P s'.
Proof.
  intros Hstep. induction l as [|x l IH]; intros s s' Hs Hrun;
    cbn [fold_outcome] in Hrun.
  - inversion Hrun; subst. exact Hs.
  - destruct (body s x) as [s1|e] eqn:Hb; [|discriminate].
    apply (IH s1 s' (Hstep s x s1 Hs Hb) Hrun).
Qed.

Section ReadInvariant.
(** A property of the graph under construction that adding a node with
    the value 0, adding an edge and writing a value keep. *)
Variable P : DiGraph -> Prop.
Hypothesis P_add_node :
  forall G n, P G -> P (nx.add_node G n (mkNode (Some 0%Q) None None None None)).
Hypothesis P_add_edge : forall G u v w, P G -> P (nx.add_edge G u v w).
Hypothesis P_set_value : forall G i v G', P G -> set_value G i v = Done G' -> P G'.

Lemma add_edges_zip_keeps idx nbs :
  forall ws G G', P G -> add_edges_zip G idx nbs ws = Returned G' -> P G'.
Proof.
  induction nbs as [|nb nbs IH]; intros ws G G' HG Hrun;
    cbn [add_edges_zip] in Hrun.
  - inversion Hrun; subst. exact HG.
  - destruct (py_int nb) as [neighbour|e]; [|discriminate].
    destruct ws as [|w ws]; [inversion Hrun; subst; exact HG|].
    destruct (py_float w) as [weight|e]; [|discriminate].
    apply (IH ws _ G' (P_add_edge G neighbour idx weight HG) Hrun).
Qed.

Lemma read_network_line_keeps G parts G' :
  P G -> read_network_line G parts = Returned G' -> P G'.
Proof.
  intros HG. unfold read_network_line.
  destruct (nth_error parts 0) as [p0|]; [|discriminate].
  destruct (py_int p0) as [idx|e]; [|discriminate].
  destruct (nth_error parts 1) as [p1|]; [|discriminate].
  destruct (py_int p1) as [n|e]; [|discriminate].
  apply add_edges_zip_keeps. apply P_add_node. exact HG.
Qed.

Lemma read_opinion_line_keeps G parts G' :
  P G -> read_opinion_line G parts = Returned G' -> P G'.
Proof.
  intros HG. unfold read_opinion_line.
  destruct (nth_error parts 0) as [p0|]; [|discriminate].
  destruct (py_int p0) as [idx|e]; [|discriminate].
  destruct (nth_error parts 1) as [p1|]; [|discriminate].
  destruct (py_float p1) as [v|e]; [|discriminate].
  destruct (set_value G idx v) as [G1|e G1] eqn:Hs; [|discriminate].
  intros E. inversion E; subst. apply (P_set_value G idx v G' HG Hs).
Qed.

Lemma read_loops_keep network_lines0 opinion_lines0 G1 G2 :
  P nx.empty ->
  fold_outcome read_network_line network_lines0 nx.empty = Returned G1 ->
  fold_outcome read_opinion_line opinion_lines0 G1 = Returned G2 ->
  P G2.
Proof.
  intros H0 Hn Ho.
  apply (fold_outcome_keeps read_opinion_line P opinion_lines0
           read_opinion_line_keeps G1 G2); [|exact Ho].
  apply (fold_outcome_keeps read_network_line P network_lines0
           read_network_line_keeps nx.empty G1 H0 Hn).
Qed.
End ReadInvariant.

Lemma set_value_done G i v G' :
  set_value G i v = Done G' ->
  exists d, nx.node G i = Some d
            /\ G' = mkGraph (PyDict.set i (with_value d v) (nodes G)) (adj G).
Proof.
  unfold set_value. destruct (nx.node G i) as [d|]; [|discriminate].
  intros E. inversion E; subst. exists d. split; reflexivity.
Qed.

Lemma wf_set_value G i v G' : wf G -> set_value G i v = Done G' -> wf G'.
Proof.
  intros Hwf Hs. destruct (set_value_done G i v G' Hs) as [d [Hd ->]].
  assert (Hk : PyDict.keys (PyDict.set i (with_value d v) (nodes G))
               = PyDict.keys (nodes G)).
  { apply set_present. apply get_Some_key with d. exact Hd. }
  constructor; cbn [nodes adj].
  - rewrite Hk. apply (wf_nodes Hwf).
  - apply (wf_adj Hwf).
  - intros u w x Hin. rewrite Hk. apply (wf_ends Hwf u w x Hin).
Qed.

Lemma plain_add_node G n :
  all_plain G ->
  all_plain (nx.add_node G n (mkNode (Some 0%Q) None None None None)).
Proof.
  intros Hp k d Hin. unfold nx.add_node in Hin. cbn [nodes] in Hin.
  apply In_set in Hin. destruct Hin as [[_ ->]|Hin]; [|apply (Hp k d Hin)].
  destruct (nx.node G n) as [old|] eqn:Hold.
  - destruct (Hp n old (node_In _ _ _ Hold)) as [Hl [Hlo [Hhi Him]]].
    unfold plain, update_attrs. cbn. rewrite Hl, Hlo, Hhi, Him. auto.
  - unfold plain. cbn. auto.
Qed.

Lemma plain_add_edge G u v w : all_plain G -> all_plain (nx.add_edge G u v w).
Proof.
  intros Hp k d Hin. unfold nx.add_edge in Hin. cbn [nodes] in Hin.
  apply In_touch_inv in Hin. destruct Hin as [Hin|E].
  - apply In_touch_inv in Hin. destruct Hin as [Hin|E]; [apply (Hp k d Hin)|].
    inversion E; subst. unfold plain. cbn. auto.
  - inversion E; subst. unfold plain. cbn. auto.
Qed.

Lemma plain_set_value G i v G' :
  all_plain G -> set_value G i v = Done G' -> all_plain G'.
Proof.
  intros Hp Hs. destruct (set_value_done G i v G' Hs) as [d [Hd ->]].
  intros k dk Hin. cbn [nodes] in Hin. apply In_set in Hin.
  destruct Hin as [[_ ->]|Hin]; [|apply (Hp k dk Hin)].
  destruct (Hp i d (node_In _ _ _ Hd)) as [Hl [Hlo [Hhi Him]]].
  unfold plain, with_value. cbn. auto.
Qed.

Lemma wf_reset_labels G : wf G -> wf (reset_labels G).
Proof.
  intros Hwf. pose proof (keys_reset_labels G) as Hk. constructor.
  - rewrite Hk. apply (wf_nodes Hwf).
  - apply (wf_adj Hwf).
  - intros u v w Hin. rewrite Hk. apply (wf_ends Hwf u v w Hin).
Qed.

(** The last three calls of [read_network] on a graph whose nodes have no
    label yet. *)
Lemma finish_plain G :
  wf G -> all_plain G ->
  generate_min_max_values (generate_labels G) = Done (generate_labels G)
  /\ remove_self_loops (generate_labels G)
     = Done (mkGraph (map relabelled (nodes G))
                     (filter (fun e => negb (self_loop e)) (adj G))).
Proof.
  intros Hwf Hp.
  assert (E : generate_labels G = reset_labels G).
  { unfold generate_labels. destruct (nodes G) as [|[n d] rest] eqn:En.
    - unfold reset_labels. rewrite En. destruct G as [ns a].
      cbn [nodes adj] in *. subst ns. reflexivity.
    - destruct (Hp n d) as [Hl _]; [rewrite En; left; reflexivity|].
      rewrite Hl. reflexivity. }
  rewrite E. split.
  - apply min_max_labelled. intros k d Hin. unfold reset_labels in Hin.
    cbn [nodes] in Hin. apply in_map_iff in Hin.
    destruct Hin as [[k' d'] [Heq _]]. inversion Heq; subst. discriminate.
  - rewrite (remove_self_loops_spec _ (wf_reset_labels G Hwf)). reflexivity.
Qed.

(** X20: whatever the two files hold, a graph that [read_network] returns
    has no self-loop, and each of its nodes has the label [[id]] and
    neither [min_value] nor [max_value]: [generate_min_max_values] comes
    after [generate_labels] and finds no node without a label. *)
Theorem read_network_sets_labels_not_bounds network_file opinion_file G :
  read_network network_file opinion_file = Returned G ->
  wf G /\ no_self_loops G
  /\ forall n d, In (n, d) (nodes G) ->
       label d = Some [n] /\ min_value d = None /\ max_value d = None.
Proof.
  unfold read_network. destruct network_file as [|header lines]; [discriminate|].
  destruct (fold_outcome read_network_line lines nx.empty) as [G1|e] eqn:Hn;
    [|discriminate].
  destruct opinion_file as [|oheader olines]; [discriminate|].
  destruct (fold_outcome read_opinion_line olines G1) as [G2|e] eqn:Ho;
    [|discriminate].
  assert (Hwf : wf G2).
  { apply (read_loops_keep wf) with lines olines G1; try assumption.
    - intros; apply wf_add_node; assumption.
    - intros; apply wf_add_edge; assumption.
    - intros G0 i v G' H0 Hs. apply (wf_set_value G0 i v G' H0 Hs).
    - apply wfb_sound. reflexivity. }
  assert (Hp : all_plain G2).
  { apply (read_loops_keep all_plain) with lines olines G1; try assumption.
    - intros; apply plain_add_node; assumption.
    - intros; apply plain_add_edge; assumption.
    - intros G0 i v G' H0 Hs. apply (plain_set_value G0 i v G' H0 Hs).
    - intros n d []. }
  destruct (finish_plain G2 Hwf Hp) as [Hmm Hloops].
  rewrite Hmm, Hloops. intros E. inversion E; subst G. clear E.
  split; [|split].
  - constructor; cbn [nodes adj].
    + assert (Hk : PyDict.keys (map relabelled (nodes G2))
                   = PyDict.keys (nodes G2)).
      { unfold PyDict.keys. rewrite map_map. apply map_ext. reflexivity. }
      rewrite Hk. apply (wf_nodes Hwf).
    + apply NoDup_map_fst_filter. apply (wf_adj Hwf).
    + intros u v w Hin. apply filter_In in Hin. destruct Hin as [Hin _].
      assert (Hk : PyDict.keys (map relabelled (nodes G2))
                   = PyDict.keys (nodes G2)).
      { unfold PyDict.keys. rewrite map_map. apply map_ext. reflexivity. }
      rewrite Hk. apply (wf_ends Hwf u v w Hin).
  - intros u. apply no_loop_after_filter.
  - intros n d Hin. cbn [nodes] in Hin. apply in_map_iff in Hin.
    destruct Hin as [[k d0] [Heq Hin]]. unfold relabelled in Heq.
    cbn [fst snd] in Heq. inversion Heq; subst.
    destruct (Hp n d0 Hin) as [_ [Hlo [Hhi _]]]. cbn. auto.
Qed.

Lemma read_network_sets_labels_not_bounds_witness :
  read_network pair_network_file pair_opinion_file
  = Returned
      (mkGraph [(0%Z, mkNode (Some (2 # 10)) (Some [0%Z]) None None None);
                (1%Z, mkNode (Some (8 # 10)) (Some [1%Z]) None None None)]
               [((0%Z, 1%Z), 5 # 10)])
  /\ wf (mkGraph [(0%Z, mkNode (Some (2 # 10)) (Some [0%Z]) None None None);
                  (1%Z, mkNode (Some (8 # 10)) (Some [1%Z]) None None None)]
                 [((0%Z, 1%Z), 5 # 10)])
  /\ no_self_loops
       (mkGraph [(0%Z, mkNode (Some (2 # 10)) (Some [0%Z]) None None None);
                 (1%Z, mkNode (Some (8 # 10)) (Some [1%Z]) None None None)]
                [((0%Z, 1%Z), 5 # 10)])
  /\ forall n d,
       In (n, d)
          (nodes
             (mkGraph [(0%Z, mkNode (Some (2 # 10)) (Some [0%Z]) None None None);
                       (1%Z, mkNode (Some (8 # 10)) (Some [1%Z]) None None None)]
                      [((0%Z, 1%Z), 5 # 10)])) ->
       label d = Some [n] /\ min_value d = None /\ max_value d = None.
Proof.
  split; [reflexivity|].
  apply (read_network_sets_labels_not_bounds pair_network_file
           pair_opinion_file). reflexivity.
Defined.

(** *** The round trip through the two files *)

Lemma slice_neighbours {A : Type} (a b : A) (xs ys : list A) :
  py_slice (a :: b :: xs ++ ys) 2 (Some (2 + Z.of_nat (length xs))%Z) = xs.
Proof.
  unfold py_slice, slice_index. cbn [length]. rewrite length_app.
  destruct (Z.ltb_spec (2 + Z.of_nat (length xs)) 0) as [Hlt|_]; [lia|].
  change (2 <? 0)%Z with false. cbv iota.
  rewrite !Z.min_l by lia.
  replace (Z.to_nat (2 + Z.of_nat (length xs)) - Z.to_nat 2)%nat
    with (length xs) by lia.
  change (Z.to_nat 2) with 2%nat. cbn [skipn].
  rewrite firstn_app, Nat.sub_diag, firstn_all. cbn [firstn].
  apply app_nil_r.
Qed.

Lemma slice_weights {A : Type} (a b : A) (xs ys : list A) :
  py_slice (a :: b :: xs ++ ys) (2 + Z.of_nat (length xs))%Z None = ys.
Proof.
  unfold py_slice, slice_index. cbn [length]. rewrite length_app.
  destruct (Z.ltb_spec (2 + Z.of_nat (length xs)) 0) as [Hlt|_]; [lia|].
  rewrite Z.min_l by lia.
  replace (Z.to_nat (2 + Z.of_nat (length xs))) with (S (S (length xs))) by lia.
  replace (S (S (length xs + length ys)) - S (S (length xs)))%nat
    with (length ys) by lia.
  cbn [skipn]. rewrite skipn_app, Nat.sub_diag, skipn_all. cbn [skipn app].
  apply firstn_all.
Qed.

Lemma add_edges_zip_written idx (ps : list Z) :
  forall (ws : list Q) G,
    length ps = length ws ->
    add_edges_zip G idx (map IntLit ps) (map FloatLit ws)
    = Returned (fold_left (fun G pw => nx.add_edge G (fst pw) idx (snd pw))
                          (combine ps ws) G).
Proof.
  induction ps as [|p ps IH]; intros ws G Hlen; [reflexivity|].
  destruct ws as [|w ws]; [discriminate|].
  cbn [map add_edges_zip py_int py_float combine fold_left fst snd].
  apply IH. cbn [length] in Hlen. lia.
Qed.

Lemma edge_weights_spec g n (l : list ((Z * Z) * Q)) :
  NoDup (PyDict.keys (adj g)) ->
  (forall e, In e l -> In e (adj g) /\ snd (fst e) = n) ->
  edge_weights g n (map (fun e => fst (fst e)) l) = Ok (map snd l).
Proof.
  intros Hnd. induction l as [|[[u v] w] l IH]; intros Hall; [reflexivity|].
  cbn [map edge_weights fst snd].
  destruct (Hall _ (or_introl eq_refl)) as [Hin Hv]. cbn [fst snd] in Hv.
  subst v. unfold nx.edge_value. rewrite (In_get _ _ _ Hnd Hin).
  rewrite IH; [reflexivity|]. intros e He. apply Hall. right. exact He.
Qed.

Lemma combine_map {A B C : Type} (f : A -> B) (h : A -> C) (l : list A) :
  combine (map f l) (map h l) = map (fun x => (f x, h x)) l.
Proof. induction l as [|x l IH]; cbn; [|rewrite IH]; reflexivity. Qed.

Lemma read_written_line g G n :
  wf g -> nx.has_node g n = true ->
  exists line,
    network_line g n = Ok line
    /\ read_network_line G line = Returned (read_row g G n).
Proof.
  intros Hwf Hn. unfold network_line, nx.predecessors. rewrite Hn.
  rewrite (edge_weights_spec g n (nx.in_edges g n) (wf_adj Hwf)).
  2:{ intros e He. unfold nx.in_edges in He. apply filter_In in He.
      destruct He as [Hin Ht]. apply Z.eqb_eq in Ht. auto. }
  eexists. split; [reflexivity|].
  unfold read_network_line. cbn [nth_error py_int].
  rewrite <- (length_map IntLit (map (fun e => fst (fst e)) (nx.in_edges g n))).
  rewrite slice_neighbours, slice_weights.
  rewrite add_edges_zip_written by (rewrite !length_map; reflexivity).
  rewrite combine_map. reflexivity.
Qed.

Lemma read_written_lines g :
  wf g ->
  forall ns G,
    (forall n, In n ns -> nx.has_node g n = true) ->
    exists lines,
      network_lines g ns = Ok lines
      /\ fold_outcome read_network_line lines G
         = Returned (fold_left (read_row g) ns G).
Proof.
  intros Hwf. induction ns as [|n ns IH]; intros G Hall.
  - exists []. split; reflexivity.
  - destruct (read_written_line g G n Hwf (Hall n (or_introl eq_refl)))
      as [line [Hline Hread]].
    destruct (IH (read_row g G n) (fun x Hx => Hall x (or_intror Hx)))
      as [lines [Hlines Hfold]].
    exists (line :: lines). cbn [network_lines fold_outcome fold_left].
    rewrite Hline, Hlines, Hread. split; [reflexivity | exact Hfold].
Qed.

Lemma get_in_items g u n :
  PyDict.get u (in_items g n) = nx.edge_value g u n.
Proof.
  unfold in_items, nx.in_edges, nx.edge_value.
  induction (adj g) as [|[[x y] w] a IH]; [reflexivity|].
  cbn [filter map fst snd PyDict.get].
  destruct (Z.eqb_spec y n) as [->|Hy].
  - cbn [map fst snd PyDict.get].
    destruct (eq_dec u x) as [->|Hux].
    + destruct (eq_dec (x, n) (x, n)); [reflexivity | congruence].
    + destruct (eq_dec (u, n) (x, n)) as [E|_]; [inversion E; congruence|].
      exact IH.
  - destruct (eq_dec (u, n) (x, y)) as [E|_]; [inversion E; congruence|].
    exact IH.
Qed.

Lemma NoDup_in_items g n :
  NoDup (PyDict.keys (adj g)) -> NoDup (PyDict.keys (in_items g n)).
Proof.
  unfold in_items, nx.in_edges, PyDict.keys.
  induction (adj g) as [|[[x y] w] a IH]; intros Hnd; [constructor|].
  cbn [map fst] in Hnd. inversion Hnd as [|? ? Hk Hnd']; subst.
  cbn [filter fst snd]. destruct (Z.eqb_spec y n) as [->|Hy]; [|apply IH; exact Hnd'].
  cbn [map fst snd]. constructor; [|apply IH; exact Hnd'].
  intros Hin. apply Hk. rewrite map_map in Hin. apply in_map_iff in Hin.
  destruct Hin as [[[x' y'] w'] [E Hin']]. cbn [fst] in E. subst x'.
  apply filter_In in Hin'. destruct Hin' as [Hin' Ht]. cbn [fst snd] in Ht.
  apply Z.eqb_eq in Ht. subst y'.
  apply in_map_iff. exists ((x, n), w'). auto.
Qed.

Lemma edge_value_add_edges n :
  forall (L : list (Z * Q)) G u v,
    NoDup (PyDict.keys L) ->
    nx.edge_value
      (fold_left (fun G pw => nx.add_edge G (fst pw) n (snd pw)) L G) u v
    = if (v =? n)%Z
      then match PyDict.get u L with
           | Some w => Some w
           | None => nx.edge_value G u n
           end
      else nx.edge_value G u v.
Proof.
  induction L as [|[p w] L IH]; intros G u v Hnd; cbn [fold_left fst snd].
  - cbn [PyDict.get]. destruct (Z.eqb_spec v n) as [->|]; reflexivity.
  - cbn [PyDict.keys map fst] in Hnd. inversion Hnd as [|? ? Hp Hnd']; subst.
    rewrite (IH _ u v Hnd'). cbn [PyDict.get].
    destruct (Z.eqb_spec v n) as [->|Hv].
    + destruct (eq_dec u p) as [->|Hup].
      * apply get_None_iff in Hp. rewrite Hp.
        apply edge_value_add_edge_eq.
      * destruct (PyDict.get u L); [reflexivity|].
        apply edge_value_add_edge_ne. congruence.
    + apply edge_value_add_edge_ne. congruence.
Qed.

Lemma has_node_add_edges n :
  forall (L : list (Z * Q)) G x,
    nx.has_node
      (fold_left (fun G pw => nx.add_edge G (fst pw) n (snd pw)) L G) x = true
    <-> nx.has_node G x = true \/ (L <> [] /\ x = n) \/ In x (PyDict.keys L).
Proof.
  induction L as [|[p w] L IH]; intros G x; cbn [fold_left fst snd].
  - cbn [PyDict.keys map In]. intuition congruence.
  - rewrite IH, has_node_add_edge. cbn [PyDict.keys map fst In]. split.
    + intros [[H|[H|H]]|[[_ H]|H]]; auto.
      * right. left. split; [discriminate | exact H].
      * right. left. split; [discriminate | exact H].
    + intros [H|[[_ H]|[H|H]]]; auto.
Qed.

Lemma edge_value_add_node G n attrs u v :
  nx.edge_value (nx.add_node G n attrs) u v = nx.edge_value G u v.
Proof. reflexivity. Qed.

Lemma has_node_add_node G n attrs x :
  nx.has_node (nx.add_node G n attrs) x = true
  <-> x = n \/ nx.has_node G x = true.
Proof.
  rewrite !has_node_In. unfold nx.add_node. cbn [nodes].
  apply In_keys_set.
Qed.

Section NetworkRoundTrip.
Variable g : DiGraph.
Hypothesis g_wf : wf g.

Lemma sources_are_nodes n x :
  In x (PyDict.keys (in_items g n)) -> nx.has_node g x = true.
Proof.
  intros Hx. unfold in_items, PyDict.keys in Hx. rewrite map_map in Hx.
  apply in_map_iff in Hx. destruct Hx as [[[u v] w] [E Hin]].
  cbn [fst] in E. subst u. unfold nx.in_edges in Hin.
  apply filter_In in Hin. destruct Hin as [Hin _].
  apply has_node_In. apply (wf_ends g_wf x v w Hin).
Qed.

(** What holds after the lines of the nodes [done] have been read. *)
Lemma rows_read :
  forall ns done G,
    NoDup (done ++ ns) ->
    (forall x, In x ns -> nx.has_node g x = true) ->
    (forall x, nx.has_node G x = true -> nx.has_node g x = true) ->
    (forall x, In x done -> nx.has_node G x = true) ->
    (forall u v, In v done -> nx.edge_value G u v = nx.edge_value g u v) ->
    (forall u v, ~ In v done -> nx.edge_value G u v = None) ->
    let G' := fold_left (read_row g) ns G in
    (forall x, nx.has_node G' x = true -> nx.has_node g x = true)
    /\ (forall x, In x (done ++ ns) -> nx.has_node G' x = true)
    /\ (forall u v, In v (done ++ ns) ->
          nx.edge_value G' u v = nx.edge_value g u v)
    /\ (forall u v, ~ In v (done ++ ns) -> nx.edge_value G' u v = None).
Proof.
  induction ns as [|n ns IH]; intros done G Hnd Hns Hsub Hdone Hin Hout;
    cbn [fold_left].
  - rewrite app_nil_r. auto.
  - assert (Hn : ~ In n done).
    { apply NoDup_remove_2 in Hnd. rewrite in_app_iff in Hnd. tauto. }
    assert (Hedge : forall u v,
              nx.edge_value (read_row g G n) u v
              = if (v =? n)%Z then nx.edge_value g u n
                else nx.edge_value G u v).
    { intros u v. unfold read_row.
      rewrite edge_value_add_edges by (apply NoDup_in_items; apply (wf_adj g_wf)).
      rewrite get_in_items, !edge_value_add_node.
      destruct (Z.eqb_spec v n) as [->|]; [|reflexivity].
      destruct (nx.edge_value g u n); [reflexivity|]. apply Hout. exact Hn. }
    replace (done ++ n :: ns) with ((done ++ [n]) ++ ns) in *
      by (rewrite <- app_assoc; reflexivity).
    apply IH.
    + exact Hnd.
    + intros x Hx. apply Hns. right. exact Hx.
    + intros x Hx. unfold read_row in Hx. apply has_node_add_edges in Hx.
      destruct Hx as [Hx|[[_ ->]|Hx]].
      * apply has_node_add_node in Hx. destruct Hx as [->|Hx].
        -- apply Hns. left. reflexivity.
        -- apply Hsub. exact Hx.
      * apply Hns. left. reflexivity.
      * apply (sources_are_nodes n x Hx).
    + intros x Hx. unfold read_row. apply has_node_add_edges. left.
      apply has_node_add_node. apply in_app_iff in Hx.
      destruct Hx as [Hx|[<-|[]]]; [right; apply Hdone; exact Hx | left; reflexivity].
    + intros u v Hv. rewrite Hedge. apply in_app_iff in Hv.
      destruct (Z.eqb_spec v n) as [->|Hvn]; [reflexivity|].
      destruct Hv as [Hv|[E|[]]]; [apply Hin; exact Hv | congruence].
    + intros u v Hv. rewrite Hedge. rewrite in_app_iff in Hv.
      destruct (Z.eqb_spec v n) as [->|Hvn].
      * exfalso. apply Hv. right. left. reflexivity.
      * apply Hout. tauto.
Qed.

Lemma opinion_lines_spec (l : list (Z * NodeData)) :
  (forall n d, In (n, d) l -> value d <> None) ->
  opinion_lines l
  = Ok (map (fun nd => [IntLit (fst nd); FloatLit (value_or_zero (snd nd))]) l).
Proof.
  induction l as [|[n d] l IH]; intros Hv; [reflexivity|].
  cbn [opinion_lines map fst snd].
  destruct (value d) as [v|] eqn:Ev;
    [|exfalso; apply (Hv n d (or_introl eq_refl)); exact Ev].
  rewrite IH by (intros k dk Hin; apply (Hv k dk); right; exact Hin).
  unfold value_or_zero. rewrite Ev. reflexivity.
Qed.

Lemma read_opinions_as_writes (upd : list (Z * Q)) :
  forall G G',
    fold_run (fun g iv => set_value g (fst iv) (snd iv)) upd G = Done G' ->
    fold_outcome read_opinion_line
                 (map (fun iv => [IntLit (fst iv); FloatLit (snd iv)]) upd) G
    = Returned G'.
Proof.
  induction upd as [|[i v] upd IH]; intros G G' Hrun;
    cbn [fold_run map fold_outcome fst snd] in *.
  - inversion Hrun; subst. reflexivity.
  - unfold read_opinion_line at 1. cbn [nth_error py_int py_float].
    destruct (set_value G i v) as [G1|e G1]; cbn [bind] in Hrun; [|discriminate].
    apply IH. exact Hrun.
Qed.

Lemma get_map_relabelled (l : list (Z * NodeData)) n :
  PyDict.get n (map relabelled l)
  = match PyDict.get n l with
    | Some d => Some (mkNode (value d) (Some [n]) (min_value d) (max_value d)
                             (importance d))
    | None => None
    end.
Proof.
  induction l as [|[k d] l IH]; [reflexivity|].
  cbn [map relabelled fst snd PyDict.get].
  destruct (eq_dec n k) as [->|_]; [reflexivity | exact IH].
Qed.

(** X21: writing a graph whose nodes carry a value with [write_network]
    and reading the two files with [read_network] gives a graph with the
    same nodes and values, and the same edges and weights except that
    self-loops are gone.  Labels are lost (each node comes back with the
    label [[id]]), and so are [min_value], [max_value] and
    [importance]. *)
Theorem network_files_round_trip :
  all_valued g ->
  exists network_file opinion_file g',
    write_network g = Ok (network_file, opinion_file)
    /\ read_network network_file opinion_file = Returned g'
    /\ (forall n,
          nx.node g' n
          = match nx.node g n with
            | Some d => Some (mkNode (value d) (Some [n]) None None None)
            | None => None
            end)
    /\ (forall u v,
          nx.edge_value g' u v
          = if (u =? v)%Z then None else nx.edge_value g u v).
Proof.
  intros Hv.
  destruct (read_written_lines g g_wf (PyDict.keys (nodes g)) nx.empty)
    as [lines [Hlines Hread]];
    [intros n Hn; apply has_node_In; exact Hn|].
  set (G1 := fold_left (read_row g) (PyDict.keys (nodes g)) nx.empty) in *.
  destruct (rows_read (PyDict.keys (nodes g)) [] nx.empty)
    as [Hsub [Hall [Hedges Hnone]]].
  { apply (wf_nodes g_wf). }
  { intros x Hx. apply has_node_In. exact Hx. }
  { intros x Hx. discriminate. }
  { intros x []. }
  { intros u v []. }
  { intros u v _. reflexivity. }
  cbn [app] in Hall, Hedges, Hnone. fold G1 in Hsub, Hall, Hedges, Hnone.
  assert (Hwf1 : wf G1 /\ all_plain G1).
  { split.
    - apply (fold_outcome_keeps read_network_line wf lines) with nx.empty;
        [|apply wfb_sound; reflexivity|exact Hread].
      intros G0 parts G' H0. apply read_network_line_keeps; [| |exact H0].
      + intros; apply wf_add_node; assumption.
      + intros; apply wf_add_edge; assumption.
    - apply (fold_outcome_keeps read_network_line all_plain lines) with nx.empty;
        [|intros n d []|exact Hread].
      intros G0 parts G' H0. apply read_network_line_keeps; [| |exact H0].
      + intros; apply plain_add_node; assumption.
      + intros; apply plain_add_edge; assumption. }
  destruct Hwf1 as [Hwf1 Hp1].
  set (upd := map (fun nd : Z * NodeData => (fst nd, value_or_zero (snd nd)))
                  (nodes g)).
  assert (Hkeys : PyDict.keys upd = PyDict.keys (nodes g)).
  { unfold upd, PyDict.keys. rewrite map_map. reflexivity. }
  destruct (write_values_spec G1 upd) as [G2 [Hrun2 [Ha2 [Hk2 Hnode2]]]].
  { rewrite Hkeys. apply (wf_nodes g_wf). }
  { intros i Hi. rewrite Hkeys in Hi. apply Hall. exact Hi. }
  assert (Hwf2 : wf G2).
  { constructor.
    - rewrite Hk2. apply (wf_nodes Hwf1).
    - rewrite Ha2. apply (wf_adj Hwf1).
    - intros u v w Hin. rewrite Hk2. rewrite Ha2 in Hin.
      apply (wf_ends Hwf1 u v w Hin). }
  assert (Hp2 : all_plain G2).
  { apply (fold_run_done (fun g iv => set_value g (fst iv) (snd iv))
                         all_plain upd) with G1; [|exact Hp1|exact Hrun2].
    intros G0 iv G' _ H0 Hs. apply (plain_set_value G0 _ _ G' H0 Hs). }
  destruct (finish_plain G2 Hwf2 Hp2) as [Hmm Hloops].
  exists ([Word; Word; Word; Word; Word] :: lines).
  exists ([Word; Word; Word]
            :: map (fun nd => [IntLit (fst nd); FloatLit (value_or_zero (snd nd))])
                   (nodes g)).
  eexists. split.
  - unfold write_network. rewrite Hlines, (opinion_lines_spec (nodes g) Hv).
    reflexivity.
  - split.
    + unfold read_network. rewrite Hread.
      replace (map (fun nd : Z * NodeData =>
                      [IntLit (fst nd); FloatLit (value_or_zero (snd nd))])
                   (nodes g))
        with (map (fun iv : Z * Q => [IntLit (fst iv); FloatLit (snd iv)]) upd)
        by (unfold upd; rewrite map_map; reflexivity).
      rewrite (read_opinions_as_writes upd G1 G2 Hrun2).
      rewrite Hmm, Hloops. reflexivity.
    + split.
      * intros n. unfold nx.node at 1. cbn [nodes].
        rewrite get_map_relabelled. fold (nx.node G2 n).
        destruct (nx.node g n) as [dg|] eqn:Hdg.
        -- assert (Hn1 : nx.has_node G1 n = true).
           { apply Hall. apply has_node_In. apply has_node_node. eauto. }
           apply has_node_node in Hn1. destruct Hn1 as [d1 Hd1].
           rewrite (Hnode2 n d1 Hd1).
           assert (Hget : PyDict.get n upd = Some (value_or_zero dg)).
           { apply In_get; [rewrite Hkeys; apply (wf_nodes g_wf)|].
             unfold upd. apply in_map_iff. exists (n, dg).
             split; [reflexivity | apply node_In; exact Hdg]. }
           rewrite Hget.
           destruct (Hp1 n d1 (node_In _ _ _ Hd1)) as [Hl [Hlo [Hhi Him]]].
           unfold with_value. cbn [value min_value max_value importance].
           rewrite Hlo, Hhi, Him. unfold value_or_zero.
           pose proof (Hv n dg (node_In _ _ _ Hdg)) as Hval.
           destruct (value dg); [reflexivity | congruence].
        -- assert (Hn2 : nx.node G2 n = None).
           { destruct (nx.node G2 n) as [d2|] eqn:Hd2; [|reflexivity].
             exfalso. apply get_Some_key in Hd2. rewrite Hk2 in Hd2.
             apply has_node_In, Hsub, has_node_node in Hd2.
             destruct Hd2 as [d Hd]. congruence. }
           rewrite Hn2. reflexivity.
      * intros u v. destruct (Z.eqb_spec u v) as [->|Huv].
        -- apply edge_value_none. apply no_loop_after_filter.
        -- rewrite edge_value_after_filter by exact Huv. rewrite Ha2.
           fold (nx.edge_value G1 u v).
           destruct (in_dec Z.eq_dec v (PyDict.keys (nodes g))) as [Hin|Hnin].
           ++ apply Hedges. exact Hin.
           ++ rewrite (Hnone u v Hnin). symmetry. apply edge_value_none.
              apply has_node_false in Hnin.
              apply (fresh_node_isolated g v g_wf Hnin u).
Qed.
End NetworkRoundTrip.

Lemma network_files_round_trip_witness :
  wf bare_pair /\ all_valued bare_pair
  /\ exists network_file opinion_file g',
       write_network bare_pair = Ok (network_file, opinion_file)
       /\ read_network network_file opinion_file = Returned g'
       /\ (forall n,
             nx.node g' n
             = match nx.node bare_pair n with
               | Some d => Some (mkNode (value d) (Some [n]) None None None)
               | None => None
               end)
       /\ (forall u v,
             nx.edge_value g' u v
             = if (u =? v)%Z then None else nx.edge_value bare_pair u v).
Proof.
  assert (Hv : all_valued bare_pair)
    by (intros n d Hin; each_node Hin; discriminate).
  split; [apply wfb_sound; reflexivity|]. split; [exact Hv|].
  apply (network_files_round_trip bare_pair (wfb_sound bare_pair eq_refl) Hv).
Defined.

(** ** weighted_mean_value: its range *)



